(** * Housekeeping (mark-and-sweep) handler and registry construction

    A shallow embedding of
      - registry/handlers/housekeeping.go  (the garbage-collection trigger),
      - registry/storage/registry.go       (NewRegistry, repository services),
    of the distribution registry, with the properties of the design
    document stated and settled against it.

    Go values are modelled as follows.  [digest.Digest] and [error] are
    strings (an error is identified with the text [err.Error()] gives);
    a [(T, error)] result is a [result T]; an [error] result is an
    [option error] with [None] for [nil]; [map[digest.Digest]struct{}] is
    a [gset]; slices are lists; pointers into shared objects are
    locations of an explicit heap (module [storage]). *)

From Stdlib Require Import ZArith.
From stdpp Require Import base option list gmap strings.

#[global] Set Warnings "-clear-no-such-hyp".

Open Scope string_scope.
Open Scope list_scope.

(** ** Common Go vocabulary *)

Definition error := string.

Inductive result (A : Type) : Type :=
| Ok (a : A)
| Err (err : error).
Arguments Ok {A} a.
Arguments Err {A} err.

(** The line feed [emit] appends to every format. *)
Definition LF : string := String (Ascii.ascii_of_nat 10) EmptyString.

(** ** The [distribution] interfaces the handler is written against *)

Module distribution.

(** [digest.Digest] is a Go string type. *)
Definition Digest := string.

(** [distribution.Descriptor]; the handler builds [Descriptor{Digest: dgst}]
    and reads [descriptor.Digest].  Here and below a trailing underscore
    marks a Go name that is already taken in this file. *)
Record Descriptor := mkDescriptor {
  MediaType : string;
  Size : Z;
  Digest_ : Digest
}.

(** A manifest, seen through its only method used here. *)
Record Manifest := mkManifest {
  References : list Descriptor
}.

Section Services.
(** The persisted state behind the storage driver.  A method that reads
    it is a function of the state; a method that writes it returns the
    state it leaves, whether it fails or not. *)
Context {St : Type}.

(** [distribution.TagService], the two methods used. *)
Record TagService := mkTagService {
  Lookup : St → Descriptor → result (list string);
  All : St → result (list string)
}.

(** [distribution.ManifestService].  [AsEnumerator] is the outcome of the
    type assertion [service.(distribution.ManifestEnumerator)]: [None]
    when the service does not implement it, otherwise the sequence its
    [Enumerate] walks, each element a digest handed to the ingester or
    a failure of the walk itself. *)
Record ManifestService := mkManifestService {
  Get : St → Digest → result Manifest;
  AsEnumerator : option (St → list (result Digest))
}.

(** The value [Repository.RepositoryBlobsEnumerator] returns. *)
Record BlobsEnumerator := mkBlobsEnumerator {
  IsScopped : bool;
  Blobs : St → list (result Digest)
}.

(** [distribution.Repository].  [Name] is [Named().Name()];
    [RepositoryBlobsEnumerator] is [None] for a nil interface value. *)
Record Repository := mkRepository {
  Name : string;
  Tags : TagService;
  Manifests : result ManifestService;
  RepositoryBlobsEnumerator : option BlobsEnumerator
}.

(** [storage.Vacuum], as [storage.NewVacuum(ctx, driver)] builds it. *)
Record Vacuum := mkVacuum {
  RemoveManifest : string → Digest → list string → St → St * option error;
  RemoveRepositoryBlob : string → Digest → St → St * option error
}.

(** The storage driver is visible to the handler only through the
    vacuum built on it. *)
Record StorageDriver := mkStorageDriver {
  NewVacuum : Vacuum
}.
End Services.

Arguments TagService : clear implicits.
Arguments ManifestService : clear implicits.
Arguments BlobsEnumerator : clear implicits.
Arguments Repository : clear implicits.
Arguments Vacuum : clear implicits.
Arguments StorageDriver : clear implicits.

End distribution.

(** ** net/http: the response writer and the method handler *)

Module http.

Definition StatusOK : Z := 200.
Definition StatusInternalServerError : Z := 500.

(** A recording [http.ResponseWriter]: the header map, the status once
    written, and the body bytes. *)
Record ResponseWriter := mkResponseWriter {
  header : gmap string (list string);
  status : option Z;
  body : string
}.

Definition NewRecorder : ResponseWriter :=
  {| header := ∅; status := None; body := "" |}.

(** [w.Header().Set(k, v)] *)
Definition HeaderSet (k v : string) (w : ResponseWriter) : ResponseWriter :=
  {| header := <[k := [v]]> (header w); status := status w; body := body w |}.

(** [w.WriteHeader(code)]: only the first call counts. *)
Definition WriteHeader (code : Z) (w : ResponseWriter) : ResponseWriter :=
  match status w with
  | Some _ => w
  | None => {| header := header w; status := Some code; body := body w |}
  end.

(** [w.Write(b)]: writes the header with [StatusOK] when none was
    written so far, then appends to the body. *)
Definition WriteBody (b : string) (w : ResponseWriter) : ResponseWriter :=
  let w' := WriteHeader StatusOK w in
  {| header := header w'; status := status w'; body := body w' +:+ b |}.

End http.

(** ** registry/handlers/housekeeping.go *)

Module handlers.
Import distribution.

(** What a run does to the world outside the handler, in program order:
    lines printed by [emit], the debug log, and every call made on a
    collaborating service. *)
Inductive event :=
| Stdout (line : string)
| LogDebug (msg : string)
| CallLookup (desc : Descriptor)
| CallAll
| CallGet (dgst : Digest)
| CallEnumerateManifests
| CallEnumerateBlobs
| CallRemoveManifest (name : string) (dgst : Digest) (tags : list string)
| CallRemoveRepositoryBlob (name : string) (dgst : Digest).

(** [type ManifestDel struct] *)
Record ManifestDel := mkManifestDel {
  Name_ : string;
  Digest__ : Digest;
  Tags_ : list string
}.

(** The two objects [runGCCycle] shares with the closure of
    [markAllManifests]: the slice behind [*manifestArr] and the map
    [markSet]. *)
Record MarkVars := mkMarkVars {
  manifestArr : list ManifestDel;
  markSet : gset Digest
}.

Section Handler.
Context {St : Type}.

(** The world a run acts on. *)
Record World := mkWorld {
  storage : St;
  trace : list event
}.

(** The world before a run: nothing recorded yet. *)
Definition start (st : St) : World := {| storage := st; trace := [] |}.

(** Computations of the handler: state passing over [World].  Go's
    error results stay ordinary values. *)
Definition M (A : Type) : Type := World → A * World.

#[global] Instance M_ret : MRet M := λ A a w, (a, w).
#[global] Instance M_bind : MBind M :=
  λ A B f m w, let '(a, w') := m w in f a w'.

Definition log (e : event) : M unit :=
  λ w, (tt, {| storage := storage w; trace := trace w ++ [e] |}).

(** A call that only reads the persisted state. *)
Definition query {A} (e : event) (f : St → A) : M A :=
  λ w, (f (storage w), {| storage := storage w; trace := trace w ++ [e] |}).

(** A call that may change the persisted state. *)
Definition update {A} (e : event) (f : St → St * A) : M A :=
  λ w, let '(st, a) := f (storage w) in
       (a, {| storage := st; trace := trace w ++ [e] |}).

(** [func emit(format string, a ...interface{})], at the formatted line. *)
Definition emit (line : string) : M unit := log (Stdout (line +:+ LF)).

(** Modelled from the spec: the [Enumerate] method of the manifest and
    blob enumerators, whose code is not part of these sources.  The
    design document describes enumeration as a lazy, finite sequence
    in which an error of the ingester callback is never swallowed and
    a failure of the walk itself is fatal: the ingester runs on each
    digest in order, and the first error, of the walk or of the
    ingester, ends the enumeration and is its result. *)
Fixpoint Enumerate {S : Type} (items : list (result Digest))
    (ingester : Digest → S → M (S * option error)) (s : S)
    : M (S * option error) :=
  match items with
  | [] => mret (s, None)
  | Err err :: _ => mret (s, Some err)
  | Ok dgst :: rest =>
      '(s', err) ← ingester dgst s;
      match err with
      | Some e => mret (s', Some e)
      | None => Enumerate rest ingester s'
      end
  end.

(** [type Context struct], the fields the housekeeping handler reads. *)
Record Context := mkContext {
  Repository_ : Repository St;
  readOnly : bool;
  driver : StorageDriver St
}.

(** [distribution.Descriptor{Digest: dgst}] *)
Definition digestOnly (dgst : Digest) : Descriptor :=
  {| MediaType := ""; Size := 0; Digest_ := dgst |}.

Section Mark.
Variable bh : Context.
Variable service : ManifestService St.

Let repo := Repository_ bh.

Definition removeUntagged : bool := true.

(** housekeeping.go:87-90, the loop over [manifest.References()]. *)
Fixpoint markDescriptors (descriptors : list Descriptor) (v : MarkVars)
    : M MarkVars :=
  match descriptors with
  | [] => mret v
  | descriptor :: rest =>
      let v' := {| manifestArr := manifestArr v;
                   markSet := {[ Digest_ descriptor ]} ∪ markSet v |} in
      _ ← emit (Name repo +:+ ": marking blob " +:+ Digest_ descriptor);
      markDescriptors rest v'
  end.

(** housekeeping.go:77-92, the tail of the ingester. *)
Definition markManifest (dgst : Digest) (v : MarkVars)
    : M (MarkVars * option error) :=
  _ ← emit (Name repo +:+ ": marking manifest " +:+ dgst +:+ " ");
  let v' := {| manifestArr := manifestArr v;
               markSet := {[ dgst ]} ∪ markSet v |} in
  r ← query (CallGet dgst) (λ st, Get service st dgst);
  match r with
  | Err err =>
      mret (v', Some ("failed to retrieve manifest for digest "
                      +:+ dgst +:+ ": " +:+ err))
  | Ok manifest =>
      v'' ← markDescriptors (References manifest) v';
      mret (v'', None)
  end.

(** housekeeping.go:54-93, the ingester passed to [Enumerate]. *)
Definition markIngester (dgst : Digest) (v : MarkVars)
    : M (MarkVars * option error) :=
  if removeUntagged then
    let desc := digestOnly dgst in
    r ← query (CallLookup desc) (λ st, Lookup (Tags repo) st desc);
    match r with
    | Err err =>
        mret (v, Some ("failed to retrieve tags for digest "
                       +:+ dgst +:+ ": " +:+ err))
    | Ok tags =>
        if (length tags =? 0)%nat then
          _ ← emit ("manifest eligible for deletion: " +:+ dgst);
          r' ← query CallAll (λ st, All (Tags repo) st);
          match r' with
          | Err err => mret (v, Some ("failed to retrieve tags " +:+ err))
          | Ok allTags =>
              mret ({| manifestArr :=
                         manifestArr v ++
                           [ {| Name_ := Name repo; Digest__ := dgst;
                                Tags_ := allTags |} ];
                       markSet := markSet v |}, None)
          end
        else markManifest dgst v
    end
  else markManifest dgst v.

(** [func (bh *housekeepingHandler) markAllManifests] *)
Definition markAllManifests (v : MarkVars) : M (MarkVars * option error) :=
  match AsEnumerator service with
  | None =>
      mret (v, Some "unable to convert ManifestService into ManifestEnumerator")
  | Some manifestEnumerator =>
      items ← query CallEnumerateManifests manifestEnumerator;
      Enumerate items markIngester v
  end.
End Mark.

(** housekeeping.go:115-120, the loop over [manifestArr]. *)
Fixpoint removeManifests (vacuum : Vacuum St) (arr : list ManifestDel)
    : M (option error) :=
  match arr with
  | [] => mret None
  | obj :: rest =>
      err ← update (CallRemoveManifest (Name_ obj) (Digest__ obj) (Tags_ obj))
                   (RemoveManifest vacuum (Name_ obj) (Digest__ obj) (Tags_ obj));
      match err with
      | Some e =>
          mret (Some ("failed to delete manifest " +:+ Digest__ obj
                      +:+ ": " +:+ e))
      | None => removeManifests vacuum rest
      end
  end.

(** housekeeping.go:124-130, the ingester of the blob sweep.  The result
    of [RemoveRepositoryBlob] is dropped by the call statement. *)
Definition sweepIngester (bh : Context) (vacuum : Vacuum St)
    (markSet : gset Digest) (dgst : Digest) (s : unit)
    : M (unit * option error) :=
  if decide (dgst ∈ markSet) then mret (s, None)
  else
    _ ← update (CallRemoveRepositoryBlob (Name (Repository_ bh)) dgst)
               (RemoveRepositoryBlob vacuum (Name (Repository_ bh)) dgst);
    mret (s, None).

(** housekeeping.go:122-135 *)
Definition removeBlobs (bh : Context)
    (blobsService : option (BlobsEnumerator St)) (vacuum : Vacuum St)
    (markSet : gset Digest) : M (option error) :=
  match blobsService with
  | Some bs =>
      if IsScopped bs then
        items ← query CallEnumerateBlobs (Blobs bs);
        '(_, err) ← Enumerate items (sweepIngester bh vacuum markSet) tt;
        match err with
        | Some e => mret (Some ("failed to delete blobs " +:+ e))
        | None => mret None
        end
      else mret None
  | None => mret None
  end.

(** [func (bh *housekeepingHandler) runGCCycle() error] *)
Definition runGCCycle (bh : Context) : M (option error) :=
  match Manifests (Repository_ bh) with
  | Err err => mret (Some ("failed to construct manifest service: " +:+ err))
  | Ok manifestService =>
      let blobsService := RepositoryBlobsEnumerator (Repository_ bh) in
      '(v, err) ← markAllManifests bh manifestService
                    {| manifestArr := []; markSet := ∅ |};
      match err with
      | Some e => mret (Some ("failed to mark all manifests: " +:+ e))
      | None =>
          let vacuum := NewVacuum (driver bh) in
          err ← removeManifests vacuum (manifestArr v);
          match err with
          | Some e => mret (Some e)
          | None => removeBlobs bh blobsService vacuum (markSet v)
          end
      end
  end.

(** [func (bh *housekeepingHandler) Recycle(w, r)] *)
Definition Recycle (bh : Context) (w : http.ResponseWriter)
    : M http.ResponseWriter :=
  _ ← log (LogDebug "Recycle");
  err ← runGCCycle bh;
  match err with
  | Some e =>
      mret (http.WriteBody e
              (http.WriteHeader http.StatusInternalServerError w))
  | None =>
      mret (http.WriteHeader http.StatusOK
              (http.HeaderSet "Content-Length" "0" w))
  end.



End Handler.

Arguments World : clear implicits.
Arguments Context : clear implicits.

End handlers.

(** ** registry/storage/registry.go *)

Module storage.

(** A value of another package held by reference (the storage driver, a
    context, a cache provider, a signing key, a compiled pattern, a
    descriptor-service factory): identified by a name. *)
Definition handle := string.

(** An address of the heap; Go's pointers to the structs below. *)
Definition loc := nat.

(** [type registryOptions struct] *)
Record registryOptions := mkRegistryOptions {
  repositoryBlobStoreEnabled : bool;
  globalBlobStoreEnabled : bool;
  redirect : bool
}.

(** [blobStatter], the fields the literals of this file set. *)
Record blobStatter := mkBlobStatter {
  st_driver : handle;
  st_options : loc;
  st_repositoryScope : string
}.

(** [blobStore]; [bs_statter] holds the interface value: a pointer to a
    [blobStatter] or to a cached statter. *)
Record blobStore := mkBlobStore {
  bs_driver : handle;
  bs_statter : loc;
  bs_options : loc;
  bs_repositoryScope : string
}.

(** [blobServer]; [srv_pathFn] is the method value [bs.path], kept as
    the blob store it is bound to. *)
Record blobServer := mkBlobServer {
  srv_driver : handle;
  srv_statter : loc;
  srv_pathFn : loc;
  srv_options : loc
}.

(** The value of [cache.NewCachedBlobStatter(provider, backend)]. *)
Record cachedBlobStatter := mkCachedBlobStatter {
  cbs_cache : handle;
  cbs_backend : loc
}.

(** [type manifestURLs struct] *)
Record manifestURLs := mkManifestURLs {
  allow : option handle;
  deny : option handle
}.

(** [type registry struct] *)
Record registry := mkRegistry {
  globalBlobStore : loc;
  globalBlobServer : loc;
  globalStatter : loc;
  globalBlobDescriptorCacheProvider : option handle;
  options : loc;
  deleteEnabled : bool;
  schema1Enabled : bool;
  resumableDigestEnabled : bool;
  schema1SigningKey : option handle;
  blobDescriptorServiceFactory : option handle;
  manifestURLs_ : manifestURLs;
  driver : handle
}.

Inductive object :=
| ORegistryOptions (o : registryOptions)
| OBlobStatter (s : blobStatter)
| OBlobStore (s : blobStore)
| OBlobServer (s : blobServer)
| OCachedBlobStatter (s : cachedBlobStatter)
| ORegistry (r : registry).

(** The heap: the object at address [l] is the [l]-th element. *)
Abbreviation heap := (list object).

(** Computations over the heap.  [None] is a dereference of an address
    that holds no object of the expected type, where Go panics. *)
Definition H (A : Type) : Type := heap → option (A * heap).

#[global] Instance H_ret : MRet H := λ A a h, Some (a, h).
#[global] Instance H_bind : MBind H :=
  λ A B f m h, match m h with
               | Some (a, h') => f a h'
               | None => None
               end.

Definition panic {A} : H A := λ _, None.

(** [&T{...}]: a new object at the next free address. *)
Definition new (o : object) : H loc := λ h, Some (length h, h ++ [o]).

Definition load (l : loc) : H object :=
  λ h, match h !! l with
       | Some o => Some (o, h)
       | None => None
       end.

Definition store (l : loc) (o : object) : H unit :=
  λ h, match h !! l with
       | Some _ => Some (tt, <[l := o]> h)
       | None => None
       end.

Definition getOptions (l : loc) : H registryOptions :=
  o ← load l; match o with ORegistryOptions x => mret x | _ => panic end.
Definition getBlobStore (l : loc) : H blobStore :=
  o ← load l; match o with OBlobStore x => mret x | _ => panic end.
Definition getBlobServer (l : loc) : H blobServer :=
  o ← load l; match o with OBlobServer x => mret x | _ => panic end.
Definition getRegistry (l : loc) : H registry :=
  o ← load l; match o with ORegistry x => mret x | _ => panic end.

(** [type RegistryOption func( *registry) error] *)
Definition RegistryOption : Type := loc → H (option error).

(** [func EnableRedirect(registry *registry) error] *)
Definition EnableRedirect : RegistryOption := λ registry,
  r ← getRegistry registry;
  o ← getOptions (options r);
  _ ← store (options r)
        (ORegistryOptions
           {| repositoryBlobStoreEnabled := repositoryBlobStoreEnabled o;
              globalBlobStoreEnabled := globalBlobStoreEnabled o;
              redirect := true |});
  mret None.

(** [func EnableDelete(registry *registry) error] *)
Definition EnableDelete : RegistryOption := λ registry,
  r ← getRegistry registry;
  _ ← store registry
        (ORegistry
           {| globalBlobStore := globalBlobStore r;
              globalBlobServer := globalBlobServer r;
              globalStatter := globalStatter r;
              globalBlobDescriptorCacheProvider :=
                globalBlobDescriptorCacheProvider r;
              options := options r;
              deleteEnabled := true;
              schema1Enabled := schema1Enabled r;
              resumableDigestEnabled := resumableDigestEnabled r;
              schema1SigningKey := schema1SigningKey r;
              blobDescriptorServiceFactory := blobDescriptorServiceFactory r;
              manifestURLs_ := manifestURLs_ r;
              driver := driver r |});
  mret None.

(** [func EnableRepositoryBlobsStorage(registry *registry) error] *)
Definition EnableRepositoryBlobsStorage : RegistryOption := λ registry,
  r ← getRegistry registry;
  o ← getOptions (options r);
  _ ← store (options r)
        (ORegistryOptions
           {| repositoryBlobStoreEnabled := true;
              globalBlobStoreEnabled := globalBlobStoreEnabled o;
              redirect := redirect o |});
  mret None.

(** [func DisableGlobalBlobsStorage(registry *registry) error] *)
Definition DisableGlobalBlobsStorage : RegistryOption := λ registry,
  r ← getRegistry registry;
  o ← getOptions (options r);
  _ ← store (options r)
        (ORegistryOptions
           {| repositoryBlobStoreEnabled := repositoryBlobStoreEnabled o;
              globalBlobStoreEnabled := false;
              redirect := redirect o |});
  mret None.

(** [func EnableSchema1(registry *registry) error] *)
Definition EnableSchema1 : RegistryOption := λ registry,
  r ← getRegistry registry;
  _ ← store registry
        (ORegistry
           {| globalBlobStore := globalBlobStore r;
              globalBlobServer := globalBlobServer r;
              globalStatter := globalStatter r;
              globalBlobDescriptorCacheProvider :=
                globalBlobDescriptorCacheProvider r;
              options := options r;
              deleteEnabled := deleteEnabled r;
              schema1Enabled := true;
              resumableDigestEnabled := resumableDigestEnabled r;
              schema1SigningKey := schema1SigningKey r;
              blobDescriptorServiceFactory := blobDescriptorServiceFactory r;
              manifestURLs_ := manifestURLs_ r;
              driver := driver r |});
  mret None.

(** [func DisableDigestResumption(registry *registry) error] *)
Definition DisableDigestResumption : RegistryOption := λ registry,
  r ← getRegistry registry;
  _ ← store registry
        (ORegistry
           {| globalBlobStore := globalBlobStore r;
              globalBlobServer := globalBlobServer r;
              globalStatter := globalStatter r;
              globalBlobDescriptorCacheProvider :=
                globalBlobDescriptorCacheProvider r;
              options := options r;
              deleteEnabled := deleteEnabled r;
              schema1Enabled := schema1Enabled r;
              resumableDigestEnabled := false;
              schema1SigningKey := schema1SigningKey r;
              blobDescriptorServiceFactory := blobDescriptorServiceFactory r;
              manifestURLs_ := manifestURLs_ r;
              driver := driver r |});
  mret None.

(** [func ManifestURLsAllowRegexp(r *regexp.Regexp) RegistryOption] *)
Definition ManifestURLsAllowRegexp (re : option handle) : RegistryOption :=
  λ registry,
  r ← getRegistry registry;
  _ ← store registry
        (ORegistry
           {| globalBlobStore := globalBlobStore r;
              globalBlobServer := globalBlobServer r;
              globalStatter := globalStatter r;
              globalBlobDescriptorCacheProvider :=
                globalBlobDescriptorCacheProvider r;
              options := options r;
              deleteEnabled := deleteEnabled r;
              schema1Enabled := schema1Enabled r;
              resumableDigestEnabled := resumableDigestEnabled r;
              schema1SigningKey := schema1SigningKey r;
              blobDescriptorServiceFactory := blobDescriptorServiceFactory r;
              manifestURLs_ :=
                {| allow := re; deny := deny (manifestURLs_ r) |};
              driver := driver r |});
  mret None.

(** [func ManifestURLsDenyRegexp(r *regexp.Regexp) RegistryOption] *)
Definition ManifestURLsDenyRegexp (re : option handle) : RegistryOption :=
  λ registry,
  r ← getRegistry registry;
  _ ← store registry
        (ORegistry
           {| globalBlobStore := globalBlobStore r;
              globalBlobServer := globalBlobServer r;
              globalStatter := globalStatter r;
              globalBlobDescriptorCacheProvider :=
                globalBlobDescriptorCacheProvider r;
              options := options r;
              deleteEnabled := deleteEnabled r;
              schema1Enabled := schema1Enabled r;
              resumableDigestEnabled := resumableDigestEnabled r;
              schema1SigningKey := schema1SigningKey r;
              blobDescriptorServiceFactory := blobDescriptorServiceFactory r;
              manifestURLs_ :=
                {| allow := allow (manifestURLs_ r); deny := re |};
              driver := driver r |});
  mret None.

(** [func Schema1SigningKey(key libtrust.PrivateKey) RegistryOption] *)
Definition Schema1SigningKey (key : option handle) : RegistryOption :=
  λ registry,
  r ← getRegistry registry;
  _ ← store registry
        (ORegistry
           {| globalBlobStore := globalBlobStore r;
              globalBlobServer := globalBlobServer r;
              globalStatter := globalStatter r;
              globalBlobDescriptorCacheProvider :=
                globalBlobDescriptorCacheProvider r;
              options := options r;
              deleteEnabled := deleteEnabled r;
              schema1Enabled := schema1Enabled r;
              resumableDigestEnabled := resumableDigestEnabled r;
              schema1SigningKey := key;
              blobDescriptorServiceFactory := blobDescriptorServiceFactory r;
              manifestURLs_ := manifestURLs_ r;
              driver := driver r |});
  mret None.

(** [func BlobDescriptorServiceFactory(factory) RegistryOption] *)
Definition BlobDescriptorServiceFactory (factory : option handle)
    : RegistryOption := λ registry,
  r ← getRegistry registry;
  _ ← store registry
        (ORegistry
           {| globalBlobStore := globalBlobStore r;
              globalBlobServer := globalBlobServer r;
              globalStatter := globalStatter r;
              globalBlobDescriptorCacheProvider :=
                globalBlobDescriptorCacheProvider r;
              options := options r;
              deleteEnabled := deleteEnabled r;
              schema1Enabled := schema1Enabled r;
              resumableDigestEnabled := resumableDigestEnabled r;
              schema1SigningKey := schema1SigningKey r;
              blobDescriptorServiceFactory := factory;
              manifestURLs_ := manifestURLs_ r;
              driver := driver r |});
  mret None.

(** [func BlobDescriptorCacheProvider(provider) RegistryOption] *)
Definition BlobDescriptorCacheProvider
    (blobDescriptorCacheProvider : option handle) : RegistryOption :=
  λ registry,
  match blobDescriptorCacheProvider with
  | Some provider =>
      r ← getRegistry registry;
      statter ← new (OCachedBlobStatter
                       {| cbs_cache := provider;
                          cbs_backend := globalStatter r |});
      bs ← getBlobStore (globalBlobStore r);
      _ ← store (globalBlobStore r)
            (OBlobStore {| bs_driver := bs_driver bs;
                           bs_statter := statter;
                           bs_options := bs_options bs;
                           bs_repositoryScope := bs_repositoryScope bs |});
      srv ← getBlobServer (globalBlobServer r);
      _ ← store (globalBlobServer r)
            (OBlobServer {| srv_driver := srv_driver srv;
                            srv_statter := statter;
                            srv_pathFn := srv_pathFn srv;
                            srv_options := srv_options srv |});
      _ ← store registry
            (ORegistry
               {| globalBlobStore := globalBlobStore r;
                  globalBlobServer := globalBlobServer r;
                  globalStatter := globalStatter r;
                  globalBlobDescriptorCacheProvider := Some provider;
                  options := options r;
                  deleteEnabled := deleteEnabled r;
                  schema1Enabled := schema1Enabled r;
                  resumableDigestEnabled := resumableDigestEnabled r;
                  schema1SigningKey := schema1SigningKey r;
                  blobDescriptorServiceFactory :=
                    blobDescriptorServiceFactory r;
                  manifestURLs_ := manifestURLs_ r;
                  driver := driver r |});
      mret None
  | None => mret None
  end.

(** registry.go:175-181, the loop over the supplied options and the
    final return. *)
Fixpoint applyOptions (opts : list RegistryOption) (registry : loc)
    : H (result loc) :=
  match opts with
  | [] => mret (Ok registry)
  | opt :: rest =>
      err ← opt registry;
      match err with
      | Some e => mret (Err e)
      | None => applyOptions rest registry
      end
  end.

(** registry.go:145-173, the objects built before any option runs. *)
Definition newRegistryObjects (driver : handle) : H loc :=
  registryOptions ← new (ORegistryOptions
                           {| repositoryBlobStoreEnabled := false;
                              globalBlobStoreEnabled := true;
                              redirect := false |});
  statter ← new (OBlobStatter {| st_driver := driver;
                                 st_options := registryOptions;
                                 st_repositoryScope := "" |});
  bs ← new (OBlobStore {| bs_driver := driver;
                          bs_statter := statter;
                          bs_options := registryOptions;
                          bs_repositoryScope := "" |});
  srv ← new (OBlobServer {| srv_driver := driver;
                            srv_statter := statter;
                            srv_pathFn := bs;
                            srv_options := registryOptions |});
  new (ORegistry
         {| globalBlobStore := bs;
            globalBlobServer := srv;
            globalStatter := statter;
            globalBlobDescriptorCacheProvider := None;
            options := registryOptions;
            deleteEnabled := false;
            schema1Enabled := false;
            resumableDigestEnabled := true;
            schema1SigningKey := None;
            blobDescriptorServiceFactory := None;
            manifestURLs_ := {| allow := None; deny := None |};
            driver := driver |}).

(** [func NewRegistry(ctx, driver, options ...RegistryOption)
      (distribution.Namespace, error)]; [Err] stands for [nil, err]. *)
Definition NewRegistry (ctx : handle) (driver : handle)
    (options : list RegistryOption) : H (result loc) :=
  registry ← newRegistryObjects driver;
  applyOptions options registry.

(** [type repository struct]; [name] is [name.Name()] of the
    [reference.Named] it holds, [registry_] the embedded [*registry]. *)
Record repository := mkRepository {
  registry_ : loc;
  ctx : handle;
  name : string;
  descriptorCache : option handle
}.

Inductive linkPathFunc := manifestRevisionLinkPath | blobLinkPath.

(** [type tagStore struct], as [Tags] fills it. *)
Record tagStore := mkTagStore {
  ts_repository : repository;
  ts_blobStore : loc
}.

Record linkedBlobStatter := mkLinkedBlobStatter {
  lst_blobStore : loc;
  lst_repository : repository;
  lst_linkPathFns : list linkPathFunc
}.

(** A [distribution.BlobDescriptorService] value built by [Manifests] or
    [Blobs]: the linked statter, possibly wrapped by
    [cache.NewCachedBlobStatter] and by the factory's
    [BlobAccessController]. *)
Inductive BlobDescriptorService :=
| LinkedBlobStatter (s : linkedBlobStatter)
| CachedBlobStatter (cache : handle) (backend : BlobDescriptorService)
| BlobAccessController (factory : handle) (svc : BlobDescriptorService).

(** [linkedBlobStore]; a field a literal leaves out is [None]. *)
Record linkedBlobStore := mkLinkedBlobStore {
  lbs_registry : option loc;
  lbs_blobStore : loc;
  lbs_blobServer : option loc;
  lbs_blobAccessController : BlobDescriptorService;
  lbs_repository : repository;
  lbs_ctx : handle;
  lbs_deleteEnabled : bool;
  lbs_resumableDigestEnabled : bool;
  lbs_linkPathFns : list linkPathFunc;
  lbs_linkDirectoryPathSpec : option string
}.

Record signedManifestHandler := mkSignedManifestHandler {
  smh_ctx : handle;
  smh_schema1SigningKey : option handle;
  smh_repository : repository;
  smh_blobStore : linkedBlobStore
}.

Inductive ManifestHandler :=
| SignedManifestHandler (h : signedManifestHandler)
| V1UnsupportedHandler (innerHandler : signedManifestHandler)
| Schema2ManifestHandler (c : handle) (r : repository)
    (blobStore : linkedBlobStore) (urls : manifestURLs)
| ManifestListHandler (c : handle) (r : repository)
    (blobStore : linkedBlobStore)
| OcischemaManifestHandler (c : handle) (r : repository)
    (blobStore : linkedBlobStore) (urls : manifestURLs).

Record manifestStore := mkManifestStore {
  ms_ctx : handle;
  ms_repository : repository;
  ms_blobStore : linkedBlobStore;
  ms_schema1Handler : ManifestHandler;
  ms_schema2Handler : ManifestHandler;
  ms_manifestListHandler : ManifestHandler;
  ms_ocischemaHandler : ManifestHandler
}.

(** [distribution.ManifestServiceOption], through its [Apply]. *)
Definition ManifestServiceOption : Type :=
  manifestStore → manifestStore * option error.

(** [func (reg *registry) Repository(ctx, canonicalName)].
    [RepositoryScoped] is the method of the cache provider. *)
Definition Repository (RepositoryScoped : handle → string → result handle)
    (reg : loc) (c : handle) (canonicalName : string)
    : H (result repository) :=
  r ← getRegistry reg;
  match globalBlobDescriptorCacheProvider r with
  | Some provider =>
      match RepositoryScoped provider canonicalName with
      | Err err => mret (Err err)
      | Ok cache =>
          mret (Ok {| registry_ := reg; ctx := c; name := canonicalName;
                      descriptorCache := Some cache |})
      end
  | None =>
      mret (Ok {| registry_ := reg; ctx := c; name := canonicalName;
                  descriptorCache := None |})
  end.

(** [func (reg *registry) GlobalBlobs() distribution.BlobEnumerator] *)
Definition GlobalBlobs (reg : loc) : H loc :=
  r ← getRegistry reg; mret (globalBlobStore r).

(** [func (reg *registry) GlobalBlobStatter() distribution.BlobStatter] *)
Definition GlobalBlobStatter (reg : loc) : H loc :=
  r ← getRegistry reg; mret (globalStatter r).

(** [func (repo *repository) scopedBlobStatter() *blobStatter] *)
Definition scopedBlobStatter (repo : repository) : H loc :=
  r ← getRegistry (registry_ repo);
  o ← getOptions (options r);
  if repositoryBlobStoreEnabled o then
    new (OBlobStatter {| st_driver := driver r;
                         st_options := options r;
                         st_repositoryScope := name repo |})
  else mret (globalStatter r).

(** [func (repo *repository) scopedBlobStore() *blobStore] *)
Definition scopedBlobStore (repo : repository) : H loc :=
  r ← getRegistry (registry_ repo);
  o ← getOptions (options r);
  if repositoryBlobStoreEnabled o then
    statter ← scopedBlobStatter repo;
    new (OBlobStore {| bs_driver := driver r;
                       bs_statter := statter;
                       bs_options := options r;
                       bs_repositoryScope := name repo |})
  else mret (globalBlobStore r).

(** [func (repo *repository) scopedBlobServer() *blobServer] *)
Definition scopedBlobServer (repo : repository) : H loc :=
  r ← getRegistry (registry_ repo);
  o ← getOptions (options r);
  if repositoryBlobStoreEnabled o then
    bs ← scopedBlobStore repo;
    s ← getBlobStore bs;
    new (OBlobServer {| srv_driver := driver r;
                        srv_statter := bs_statter s;
                        srv_pathFn := bs;
                        srv_options := options r |})
  else mret (globalBlobServer r).

(** [func (repo *repository) Named() reference.Named] *)
Definition Named (repo : repository) : string := name repo.

(** [func (repo *repository) Tags(ctx) distribution.TagService] *)
Definition Tags (repo : repository) (c : handle) : H tagStore :=
  bs ← scopedBlobStore repo;
  mret {| ts_repository := repo; ts_blobStore := bs |}.

(** registry.go:363-370, the loop applying the service options. *)
Fixpoint applyServiceOptions (opts : list ManifestServiceOption)
    (ms : manifestStore) : result manifestStore :=
  match opts with
  | [] => Ok ms
  | opt :: rest =>
      match opt ms with
      | (_, Some err) => Err err
      | (ms', None) => applyServiceOptions rest ms'
      end
  end.

(** [func (repo *repository) Manifests(ctx, options ...)] *)
Definition Manifests (repo : repository) (c : handle)
    (opts : list ManifestServiceOption) : H (result manifestStore) :=
  let manifestLinkPathFns := [manifestRevisionLinkPath; blobLinkPath] in
  let manifestDirectoryPathSpec := name repo in
  bs ← scopedBlobStore repo;
  r ← getRegistry (registry_ repo);
  let statter := LinkedBlobStatter
                   {| lst_blobStore := bs; lst_repository := repo;
                      lst_linkPathFns := manifestLinkPathFns |} in
  let statter := match blobDescriptorServiceFactory r with
                 | Some factory => BlobAccessController factory statter
                 | None => statter
                 end in
  let blobStore :=
    {| lbs_registry := None;
       lbs_blobStore := bs;
       lbs_blobServer := None;
       lbs_blobAccessController := statter;
       lbs_repository := repo;
       lbs_ctx := c;
       lbs_deleteEnabled := deleteEnabled r;
       lbs_resumableDigestEnabled := false;
       lbs_linkPathFns := manifestLinkPathFns;
       lbs_linkDirectoryPathSpec := Some manifestDirectoryPathSpec |} in
  let signed :=
    {| smh_ctx := c; smh_schema1SigningKey := schema1SigningKey r;
       smh_repository := repo; smh_blobStore := blobStore |} in
  let v1Handler := if schema1Enabled r then SignedManifestHandler signed
                   else V1UnsupportedHandler signed in
  let ms :=
    {| ms_ctx := c;
       ms_repository := repo;
       ms_blobStore := blobStore;
       ms_schema1Handler := v1Handler;
       ms_schema2Handler :=
         Schema2ManifestHandler c repo blobStore (manifestURLs_ r);
       ms_manifestListHandler := ManifestListHandler c repo blobStore;
       ms_ocischemaHandler :=
         OcischemaManifestHandler c repo blobStore (manifestURLs_ r) |} in
  mret (applyServiceOptions opts ms).

(** [func (repo *repository) Blobs(ctx) distribution.BlobStore] *)
Definition Blobs (repo : repository) (c : handle) : H linkedBlobStore :=
  bs ← scopedBlobStore repo;
  blobServer ← scopedBlobServer repo;
  r ← getRegistry (registry_ repo);
  let statter := LinkedBlobStatter
                   {| lst_blobStore := bs; lst_repository := repo;
                      lst_linkPathFns := [blobLinkPath] |} in
  let statter := match descriptorCache repo with
                 | Some cache => CachedBlobStatter cache statter
                 | None => statter
                 end in
  let statter := match blobDescriptorServiceFactory r with
                 | Some factory => BlobAccessController factory statter
                 | None => statter
                 end in
  mret {| lbs_registry := Some (registry_ repo);
          lbs_blobStore := bs;
          lbs_blobServer := Some blobServer;
          lbs_blobAccessController := statter;
          lbs_repository := repo;
          lbs_ctx := c;
          lbs_deleteEnabled := deleteEnabled r;
          lbs_resumableDigestEnabled := resumableDigestEnabled r;
          lbs_linkPathFns := [blobLinkPath];
          lbs_linkDirectoryPathSpec := None |}.

End storage.

(** ** An in-memory registry, for running the handler on concrete inputs *)

Module fixture.
Import distribution handlers.

(** The persisted state of one repository: its manifest revision links
    and the blobs stored under it. *)
Record Disk := mkDisk {
  revisions : list Digest;
  layers : list Digest
}.

Fixpoint assoc {A} (k : string) (l : list (string * A)) : option A :=
  match l with
  | [] => None
  | (k', a) :: rest => if String.eqb k k' then Some a else assoc k rest
  end.

(** Tags from a table of (tag, current digest). *)
Definition memTags (table : list (string * Digest)) : TagService Disk :=
  {| Lookup := λ _ desc,
       Ok (fst <$> filter (λ p, p.2 = Digest_ desc) table);
     All := λ _, Ok (fst <$> table) |}.

(** Tags that cannot be read. *)
Definition brokenTags (err : error) : TagService Disk :=
  {| Lookup := λ _ _, Err err; All := λ _, Err err |}.

(** Manifests from a table of (digest, referenced digests); the
    enumeration walks the revision links. *)
Definition memManifests (content : list (Digest * list Digest))
    : ManifestService Disk :=
  {| Get := λ _ dgst,
       match assoc dgst content with
       | Some refs => Ok {| References := mkDescriptor "" 0 <$> refs |}
       | None => Err "manifest unknown"
       end;
     AsEnumerator := Some (λ st, Ok <$> revisions st) |}.

Definition memBlobs (scoped : bool) : BlobsEnumerator Disk :=
  {| IsScopped := scoped; Blobs := λ st, Ok <$> layers st |}.

Definition memVacuum : Vacuum Disk :=
  {| RemoveManifest := λ _ dgst _ st,
       ({| revisions := filter (λ d, d ≠ dgst) (revisions st);
           layers := layers st |}, None);
     RemoveRepositoryBlob := λ _ dgst st,
       ({| revisions := revisions st;
           layers := filter (λ d, d ≠ dgst) (layers st) |}, None) |}.

(** A vacuum whose blob removal fails and removes nothing. *)
Definition readOnlyBlobsVacuum : Vacuum Disk :=
  {| RemoveManifest := RemoveManifest memVacuum;
     RemoveRepositoryBlob := λ _ _ st, (st, Some "permission denied") |}.

(** A vacuum that cannot remove anything. *)
Definition readOnlyVacuum : Vacuum Disk :=
  {| RemoveManifest := λ _ _ _ st, (st, Some "permission denied");
     RemoveRepositoryBlob := λ _ _ st, (st, Some "permission denied") |}.

Definition memRepository (name : string) (tags : TagService Disk)
    (content : list (Digest * list Digest)) (scoped : bool)
    : Repository Disk :=
  {| Name := name;
     Tags := tags;
     Manifests := Ok (memManifests content);
     RepositoryBlobsEnumerator := Some (memBlobs scoped) |}.

Definition memContext (repo : Repository Disk) (vacuum : Vacuum Disk)
    : Context Disk :=
  {| Repository_ := repo; readOnly := false;
     driver := {| NewVacuum := vacuum |} |}.

(** Manifest A, tagged latest, references b1 and b2; manifest B,
    untagged, references b2 and b3. *)
Definition appContent : list (Digest * list Digest) :=
  [ ("sha256:A", ["sha256:b1"; "sha256:b2"]);
    ("sha256:B", ["sha256:b2"; "sha256:b3"]) ].
Definition appDisk : Disk :=
  {| revisions := ["sha256:A"; "sha256:B"];
     layers := ["sha256:A"; "sha256:B"; "sha256:b1"; "sha256:b2"; "sha256:b3"] |}.
Definition appRepo (scoped : bool) : Repository Disk :=
  memRepository "library/app" (memTags [("latest", "sha256:A")])
    appContent scoped.

Definition appCtx : Context Disk := memContext (appRepo true) memVacuum.

(** The same repository on global blob storage. *)
Definition appGlobalCtx : Context Disk :=
  memContext (appRepo false) memVacuum.

(** The same repository, its blobs not removable. *)
Definition appStuckCtx : Context Disk :=
  memContext (appRepo true) readOnlyBlobsVacuum.

(** The same repository on storage that cannot be written. *)
Definition appReadOnlyCtx : Context Disk :=
  memContext (appRepo true) readOnlyVacuum.


(** The same repository, its tags not readable. *)
Definition appNoTagsCtx : Context Disk :=
  memContext
    (memRepository "library/app" (brokenTags "connection reset")
       appContent true)
    memVacuum.

(** Manifest list L, tagged latest, references the image manifest M;
    M has no tag of its own and references the layer c1. *)
Definition listContent : list (Digest * list Digest) :=
  [ ("sha256:L", ["sha256:M"]); ("sha256:M", ["sha256:c1"]) ].
Definition listDisk : Disk :=
  {| revisions := ["sha256:L"; "sha256:M"];
     layers := ["sha256:L"; "sha256:M"; "sha256:c1"] |}.
Definition listRepo : Repository Disk :=
  memRepository "library/multi" (memTags [("latest", "sha256:L")])
    listContent true.

Definition listCtx : Context Disk := memContext listRepo memVacuum.

(** A second repository of the namespace, with one tagged manifest. *)
Definition otherRepo : Repository Disk :=
  {| Name := "library/other";
     Tags := memTags [("stable", "sha256:O")];
     Manifests :=
       Ok {| Get := λ _ _, Ok {| References := [] |};
             AsEnumerator := Some (λ _, [Ok "sha256:O"]) |};
     RepositoryBlobsEnumerator := None |}.

End fixture.

(** ** Vocabulary of the properties of the housekeeping run *)

Module gc.
Import distribution handlers.

(** The calls that delete something. *)
Definition is_removal (e : event) : bool :=
  match e with
  | CallRemoveManifest _ _ _ | CallRemoveRepositoryBlob _ _ => true
  | _ => false
  end.

(** What the mark phase does: reading tags and manifests, printing. *)
Definition is_mark_event (e : event) : bool :=
  match e with
  | Stdout _ | CallLookup _ | CallAll | CallGet _ | CallEnumerateManifests =>
      true
  | _ => false
  end.

(** Events of the mark phase other than the tag lookup that opens the
    handling of a manifest. *)
Definition is_mark_detail (e : event) : bool :=
  match e with
  | Stdout _ | CallAll | CallGet _ => true
  | _ => false
  end.


(** The call the sweep makes for a pending deletion. *)
Definition removalOf (obj : ManifestDel) : event :=
  CallRemoveManifest (Name_ obj) (Digest__ obj) (Tags_ obj).

(** Some call of the trace deletes the digest, as a manifest or as a
    repository blob. *)
Definition deleted (D : Digest) (tr : list event) : Prop :=
  (∃ name tags, CallRemoveManifest name D tags ∈ tr)
  ∨ (∃ name, CallRemoveRepositoryBlob name D ∈ tr).

(** The digests whose tags the trace looked up, in order. *)
Definition lookedUp (tr : list event) : list Digest :=
  omap (λ e, match e with
             | CallLookup desc => Some (Digest_ desc)
             | _ => None
             end) tr.

(** The digests an enumeration hands to its ingester when the
    ingester never fails: those before the first failure of the walk. *)
Fixpoint walked (items : list (result Digest)) : list Digest :=
  match items with
  | Ok dgst :: rest => dgst :: walked rest
  | _ => []
  end.

(** The first failure of the walk itself. *)
Fixpoint walkError (items : list (result Digest)) : option error :=
  match items with
  | [] => None
  | Ok _ :: rest => walkError rest
  | Err err :: _ => Some err
  end.

(** The empty slice and map [runGCCycle] starts the mark phase with. *)
Definition noMarks : MarkVars := {| manifestArr := []; markSet := ∅ |}.

Section Vocabulary.
Context {St : Type}.

(** At least one tag currently points at [M]. *)
Definition tagged (repo : Repository St) (st : St) (M : Digest) : Prop :=
  ∃ tag tags, Lookup (Tags repo) st (digestOnly M) = Ok (tag :: tags).

(** [D] is the digest of a descriptor of [M]'s [References()]. *)
Definition references (service : ManifestService St) (st : St)
    (M D : Digest) : Prop :=
  ∃ manifest desc, Get service st M = Ok manifest
                   ∧ desc ∈ References manifest ∧ Digest_ desc = D.

(** The digests one tagged manifest puts into the mark set. *)
Definition marksOf (repo : Repository St) (service : ManifestService St)
    (st : St) (M : Digest) : gset Digest :=
  match Lookup (Tags repo) st (digestOnly M) with
  | Ok (_ :: _) =>
      match Get service st M with
      | Ok manifest =>
          list_to_set (Digest_ <$> References manifest) ∪ {[ M ]}
      | Err _ => {[ M ]}
      end
  | _ => ∅
  end.

(** The pending deletion an untagged manifest is recorded as. *)
Definition pendingOf (repo : Repository St) (st : St) (M : Digest)
    : list ManifestDel :=
  match Lookup (Tags repo) st (digestOnly M), All (Tags repo) st with
  | Ok [], Ok allTags =>
      [ {| Name_ := Name repo; Digest__ := M; Tags_ := allTags |} ]
  | _, _ => []
  end.

(** The ingester succeeds on [M]: every read it makes succeeds. *)
Definition readable (repo : Repository St) (service : ManifestService St)
    (st : St) (M : Digest) : Prop :=
  match Lookup (Tags repo) st (digestOnly M) with
  | Ok [] => ∃ allTags, All (Tags repo) st = Ok allTags
  | Ok (_ :: _) => ∃ manifest, Get service st M = Ok manifest
  | Err _ => False
  end.

(** The design document's reachability soundness, as it states it:
    whatever a tagged manifest reaches through references, in any
    number of steps, survives the run. *)
Definition reachability_sound (bh : Context St) (st : St) : Prop :=
  ∀ service enum M D,
    Manifests (Repository_ bh) = Ok service →
    AsEnumerator service = Some enum →
    Ok M ∈ enum st →
    tagged (Repository_ bh) st M →
    rtc (references service st) M D →
    ¬ deleted D (trace (runGCCycle bh (start st)).2).

(** The design document's sweep, as it states it: once the pending
    manifests are removed, every blob the repository's enumerator
    hands out, scoped or global, that the mark phase left unmarked
    is removed. *)
Definition sweeps_all_blobs_in_scope (bh : Context St) (st : St) : Prop :=
  ∀ service v w1 w2 bs D,
    Manifests (Repository_ bh) = Ok service →
    markAllManifests bh service noMarks (start st) = ((v, None), w1) →
    removeManifests (NewVacuum (driver bh)) (manifestArr v) w1
      = (None, w2) →
    RepositoryBlobsEnumerator (Repository_ bh) = Some bs →
    D ∈ walked (Blobs bs (storage w2)) →
    D ∉ markSet v →
    CallRemoveRepositoryBlob (Name (Repository_ bh)) D
      ∈ trace (runGCCycle bh (start st)).2.

(** The design document's mark phase, as it states it: a successful
    pass visits the manifests of every repository of the namespace. *)
Definition marks_whole_namespace (namespace : list (Repository St))
    (bh : Context St) (st : St) : Prop :=
  ∀ R service enum D,
    R ∈ namespace →
    Manifests R = Ok service →
    AsEnumerator service = Some enum →
    Ok D ∈ enum st →
    (runGCCycle bh (start st)).1 = None →
    D ∈ lookedUp (trace (runGCCycle bh (start st)).2).



End Vocabulary.

End gc.

(** ** Vocabulary of the properties of the registry heap *)

Module registry_spec.
Import storage.

(** [l] is a blob store built on the way from [h] to [h']: it and its
    statter are at addresses [h] did not have, and both are scoped to
    [scope]. *)
Definition fresh_scoped_store (h h' : heap) (l : loc) (scope : string)
    : Prop :=
  h !! l = None
  ∧ h `prefix_of` h'
  ∧ ∃ s statter,
      h' !! l = Some (OBlobStore s)
      ∧ bs_repositoryScope s = scope
      ∧ h !! bs_statter s = None
      ∧ h' !! bs_statter s = Some (OBlobStatter statter)
      ∧ st_repositoryScope statter = scope.

(** [l] is a blob server built on the way from [h] to [h'], serving
    through a statter and the path function of a store that are
    themselves new and scoped to [scope]. *)
Definition fresh_scoped_server (h h' : heap) (l : loc) (scope : string)
    : Prop :=
  h !! l = None
  ∧ ∃ srv,
      h' !! l = Some (OBlobServer srv)
      ∧ fresh_scoped_store h h' (srv_pathFn srv) scope
      ∧ ∃ s, h' !! srv_pathFn srv = Some (OBlobStore s)
             ∧ srv_statter srv = bs_statter s.

(** The heap [NewRegistry] leaves, started on the empty heap. *)
Definition heapOf (opts : list RegistryOption) : heap :=
  match NewRegistry "ctx" "inmemory" opts [] with
  | Some (_, h) => h
  | None => []
  end.

(** Two repositories of the registry [NewRegistry] built at address 4. *)
Definition repoApp : repository :=
  {| registry_ := 4; ctx := "ctx"; name := "library/app";
     descriptorCache := None |}.
Definition repoOther : repository :=
  {| registry_ := 4; ctx := "ctx"; name := "library/other";
     descriptorCache := None |}.
(** The linked statter at the bottom of a descriptor service, under
    the cache and the access controller that may wrap it. *)
Fixpoint linkedStatterOf (svc : BlobDescriptorService) : linkedBlobStatter :=
  match svc with
  | LinkedBlobStatter s => s
  | CachedBlobStatter _ backend => linkedStatterOf backend
  | BlobAccessController _ inner => linkedStatterOf inner
  end.

(** The linked blob store a manifest handler works on. *)
Definition handlerStore (handler : ManifestHandler) : linkedBlobStore :=
  match handler with
  | SignedManifestHandler s | V1UnsupportedHandler s => smh_blobStore s
  | Schema2ManifestHandler _ _ blobStore _
  | ManifestListHandler _ _ blobStore
  | OcischemaManifestHandler _ _ blobStore _ => blobStore
  end.

(** The linked blob stores of a manifest service: its own and those of
    its four handlers. *)
Definition storesOf (ms : manifestStore) : list linkedBlobStore :=
  [ ms_blobStore ms;
    handlerStore (ms_schema1Handler ms);
    handlerStore (ms_schema2Handler ms);
    handlerStore (ms_manifestListHandler ms);
    handlerStore (ms_ocischemaHandler ms) ].

(** The linked blob store works on the blob store [bs] for the
    repository [repo], and so does the linked statter it checks
    access through. *)
Definition works_on (repo : repository) (bs : loc)
    (fns : list linkPathFunc) (s : linkedBlobStore) : Prop :=
  lbs_blobStore s = bs
  ∧ lbs_repository s = repo
  ∧ linkedStatterOf (lbs_blobAccessController s)
      = {| lst_blobStore := bs; lst_repository := repo;
           lst_linkPathFns := fns |}.


End registry_spec.

(** ** Vocabulary of the calls of a housekeeping run *)

Module gc_calls.
Import distribution handlers.

(** The pending deletions [RemoveManifest] was called on, in order. *)
Definition manifestRemovals (tr : list event) : list ManifestDel :=
  omap (λ e, match e with
             | CallRemoveManifest name dgst tags =>
                 Some {| Name_ := name; Digest__ := dgst; Tags_ := tags |}
             | _ => None
             end) tr.

(** The digests [Get] was called on, in order. *)
Definition fetched (tr : list event) : list Digest :=
  omap (λ e, match e with CallGet dgst => Some dgst | _ => None end) tr.

(** How often [All] was called. *)
Definition listings (tr : list event) : nat :=
  length (omap (λ e, match e with CallAll => Some tt | _ => None end) tr).

Section Calls.
Context {St : Type}.

(** The tag lookup on [M] succeeds with at least one tag. *)
Definition hasTags (repo : Repository St) (st : St) (M : Digest) : bool :=
  match Lookup (Tags repo) st (digestOnly M) with
  | Ok (_ :: _) => true
  | _ => false
  end.

(** The tag lookup on [M] succeeds with no tag. *)
Definition hasNoTags (repo : Repository St) (st : St) (M : Digest) : bool :=
  match Lookup (Tags repo) st (digestOnly M) with
  | Ok [] => true
  | _ => false
  end.
End Calls.
End gc_calls.

(** ** More in-memory repositories *)

Module fixture_gc.
Import distribution handlers fixture.

(** The manifests of [memManifests], enumerated from the newest
    revision link to the oldest. *)
Definition reversedManifests (content : list (Digest * list Digest))
    : ManifestService Disk :=
  {| Get := Get (memManifests content);
     AsEnumerator := Some (λ st, Ok <$> reverse (revisions st)) |}.

(** The application repository after a collection: manifest A, tagged
    latest, and the two blobs it references. *)
Definition cleanDisk : Disk :=
  {| revisions := ["sha256:A"];
     layers := ["sha256:A"; "sha256:b1"; "sha256:b2"] |}.

(** A repository whose manifest service cannot be constructed. *)
Definition brokenRepo : Repository Disk :=
  {| Name := "library/broken";
     Tags := memTags [];
     Manifests := Err "driver unavailable";
     RepositoryBlobsEnumerator := Some (memBlobs true) |}.
Definition brokenCtx : Context Disk := memContext brokenRepo memVacuum.

End fixture_gc.

(** ** Vocabulary of the configuration of a registry *)

Module registry_conf.
Import storage.

(** The functional options this file defines, by name. *)
Inductive namedOption :=
| OptEnableRedirect
| OptEnableDelete
| OptEnableRepositoryBlobsStorage
| OptDisableGlobalBlobsStorage
| OptEnableSchema1
| OptDisableDigestResumption
| OptManifestURLsAllowRegexp (re : option handle)
| OptManifestURLsDenyRegexp (re : option handle)
| OptSchema1SigningKey (key : option handle)
| OptBlobDescriptorServiceFactory (factory : option handle)
| OptBlobDescriptorCacheProvider (provider : option handle).

Definition optionOf (opt : namedOption) : RegistryOption :=
  match opt with
  | OptEnableRedirect => EnableRedirect
  | OptEnableDelete => EnableDelete
  | OptEnableRepositoryBlobsStorage => EnableRepositoryBlobsStorage
  | OptDisableGlobalBlobsStorage => DisableGlobalBlobsStorage
  | OptEnableSchema1 => EnableSchema1
  | OptDisableDigestResumption => DisableDigestResumption
  | OptManifestURLsAllowRegexp re => ManifestURLsAllowRegexp re
  | OptManifestURLsDenyRegexp re => ManifestURLsDenyRegexp re
  | OptSchema1SigningKey key => Schema1SigningKey key
  | OptBlobDescriptorServiceFactory factory =>
      BlobDescriptorServiceFactory factory
  | OptBlobDescriptorCacheProvider provider =>
      BlobDescriptorCacheProvider provider
  end.

(** What a registry is configured to, read off its two objects. *)
Record Config := mkConfig {
  c_redirect : bool;
  c_repositoryBlobStore : bool;
  c_globalBlobStore : bool;
  c_delete : bool;
  c_schema1 : bool;
  c_resumableDigest : bool;
  c_allow : option handle;
  c_deny : option handle;
  c_signingKey : option handle;
  c_factory : option handle;
  c_cacheProvider : option handle
}.

Definition readConfig (r : registry) (o : registryOptions) : Config :=
  {| c_redirect := redirect o;
     c_repositoryBlobStore := repositoryBlobStoreEnabled o;
     c_globalBlobStore := globalBlobStoreEnabled o;
     c_delete := deleteEnabled r;
     c_schema1 := schema1Enabled r;
     c_resumableDigest := resumableDigestEnabled r;
     c_allow := allow (manifestURLs_ r);
     c_deny := deny (manifestURLs_ r);
     c_signingKey := schema1SigningKey r;
     c_factory := blobDescriptorServiceFactory r;
     c_cacheProvider := globalBlobDescriptorCacheProvider r |}.

Definition configOf (h : heap) (reg : loc) : option Config :=
  match h !! reg with
  | Some (ORegistry r) =>
      match h !! options r with
      | Some (ORegistryOptions o) => Some (readConfig r o)
      | _ => None
      end
  | _ => None
  end.

#[global] Instance namedOption_eq_dec : EqDecision namedOption.
Proof. solve_decision. Defined.

(** The value the latest option that [pick] applies to gives, if any. *)
Definition lastOf {A} (pick : namedOption → option A) (opts : list namedOption)
    : option A :=
  last (omap pick opts).

Definition pickAllow (opt : namedOption) : option (option handle) :=
  match opt with OptManifestURLsAllowRegexp re => Some re | _ => None end.
Definition pickDeny (opt : namedOption) : option (option handle) :=
  match opt with OptManifestURLsDenyRegexp re => Some re | _ => None end.
Definition pickSigningKey (opt : namedOption) : option (option handle) :=
  match opt with OptSchema1SigningKey key => Some key | _ => None end.
Definition pickFactory (opt : namedOption) : option (option handle) :=
  match opt with OptBlobDescriptorServiceFactory f => Some f | _ => None end.
(** A nil cache provider is passed over. *)
Definition pickCacheProvider (opt : namedOption) : option handle :=
  match opt with OptBlobDescriptorCacheProvider p => p | _ => None end.

(** The configuration a list of options stands for: a flag is set or
    cleared by the presence of its option, a value is the one the
    latest option for it gives, and what no option mentions keeps the
    default of [NewRegistry]. *)
Definition configFor (opts : list namedOption) : Config :=
  {| c_redirect := bool_decide (OptEnableRedirect ∈ opts);
     c_repositoryBlobStore :=
       bool_decide (OptEnableRepositoryBlobsStorage ∈ opts);
     c_globalBlobStore :=
       negb (bool_decide (OptDisableGlobalBlobsStorage ∈ opts));
     c_delete := bool_decide (OptEnableDelete ∈ opts);
     c_schema1 := bool_decide (OptEnableSchema1 ∈ opts);
     c_resumableDigest :=
       negb (bool_decide (OptDisableDigestResumption ∈ opts));
     c_allow := default None (lastOf pickAllow opts);
     c_deny := default None (lastOf pickDeny opts);
     c_signingKey := default None (lastOf pickSigningKey opts);
     c_factory := default None (lastOf pickFactory opts);
     c_cacheProvider := lastOf pickCacheProvider opts |}.

(** The effect of one option on a configuration. *)
Definition setOption (opt : namedOption) (cf : Config) : Config :=
  match opt with
  | OptEnableRedirect =>
      {| c_redirect := true;
         c_repositoryBlobStore := c_repositoryBlobStore cf;
         c_globalBlobStore := c_globalBlobStore cf;
         c_delete := c_delete cf; c_schema1 := c_schema1 cf;
         c_resumableDigest := c_resumableDigest cf;
         c_allow := c_allow cf; c_deny := c_deny cf;
         c_signingKey := c_signingKey cf; c_factory := c_factory cf;
         c_cacheProvider := c_cacheProvider cf |}
  | OptEnableDelete =>
      {| c_redirect := c_redirect cf;
         c_repositoryBlobStore := c_repositoryBlobStore cf;
         c_globalBlobStore := c_globalBlobStore cf;
         c_delete := true; c_schema1 := c_schema1 cf;
         c_resumableDigest := c_resumableDigest cf;
         c_allow := c_allow cf; c_deny := c_deny cf;
         c_signingKey := c_signingKey cf; c_factory := c_factory cf;
         c_cacheProvider := c_cacheProvider cf |}
  | OptEnableRepositoryBlobsStorage =>
      {| c_redirect := c_redirect cf;
         c_repositoryBlobStore := true;
         c_globalBlobStore := c_globalBlobStore cf;
         c_delete := c_delete cf; c_schema1 := c_schema1 cf;
         c_resumableDigest := c_resumableDigest cf;
         c_allow := c_allow cf; c_deny := c_deny cf;
         c_signingKey := c_signingKey cf; c_factory := c_factory cf;
         c_cacheProvider := c_cacheProvider cf |}
  | OptDisableGlobalBlobsStorage =>
      {| c_redirect := c_redirect cf;
         c_repositoryBlobStore := c_repositoryBlobStore cf;
         c_globalBlobStore := false;
         c_delete := c_delete cf; c_schema1 := c_schema1 cf;
         c_resumableDigest := c_resumableDigest cf;
         c_allow := c_allow cf; c_deny := c_deny cf;
         c_signingKey := c_signingKey cf; c_factory := c_factory cf;
         c_cacheProvider := c_cacheProvider cf |}
  | OptEnableSchema1 =>
      {| c_redirect := c_redirect cf;
         c_repositoryBlobStore := c_repositoryBlobStore cf;
         c_globalBlobStore := c_globalBlobStore cf;
         c_delete := c_delete cf; c_schema1 := true;
         c_resumableDigest := c_resumableDigest cf;
         c_allow := c_allow cf; c_deny := c_deny cf;
         c_signingKey := c_signingKey cf; c_factory := c_factory cf;
         c_cacheProvider := c_cacheProvider cf |}
  | OptDisableDigestResumption =>
      {| c_redirect := c_redirect cf;
         c_repositoryBlobStore := c_repositoryBlobStore cf;
         c_globalBlobStore := c_globalBlobStore cf;
         c_delete := c_delete cf; c_schema1 := c_schema1 cf;
         c_resumableDigest := false;
         c_allow := c_allow cf; c_deny := c_deny cf;
         c_signingKey := c_signingKey cf; c_factory := c_factory cf;
         c_cacheProvider := c_cacheProvider cf |}
  | OptManifestURLsAllowRegexp re =>
      {| c_redirect := c_redirect cf;
         c_repositoryBlobStore := c_repositoryBlobStore cf;
         c_globalBlobStore := c_globalBlobStore cf;
         c_delete := c_delete cf; c_schema1 := c_schema1 cf;
         c_resumableDigest := c_resumableDigest cf;
         c_allow := re; c_deny := c_deny cf;
         c_signingKey := c_signingKey cf; c_factory := c_factory cf;
         c_cacheProvider := c_cacheProvider cf |}
  | OptManifestURLsDenyRegexp re =>
      {| c_redirect := c_redirect cf;
         c_repositoryBlobStore := c_repositoryBlobStore cf;
         c_globalBlobStore := c_globalBlobStore cf;
         c_delete := c_delete cf; c_schema1 := c_schema1 cf;
         c_resumableDigest := c_resumableDigest cf;
         c_allow := c_allow cf; c_deny := re;
         c_signingKey := c_signingKey cf; c_factory := c_factory cf;
         c_cacheProvider := c_cacheProvider cf |}
  | OptSchema1SigningKey key =>
      {| c_redirect := c_redirect cf;
         c_repositoryBlobStore := c_repositoryBlobStore cf;
         c_globalBlobStore := c_globalBlobStore cf;
         c_delete := c_delete cf; c_schema1 := c_schema1 cf;
         c_resumableDigest := c_resumableDigest cf;
         c_allow := c_allow cf; c_deny := c_deny cf;
         c_signingKey := key; c_factory := c_factory cf;
         c_cacheProvider := c_cacheProvider cf |}
  | OptBlobDescriptorServiceFactory factory =>
      {| c_redirect := c_redirect cf;
         c_repositoryBlobStore := c_repositoryBlobStore cf;
         c_globalBlobStore := c_globalBlobStore cf;
         c_delete := c_delete cf; c_schema1 := c_schema1 cf;
         c_resumableDigest := c_resumableDigest cf;
         c_allow := c_allow cf; c_deny := c_deny cf;
         c_signingKey := c_signingKey cf; c_factory := factory;
         c_cacheProvider := c_cacheProvider cf |}
  | OptBlobDescriptorCacheProvider provider =>
      {| c_redirect := c_redirect cf;
         c_repositoryBlobStore := c_repositoryBlobStore cf;
         c_globalBlobStore := c_globalBlobStore cf;
         c_delete := c_delete cf; c_schema1 := c_schema1 cf;
         c_resumableDigest := c_resumableDigest cf;
         c_allow := c_allow cf; c_deny := c_deny cf;
         c_signingKey := c_signingKey cf; c_factory := c_factory cf;
         c_cacheProvider :=
           match provider with
           | Some p => Some p
           | None => c_cacheProvider cf
           end |}
  end.

(** How the objects of a registry hang together: the registry at
    [reg], its options object, and the global statter, store and server,
    which all hold the registry's options pointer; the server is bound
    to the global store and shares its statter, which is the global
    statter or, once a cache provider is set, a cached statter on top of
    it. *)
Definition registry_layout (h : heap) (reg : loc) (r : registry)
    (o : registryOptions) (bs : blobStore) (srv : blobServer) : Prop :=
  h !! reg = Some (ORegistry r)
  ∧ h !! options r = Some (ORegistryOptions o)
  ∧ (∃ s, h !! globalStatter r = Some (OBlobStatter s)
          ∧ st_options s = options r)
  ∧ h !! globalBlobStore r = Some (OBlobStore bs)
  ∧ h !! globalBlobServer r = Some (OBlobServer srv)
  ∧ bs_options bs = options r
  ∧ srv_options srv = options r
  ∧ srv_pathFn srv = globalBlobStore r
  ∧ srv_statter srv = bs_statter bs
  ∧ match globalBlobDescriptorCacheProvider r with
    | None => bs_statter bs = globalStatter r
    | Some provider =>
        h !! bs_statter bs
          = Some (OCachedBlobStatter {| cbs_cache := provider;
                                        cbs_backend := globalStatter r |})
    end.

(** The heap [NewRegistry] leaves with options of this file, started on
    the empty heap. *)
Definition heapOfNamed (opts : list namedOption) : heap :=
  registry_spec.heapOf (optionOf <$> opts).

End registry_conf.

(** * Properties of the housekeeping handler *)

Module housekeeping_facts.
Import distribution handlers gc.

Ltac run_monad :=
  unfold mbind, M_bind, mret, M_ret, query, update, emit, log in *;
  simpl in *.

Section Mark.
Context {St : Type}.
Variable bh : Context St.
Variable service : ManifestService St.
Implicit Types (w : World St) (v : MarkVars) (dgst D M : Digest).

Let repo := Repository_ bh.

Lemma markDescriptors_run descriptors v w :
  ∃ t, Forall (λ e, is_mark_detail e = true) t
    ∧ markDescriptors bh descriptors v w =
      ({| manifestArr := manifestArr v;
          markSet := list_to_set (Digest_ <$> descriptors) ∪ markSet v |},
       {| storage := storage w; trace := trace w ++ t |}).
Proof.
  revert v w. induction descriptors as [|d ds IH]; intros v w.
  - exists []. split; [constructor|]. destruct v, w; run_monad.
    rewrite app_nil_r. do 2 f_equal. set_solver.
  - simpl. run_monad.
    edestruct IH as (t & Ht & ->).
    exists (Stdout ((Name (Repository_ bh) +:+ ": marking blob " +:+ Digest_ d) +:+ LF) :: t).
    split; [constructor; [reflexivity|exact Ht]|].
    simpl. rewrite <- app_assoc. simpl. do 2 f_equal. set_solver.
Qed.

Lemma markIngester_lookup_error dgst v w err :
  Lookup (Tags repo) (storage w) (digestOnly dgst) = Err err →
  markIngester bh service dgst v w =
    ((v, Some ("failed to retrieve tags for digest " +:+ dgst +:+ ": " +:+ err)),
     {| storage := storage w;
        trace := trace w ++ [CallLookup (digestOnly dgst)] |}).
Proof.
  intros HL. unfold markIngester. simpl. run_monad. fold repo. rewrite HL.
  reflexivity.
Qed.

Lemma markIngester_all_error dgst v w err :
  Lookup (Tags repo) (storage w) (digestOnly dgst) = Ok [] →
  All (Tags repo) (storage w) = Err err →
  markIngester bh service dgst v w =
    ((v, Some ("failed to retrieve tags " +:+ err)),
     {| storage := storage w;
        trace := trace w ++
          [CallLookup (digestOnly dgst);
           Stdout (("manifest eligible for deletion: " +:+ dgst) +:+ LF);
           CallAll] |}).
Proof.
  intros HL HA. unfold markIngester. simpl. run_monad. fold repo.
  rewrite HL. simpl. rewrite HA. rewrite <- !app_assoc. reflexivity.
Qed.

Lemma markIngester_get_error dgst v w tag tags err :
  Lookup (Tags repo) (storage w) (digestOnly dgst) = Ok (tag :: tags) →
  Get service (storage w) dgst = Err err →
  markIngester bh service dgst v w =
    (({| manifestArr := manifestArr v; markSet := {[ dgst ]} ∪ markSet v |},
      Some ("failed to retrieve manifest for digest " +:+ dgst +:+ ": " +:+ err)),
     {| storage := storage w;
        trace := trace w ++
          [CallLookup (digestOnly dgst);
           Stdout ((Name repo +:+ ": marking manifest " +:+ dgst +:+ " ") +:+ LF);
           CallGet dgst] |}).
Proof.
  intros HL HG. unfold markIngester, markManifest. simpl. run_monad.
  fold repo. rewrite HL. simpl. rewrite HG. rewrite <- !app_assoc.
  reflexivity.
Qed.

Lemma markIngester_untagged dgst v w allTags :
  Lookup (Tags repo) (storage w) (digestOnly dgst) = Ok [] →
  All (Tags repo) (storage w) = Ok allTags →
  markIngester bh service dgst v w =
    (({| manifestArr :=
           manifestArr v ++
             [ {| Name_ := Name repo; Digest__ := dgst; Tags_ := allTags |} ];
         markSet := markSet v |}, None),
     {| storage := storage w;
        trace := trace w ++
          [CallLookup (digestOnly dgst);
           Stdout (("manifest eligible for deletion: " +:+ dgst) +:+ LF);
           CallAll] |}).
Proof.
  intros HL HA. unfold markIngester. simpl. run_monad. fold repo.
  rewrite HL. simpl. rewrite HA. rewrite <- !app_assoc. reflexivity.
Qed.

Lemma markIngester_tagged dgst v w tag tags manifest :
  Lookup (Tags repo) (storage w) (digestOnly dgst) = Ok (tag :: tags) →
  Get service (storage w) dgst = Ok manifest →
  ∃ t, Forall (λ e, is_mark_detail e = true) t
    ∧ markIngester bh service dgst v w =
      (({| manifestArr := manifestArr v;
           markSet := list_to_set (Digest_ <$> References manifest)
                        ∪ {[ dgst ]} ∪ markSet v |}, None),
       {| storage := storage w;
          trace := trace w ++ CallLookup (digestOnly dgst) :: t |}).
Proof.
  intros HL HG. unfold markIngester, markManifest. simpl. run_monad.
  fold repo. rewrite HL. simpl. rewrite HG.
  edestruct (markDescriptors_run (References manifest)) as (t & Ht & ->).
  simpl.
  exists (Stdout ((Name repo +:+ ": marking manifest " +:+ dgst +:+ " ") +:+ LF)
            :: CallGet dgst :: t).
  split; [repeat constructor; exact Ht|].
  rewrite <- !app_assoc. simpl. do 3 f_equal. set_solver.
Qed.

(** One call of the ingester, whatever it meets. *)
Lemma markIngester_run dgst v w :
  ∃ t, Forall (λ e, is_mark_detail e = true) t
    ∧ (markIngester bh service dgst v w).2 =
        {| storage := storage w;
           trace := trace w ++ CallLookup (digestOnly dgst) :: t |}
    ∧ (readable repo service (storage w) dgst →
         (markIngester bh service dgst v w).1 =
           ({| manifestArr := manifestArr v ++ pendingOf repo (storage w) dgst;
               markSet := marksOf repo service (storage w) dgst ∪ markSet v |},
            None))
    ∧ (¬ readable repo service (storage w) dgst →
         ∃ e, (markIngester bh service dgst v w).1.2 = Some e
              ∧ manifestArr (markIngester bh service dgst v w).1.1
                = manifestArr v).
Proof.
  unfold readable, pendingOf, marksOf.
  destruct (Lookup (Tags repo) (storage w) (digestOnly dgst))
    as [[|tag tags]|err] eqn:HL.
  - destruct (All (Tags repo) (storage w)) as [allTags|err] eqn:HA.
    + rewrite (markIngester_untagged _ _ _ _ HL HA). simpl.
      eexists. split; [|split; [reflexivity|split]].
      * repeat constructor.
      * intros _. do 2 f_equal. set_solver.
      * intros []. eauto.
    + rewrite (markIngester_all_error _ _ _ _ HL HA). simpl.
      eexists. split; [|split; [reflexivity|split]].
      * repeat constructor.
      * intros [? ?]; discriminate.
      * intros _. eauto.
  - destruct (Get service (storage w) dgst) as [manifest|err] eqn:HG.
    + destruct (markIngester_tagged _ v _ _ _ _ HL HG) as (t & Ht & ->).
      simpl. exists t. split; [exact Ht|split; [reflexivity|split]].
      * intros _. rewrite app_nil_r. reflexivity.
      * intros []. eauto.
    + rewrite (markIngester_get_error _ _ _ _ _ _ HL HG). simpl.
      eexists. split; [|split; [reflexivity|split]].
      * repeat constructor.
      * intros [? ?]; discriminate.
      * intros _. eauto.
  - rewrite (markIngester_lookup_error _ _ _ _ HL). simpl.
    exists []. split; [constructor|split; [reflexivity|split]].
    + intros [].
    + intros _. eauto.
Qed.

Lemma readable_dec st dgst :
  readable repo service st dgst ∨ ¬ readable repo service st dgst.
Proof.
  unfold readable.
  destruct (Lookup (Tags repo) st (digestOnly dgst)) as [[|tag tags]|err].
  - destruct (All (Tags repo) st); [left; eauto|right; intros [? ?]; discriminate].
  - destruct (Get service st dgst); [left; eauto|right; intros [? ?]; discriminate].
  - right. intros [].
Qed.

(** The ingester run over an enumeration. *)
Lemma mark_enumerate items v w :
  ∃ t, (Enumerate items (markIngester bh service) v w).2 =
         {| storage := storage w; trace := trace w ++ t |}
    ∧ Forall (λ e, is_mark_event e = true) t
    ∧ ((Enumerate items (markIngester bh service) v w).1.2 = None →
         Forall (λ item, ∃ D, item = Ok D
                              ∧ readable repo service (storage w) D) items
         ∧ lookedUp t = walked items
         ∧ (Enumerate items (markIngester bh service) v w).1.1 =
             {| manifestArr :=
                  manifestArr v ++ (walked items ≫= pendingOf repo (storage w));
                markSet :=
                  ⋃ (marksOf repo service (storage w) <$> walked items)
                    ∪ markSet v |}).
Proof.
  revert v w. induction items as [|[dgst|err] items IH]; intros v w.
  - exists []. simpl. run_monad. rewrite app_nil_r. destruct v, w; simpl.
    split; [reflexivity|split; [constructor|]]. intros _.
    split; [constructor|split; [reflexivity|]]. rewrite app_nil_r.
    f_equal. set_solver.
  - simpl. unfold mbind, M_bind.
    destruct (markIngester_run dgst v w) as (t1 & Ht1 & Hw & Hok & Hbad).
    destruct (markIngester bh service dgst v w) as [[v1 e1] w1] eqn:Hstep.
    simpl in Hw, Hok, Hbad. subst w1.
    destruct e1 as [e|].
    + exists (CallLookup (digestOnly dgst) :: t1). unfold mret, M_ret. simpl.
      split; [reflexivity|split].
      * constructor; [reflexivity|].
        eapply Forall_impl; [exact Ht1|]. intros [] ?; done.
      * discriminate.
    + destruct (readable_dec (storage w) dgst) as [Hr|Hr];
        [|destruct (Hbad Hr) as (? & ? & _); discriminate].
      specialize (Hok Hr). injection Hok as ->.
      match goal with |- context [Enumerate items _ ?v' ?w'] =>
        destruct (IH v' w') as (t2 & Hw2 & Ht2 & Hok2) end.
      simpl in *.
      exists ((CallLookup (digestOnly dgst) :: t1) ++ t2).
      split; [rewrite Hw2; rewrite <- !app_assoc; reflexivity|split].
      * apply Forall_app. split; [|exact Ht2].
        constructor; [reflexivity|].
        eapply Forall_impl; [exact Ht1|]. intros [] ?; done.
      * intros Hnone. destruct (Hok2 Hnone) as (HF & HL & Hv).
        split; [constructor; eauto|split].
        -- simpl. unfold lookedUp in *. rewrite omap_app. rewrite HL.
           assert (omap (λ e, match e with
                              | CallLookup desc => Some (Digest_ desc)
                              | _ => None end) t1 = []) as ->; [|reflexivity].
           clear -Ht1. induction Ht1 as [|e t He _ IHt]; [reflexivity|].
           destruct e; try discriminate; simpl; exact IHt.
        -- rewrite Hv. simpl. rewrite <- app_assoc. f_equal. set_solver.
  - exists []. simpl. run_monad. rewrite app_nil_r. destruct w; simpl.
    split; [reflexivity|split; [constructor|discriminate]].
Qed.
End Mark.

Section Sweep.
Context {St : Type}.
Implicit Types (w : World St) (v : MarkVars) (dgst D M : Digest).

(** The loop over the pending deletions: it calls [RemoveManifest] on
    a prefix of the list, all of it when no call fails. *)
Lemma removeManifests_run (vacuum : Vacuum St) arr w :
  ∃ k, trace (removeManifests vacuum arr w).2
         = trace w ++ (removalOf <$> take k arr)
    ∧ ((removeManifests vacuum arr w).1 = None → k = length arr).
Proof.
  revert w. induction arr as [|obj arr IH]; intros w.
  - exists 0. simpl. run_monad. rewrite app_nil_r. done.
  - simpl. run_monad.
    destruct (RemoveManifest vacuum (Name_ obj) (Digest__ obj) (Tags_ obj)
                (storage w)) as [st [e|]] eqn:HR.
    + exists 1. simpl. split; [reflexivity|discriminate].
    + match goal with |- context [removeManifests vacuum arr ?w'] =>
        destruct (IH w') as (k & Ht & Hk) end.
      exists (S k). simpl in *. rewrite Ht, <- app_assoc.
      split; [reflexivity|]. intros Hn. f_equal. auto.
Qed.

(** One call of the sweep ingester: the outcome of
    [RemoveRepositoryBlob] has no part in its result. *)
Lemma sweepIngester_run (bh : Context St) (vacuum : Vacuum St)
    (marks : gset Digest) dgst w :
  sweepIngester bh vacuum marks dgst tt w =
    ((tt, None),
     if decide (dgst ∈ marks) then w
     else {| storage :=
               (RemoveRepositoryBlob vacuum (Name (Repository_ bh)) dgst
                  (storage w)).1;
             trace := trace w ++
               [CallRemoveRepositoryBlob (Name (Repository_ bh)) dgst] |}).
Proof.
  unfold sweepIngester. destruct (decide (dgst ∈ marks)); [reflexivity|].
  run_monad.
  destruct (RemoveRepositoryBlob vacuum (Name (Repository_ bh)) dgst
              (storage w)); reflexivity.
Qed.

Lemma sweep_enumerate (bh : Context St) (vacuum : Vacuum St)
    (marks : gset Digest) items w :
  (Enumerate items (sweepIngester bh vacuum marks) tt w).1
    = (tt, walkError items)
  ∧ trace (Enumerate items (sweepIngester bh vacuum marks) tt w).2
    = trace w ++
        (CallRemoveRepositoryBlob (Name (Repository_ bh))
           <$> filter (λ d, d ∉ marks) (walked items)).
Proof.
  revert w. induction items as [|[dgst|err] items IH]; intros w.
  - simpl. run_monad. rewrite app_nil_r. done.
  - simpl. unfold mbind, M_bind. rewrite sweepIngester_run.
    destruct (decide (dgst ∈ marks)) as [Hin|Hout].
    + destruct (IH w) as [-> ->].
      rewrite filter_cons_False by (intros H; exact (H Hin)). done.
    + match goal with |- context [Enumerate items _ tt ?w'] =>
        destruct (IH w') as [-> ->] end.
      rewrite filter_cons_True by exact Hout. simpl.
      rewrite <- app_assoc. done.
  - simpl. run_monad. rewrite app_nil_r. done.
Qed.

Lemma removeBlobs_scoped (bh : Context St) vacuum marks bs w :
  IsScopped bs = true →
  (removeBlobs bh (Some bs) vacuum marks w).1
    = (λ e, "failed to delete blobs " +:+ e) <$> walkError (Blobs bs (storage w))
  ∧ trace (removeBlobs bh (Some bs) vacuum marks w).2
    = trace w ++ CallEnumerateBlobs ::
        (CallRemoveRepositoryBlob (Name (Repository_ bh))
           <$> filter (λ d, d ∉ marks) (walked (Blobs bs (storage w)))).
Proof.
  intros Hs. unfold removeBlobs. rewrite Hs. run_monad.
  match goal with |- context [Enumerate ?items _ tt ?w'] =>
    destruct (sweep_enumerate bh vacuum marks items w') as [H1 H2];
    destruct (Enumerate items (sweepIngester bh vacuum marks) tt w')
      as [[[] e] w''] end.
  simpl in *. injection H1 as ->. subst.
  destruct (walkError (Blobs bs (storage w))); simpl;
    rewrite H2, <- app_assoc; done.
Qed.

Lemma removeBlobs_unscoped (bh : Context St) vacuum marks blobsService w :
  match blobsService with
  | Some bs => IsScopped bs = false
  | None => True
  end →
  removeBlobs bh blobsService vacuum marks w = (None, w).
Proof.
  unfold removeBlobs. destruct blobsService as [bs|]; [|done].
  intros ->. done.
Qed.

(** The three ways a run goes once the manifest service is there. *)
Lemma runGCCycle_mark_error (bh : Context St) service w v e w1 :
  Manifests (Repository_ bh) = Ok service →
  markAllManifests bh service noMarks w = ((v, Some e), w1) →
  runGCCycle bh w = (Some ("failed to mark all manifests: " +:+ e), w1).
Proof.
  intros HM Hmark. unfold runGCCycle. rewrite HM. unfold mbind, M_bind.
  fold noMarks. rewrite Hmark. reflexivity.
Qed.

Lemma runGCCycle_manifest_error (bh : Context St) service w v w1 e w2 :
  Manifests (Repository_ bh) = Ok service →
  markAllManifests bh service noMarks w = ((v, None), w1) →
  removeManifests (NewVacuum (driver bh)) (manifestArr v) w1 = (Some e, w2) →
  runGCCycle bh w = (Some e, w2).
Proof.
  intros HM Hmark Hrm. unfold runGCCycle. rewrite HM. unfold mbind, M_bind.
  fold noMarks. rewrite Hmark. rewrite Hrm. reflexivity.
Qed.

Lemma runGCCycle_sweep (bh : Context St) service w v w1 w2 :
  Manifests (Repository_ bh) = Ok service →
  markAllManifests bh service noMarks w = ((v, None), w1) →
  removeManifests (NewVacuum (driver bh)) (manifestArr v) w1 = (None, w2) →
  runGCCycle bh w =
    removeBlobs bh (RepositoryBlobsEnumerator (Repository_ bh))
      (NewVacuum (driver bh)) (markSet v) w2.
Proof.
  intros HM Hmark Hrm. unfold runGCCycle. rewrite HM. unfold mbind, M_bind.
  fold noMarks. rewrite Hmark. rewrite Hrm. reflexivity.
Qed.
End Sweep.

Section Claims.
Context {St : Type}.
Implicit Types (bh : Context St) (w : World St) (v : MarkVars).
Implicit Types (st : St) (dgst D M : Digest).

Lemma markAllManifests_run bh service enum v w :
  AsEnumerator service = Some enum →
  ∃ t, (markAllManifests bh service v w).2 =
         {| storage := storage w;
            trace := trace w ++ CallEnumerateManifests :: t |}
    ∧ Forall (λ e, is_mark_event e = true) t
    ∧ ((markAllManifests bh service v w).1.2 = None →
         Forall (λ item, ∃ D, item = Ok D
                   ∧ readable (Repository_ bh) service (storage w) D)
           (enum (storage w))
         ∧ lookedUp t = walked (enum (storage w))
         ∧ (markAllManifests bh service v w).1.1 =
             {| manifestArr :=
                  manifestArr v ++
                    (walked (enum (storage w))
                       ≫= pendingOf (Repository_ bh) (storage w));
                markSet :=
                  ⋃ (marksOf (Repository_ bh) service (storage w)
                       <$> walked (enum (storage w)))
                    ∪ markSet v |}).
Proof.
  intros HE. unfold markAllManifests. rewrite HE. run_monad.
  match goal with |- context [Enumerate ?items _ v ?w'] =>
    destruct (mark_enumerate bh service items v w') as (t & Hw & Ht & Hok) end.
  simpl in *. exists t. rewrite Hw, <- app_assoc. auto.
Qed.

(** The mark phase leaves the persisted state alone and makes no
    deleting call. *)
Lemma markAllManifests_frame bh service v w :
  ∃ t, (markAllManifests bh service v w).2 =
         {| storage := storage w; trace := trace w ++ t |}
    ∧ Forall (λ e, is_mark_event e = true) t.
Proof.
  destruct (AsEnumerator service) as [enum|] eqn:HE.
  - destruct (markAllManifests_run bh service enum v w HE)
      as (t & Hw & Ht & _).
    exists (CallEnumerateManifests :: t). split; [exact Hw|].
    constructor; [reflexivity|exact Ht].
  - exists []. unfold markAllManifests. rewrite HE. run_monad.
    rewrite app_nil_r. destruct w; split; [reflexivity|constructor].
Qed.

Lemma walked_elem (items : list (result Digest)) D :
  Forall (λ item, ∃ D', item = Ok D') items →
  Ok D ∈ items → D ∈ walked items.
Proof.
  induction 1 as [|item items [D' ->] _ IH]; intros Hin.
  - inversion Hin.
  - simpl. apply elem_of_cons in Hin as [Heq|Hin].
    + injection Heq as ->. left.
    + right. auto.
Qed.

Lemma elem_walked (items : list (result Digest)) D :
  D ∈ walked items → Ok D ∈ items.
Proof.
  induction items as [|[d|e] items IH]; simpl; intros Hin.
  - inversion Hin.
  - apply elem_of_cons in Hin as [->|Hin]; [left|right; auto].
  - inversion Hin.
Qed.

(** Once the mark phase has completed, the rest of the run only calls
    [RemoveManifest] on pending deletions, in order, and then, at most,
    enumerates blobs and calls [RemoveRepositoryBlob] on unmarked
    digests. *)
Lemma run_after_mark bh service w v w1 :
  Manifests (Repository_ bh) = Ok service →
  markAllManifests bh service noMarks w = ((v, None), w1) →
  ∃ k tb, trace (runGCCycle bh w).2
            = trace w1 ++ (removalOf <$> take k (manifestArr v)) ++ tb
    ∧ Forall (λ e, e = CallEnumerateBlobs
                   ∨ ∃ d, e = CallRemoveRepositoryBlob
                                (Name (Repository_ bh)) d
                          ∧ d ∉ markSet v) tb.
Proof.
  intros HM Hmark.
  destruct (removeManifests_run (NewVacuum (driver bh)) (manifestArr v) w1)
    as (k & Htr & _).
  destruct (removeManifests (NewVacuum (driver bh)) (manifestArr v) w1)
    as [[e|] w2] eqn:Hrm; simpl in Htr.
  - rewrite (runGCCycle_manifest_error bh service w v w1 e w2 HM Hmark Hrm).
    exists k, []. simpl. rewrite app_nil_r. split; [exact Htr|constructor].
  - rewrite (runGCCycle_sweep bh service w v w1 w2 HM Hmark Hrm).
    destruct (RepositoryBlobsEnumerator (Repository_ bh)) as [bs|] eqn:HB.
    + destruct (IsScopped bs) eqn:Hs.
      * destruct (removeBlobs_scoped bh (NewVacuum (driver bh)) (markSet v)
                    bs w2 Hs) as [_ Hb].
        eexists k, _. rewrite Hb, Htr, <- app_assoc. split; [reflexivity|].
        constructor; [left; reflexivity|].
        apply Forall_fmap, Forall_forall. intros d Hd. simpl. right.
        apply list_elem_of_filter in Hd as [Hd _]. eauto.
      * rewrite removeBlobs_unscoped by exact Hs.
        exists k, []. simpl. rewrite app_nil_r. split; [exact Htr|constructor].
    + rewrite removeBlobs_unscoped by exact I.
      exists k, []. simpl. rewrite app_nil_r. split; [exact Htr|constructor].
Qed.

Lemma mark_event_not_removal (t : list event) :
  Forall (λ e, is_mark_event e = true) t →
  Forall (λ e, is_removal e = false) t.
Proof. intros H. eapply Forall_impl; [exact H|]. intros []; done. Qed.

(** What a completed mark phase recorded, by the tags of each
    enumerated manifest. *)
Lemma marked_when_tagged bh service enum v w v' w' D tag tags :
  AsEnumerator service = Some enum →
  markAllManifests bh service v w = ((v', None), w') →
  Ok D ∈ enum (storage w) →
  Lookup (Tags (Repository_ bh)) (storage w) (digestOnly D)
    = Ok (tag :: tags) →
  ∃ manifest, Get service (storage w) D = Ok manifest
    ∧ D ∈ markSet v'
    ∧ ∀ desc, desc ∈ References manifest → Digest_ desc ∈ markSet v'.
Proof.
  intros HE Hrun HD HL.
  destruct (markAllManifests_run bh service enum v w HE)
    as (t & _ & _ & Hok).
  rewrite Hrun in Hok. simpl in Hok.
  destruct (Hok eq_refl) as (Hall & _ & ->). clear Hok. simpl.
  assert (Hwalk : D ∈ walked (enum (storage w))).
  { apply walked_elem; [|exact HD].
    eapply Forall_impl; [exact Hall|]. intros ? (D' & -> & _). eauto. }
  rewrite Forall_forall in Hall.
  destruct (Hall _ HD) as (D' & Heq & Hr). injection Heq as <-.
  unfold readable in Hr. rewrite HL in Hr. destruct Hr as [manifest HG].
  exists manifest. split; [exact HG|].
  assert (Hin : ∀ x, x ∈ marksOf (Repository_ bh) service (storage w) D →
                x ∈ ⋃ (marksOf (Repository_ bh) service (storage w)
                         <$> walked (enum (storage w))) ∪ markSet v).
  { intros x Hx. apply elem_of_union_l, elem_of_union_list.
    eexists. split; [apply list_elem_of_fmap; eexists; split;
                      [reflexivity|exact Hwalk]|exact Hx]. }
  unfold marksOf in Hin. rewrite HL, HG in Hin. split.
  - apply Hin. set_solver.
  - intros desc Hdesc. apply Hin.
    apply elem_of_union_l, elem_of_list_to_set, list_elem_of_fmap. eauto.
Qed.

Lemma pending_is_untagged bh service enum w v' w' obj :
  AsEnumerator service = Some enum →
  markAllManifests bh service noMarks w = ((v', None), w') →
  obj ∈ manifestArr v' →
  Lookup (Tags (Repository_ bh)) (storage w) (digestOnly (Digest__ obj))
    = Ok []
  ∧ Name_ obj = Name (Repository_ bh)
  ∧ All (Tags (Repository_ bh)) (storage w) = Ok (Tags_ obj)
  ∧ Ok (Digest__ obj) ∈ enum (storage w).
Proof.
  intros HE Hrun Hobj.
  destruct (markAllManifests_run bh service enum noMarks w HE)
    as (t & _ & _ & Hok).
  rewrite Hrun in Hok. simpl in Hok.
  destruct (Hok eq_refl) as (_ & _ & ->). clear Hok. simpl in Hobj.
  apply list_elem_of_bind in Hobj as (M & Hobj & HM).
  apply elem_walked in HM. unfold pendingOf in Hobj.
  destruct (Lookup (Tags (Repository_ bh)) (storage w) (digestOnly M))
    as [[|tag tags]|err] eqn:HL; try (inversion Hobj; fail).
  destruct (All (Tags (Repository_ bh)) (storage w)) as [allTags|err];
    [|inversion Hobj].
  apply list_elem_of_singleton in Hobj as ->. simpl. auto.
Qed.

Lemma mark_result_eta bh service v w :
  ∃ v' e t, markAllManifests bh service v w
              = ((v', e), {| storage := storage w; trace := trace w ++ t |})
    ∧ Forall (λ ev, is_mark_event ev = true) t.
Proof.
  destruct (markAllManifests_frame bh service v w) as (t & Hw & Ht).
  destruct (markAllManifests bh service v w) as [[v' e] w'].
  simpl in Hw. subst w'. eauto.
Qed.

Lemma mark_needs_enumerator bh service v w v' w' :
  markAllManifests bh service v w = ((v', None), w') →
  ∃ enum, AsEnumerator service = Some enum.
Proof.
  unfold markAllManifests. destruct (AsEnumerator service); [eauto|].
  run_monad. discriminate.
Qed.

(** Every deleting call of a run comes after a completed mark phase
    and is either the removal of a pending manifest or the removal of
    a blob outside the mark set. *)
Lemma removal_in_run bh st e :
  e ∈ trace (runGCCycle bh (start st)).2 →
  is_removal e = true →
  ∃ service enum v tmark,
    Manifests (Repository_ bh) = Ok service
    ∧ AsEnumerator service = Some enum
    ∧ markAllManifests bh service noMarks (start st)
      = ((v, None), {| storage := st; trace := tmark |})
    ∧ ((∃ obj, obj ∈ manifestArr v ∧ e = removalOf obj)
       ∨ (∃ d, e = CallRemoveRepositoryBlob (Name (Repository_ bh)) d
               ∧ d ∉ markSet v)).
Proof.
  intros Hin Hrem.
  destruct (Manifests (Repository_ bh)) as [service|err] eqn:HM.
  - destruct (mark_result_eta bh service noMarks (start st))
      as (v & e1 & tmark & Hmark & Htm). simpl in Hmark.
    assert (Hnot : e ∉ tmark).
    { intros He. rewrite Forall_forall in Htm. specialize (Htm _ He).
      destruct e; discriminate. }
    destruct e1 as [e1|].
    + rewrite (runGCCycle_mark_error bh service _ _ _ _ HM Hmark) in Hin.
      contradiction.
    + destruct (mark_needs_enumerator _ _ _ _ _ _ Hmark) as [enum HE].
      exists service, enum, v, tmark. do 3 (split; [done|]).
      destruct (run_after_mark bh service _ _ _ HM Hmark)
        as (k & tb & Htr & Htb).
      rewrite Htr in Hin. simpl in Hin.
      apply elem_of_app in Hin as [Hin|Hin]; [contradiction|].
      apply elem_of_app in Hin as [Hin|Hin].
      * left. apply list_elem_of_fmap in Hin as (obj & -> & Hobj).
        exists obj. split; [|reflexivity].
        exact (subseteq_take _ _ _ Hobj).
      * right. rewrite Forall_forall in Htb.
        destruct (Htb _ Hin) as [->|Hd]; [discriminate|exact Hd].
  - unfold runGCCycle in Hin. rewrite HM in Hin. inversion Hin.
Qed.

Lemma mark_set_by_tagged bh service enum v w v' w' :
  AsEnumerator service = Some enum →
  markAllManifests bh service v w = ((v', None), w') →
  ∀ x, x ∈ markSet v' ↔
    x ∈ markSet v
    ∨ ∃ M, Ok M ∈ enum (storage w)
           ∧ tagged (Repository_ bh) (storage w) M
           ∧ (x = M ∨ references service (storage w) M x).
Proof.
  intros HE Hrun.
  destruct (markAllManifests_run bh service enum v w HE)
    as (t & _ & _ & Hok).
  rewrite Hrun in Hok. simpl in Hok.
  destruct (Hok eq_refl) as (Hall & _ & ->). clear Hok. simpl.
  intros x. rewrite elem_of_union, elem_of_union_list. split.
  - intros [(X & HX & Hx)|Hx]; [|left; exact Hx]. right.
    apply list_elem_of_fmap in HX as (M & -> & HM).
    exists M. split; [apply elem_walked; exact HM|].
    unfold marksOf in Hx. unfold tagged, references.
    destruct (Lookup (Tags (Repository_ bh)) (storage w) (digestOnly M))
      as [[|tag tags]|err]; [set_solver| |set_solver].
    split; [eauto|].
    destruct (Get service (storage w) M) as [manifest|err];
      [|left; set_solver].
    apply elem_of_union in Hx as [Hx|Hx]; [|left; set_solver].
    right. apply elem_of_list_to_set, list_elem_of_fmap in Hx
      as (desc & -> & Hdesc). eauto.
  - intros [Hx|(M & HM & (tag & tags & HL) & Hx)]; [right; exact Hx|].
    left.
    assert (HMw : M ∈ walked (enum (storage w))).
    { apply walked_elem; [|exact HM].
      eapply Forall_impl; [exact Hall|]. intros ? (D' & -> & _). eauto. }
    assert (HrM : readable (Repository_ bh) service (storage w) M).
    { rewrite Forall_forall in Hall.
      destruct (Hall _ HM) as (D' & Heq & Hr). injection Heq as <-.
      exact Hr. }
    unfold readable in HrM. rewrite HL in HrM. destruct HrM as [manifest HG].
    exists (marksOf (Repository_ bh) service (storage w) M).
    split; [apply list_elem_of_fmap; eauto|].
    unfold marksOf. rewrite HL, HG.
    destruct Hx as [->|(manifest' & desc & HG' & Hdesc & <-)];
      [set_solver|].
    rewrite HG in HG'. injection HG' as <-.
    apply elem_of_union_l, elem_of_list_to_set, list_elem_of_fmap. eauto.
Qed.

(** C1.  The ingester, called on a manifest digest [D]: when [D] has
    a tag and its manifest is fetched, it adds [D] and the digest of
    every descriptor of [References()] to the mark set and records
    nothing for deletion; when [D] has no tag, it appends [D], with
    the repository's name and all its tags, to the pending deletions
    and leaves the mark set as it found it.  So when the mark phase
    completes, each digest [D] it enumerated with a tag is in the mark
    set with all its references, each without a tag is among the
    pending deletions, and the mark set holds nothing but what tagged
    manifests put there. *)
Theorem mark_phase_by_manifest bh service D v w :
  (∀ tag tags manifest,
     Lookup (Tags (Repository_ bh)) (storage w) (digestOnly D)
       = Ok (tag :: tags) →
     Get service (storage w) D = Ok manifest →
     (markIngester bh service D v w).1 =
       ({| manifestArr := manifestArr v;
           markSet := list_to_set (Digest_ <$> References manifest)
                        ∪ {[ D ]} ∪ markSet v |}, None))
  ∧ (∀ allTags,
       Lookup (Tags (Repository_ bh)) (storage w) (digestOnly D) = Ok [] →
       All (Tags (Repository_ bh)) (storage w) = Ok allTags →
       (markIngester bh service D v w).1 =
         ({| manifestArr :=
               manifestArr v ++
                 [ {| Name_ := Name (Repository_ bh); Digest__ := D;
                      Tags_ := allTags |} ];
             markSet := markSet v |}, None))
  ∧ (∀ enum v' w',
       AsEnumerator service = Some enum →
       markAllManifests bh service v w = ((v', None), w') →
       Ok D ∈ enum (storage w) →
       (tagged (Repository_ bh) (storage w) D →
          D ∈ markSet v'
          ∧ ∃ manifest, Get service (storage w) D = Ok manifest
              ∧ ∀ desc, desc ∈ References manifest →
                  Digest_ desc ∈ markSet v')
       ∧ (Lookup (Tags (Repository_ bh)) (storage w) (digestOnly D) = Ok [] →
            ∃ allTags, All (Tags (Repository_ bh)) (storage w) = Ok allTags
              ∧ {| Name_ := Name (Repository_ bh); Digest__ := D;
                   Tags_ := allTags |} ∈ manifestArr v')
       ∧ (∀ x, x ∈ markSet v' ↔
            x ∈ markSet v
            ∨ ∃ M, Ok M ∈ enum (storage w)
                   ∧ tagged (Repository_ bh) (storage w) M
                   ∧ (x = M ∨ references service (storage w) M x))).
Proof.
  split; [|split].
  - intros tag tags manifest HL HG.
    destruct (markIngester_tagged bh service D v w tag tags manifest HL HG)
      as (t & _ & ->). reflexivity.
  - intros allTags HL HA.
    rewrite (markIngester_untagged bh service D v w allTags HL HA).
    reflexivity.
  - intros enum v' w' HE Hrun HD. split; [|split].
    + intros (tag & tags & HL).
      destruct (marked_when_tagged bh service enum v w v' w' D tag tags
                  HE Hrun HD HL) as (manifest & HG & HDm & Hrefs).
      eauto.
    + intros HL.
      destruct (markAllManifests_run bh service enum v w HE)
        as (t & _ & _ & Hok).
      rewrite Hrun in Hok. simpl in Hok.
      destruct (Hok eq_refl) as (Hall & _ & ->). clear Hok. simpl.
      assert (Hwalk : D ∈ walked (enum (storage w))).
      { apply walked_elem; [|exact HD].
        eapply Forall_impl; [exact Hall|]. intros ? (D' & -> & _). eauto. }
      rewrite Forall_forall in Hall.
      destruct (Hall _ HD) as (D' & Heq & Hr). injection Heq as <-.
      unfold readable in Hr. rewrite HL in Hr. destruct Hr as [allTags HA].
      exists allTags. split; [exact HA|].
      apply elem_of_app. right. apply list_elem_of_bind.
      exists D. split; [|exact Hwalk].
      unfold pendingOf. rewrite HL, HA. left.
    + exact (mark_set_by_tagged bh service enum v w v' w' HE Hrun).
Qed.

(** C2, as the code has it.  A manifest [M] the mark phase enumerates
    with at least one tag is not deleted by the run, neither as a
    manifest nor as a blob, and no digest [M] references directly is
    removed as a repository blob. *)
Theorem tagged_manifest_direct_references_kept bh st service enum M :
  Manifests (Repository_ bh) = Ok service →
  AsEnumerator service = Some enum →
  Ok M ∈ enum st →
  tagged (Repository_ bh) st M →
  ¬ deleted M (trace (runGCCycle bh (start st)).2)
  ∧ ∀ D name, references service st M D →
      CallRemoveRepositoryBlob name D
        ∉ trace (runGCCycle bh (start st)).2.
Proof.
  intros HM HE HMin (tag & tags & HL).
  assert (Hblob : ∀ D name,
             (D = M ∨ references service st M D) →
             CallRemoveRepositoryBlob name D
               ∉ trace (runGCCycle bh (start st)).2).
  { intros D name HD Hin.
    destruct (removal_in_run bh st _ Hin eq_refl)
      as (service' & enum' & v & tmark & HM' & HE' & Hmark & Hcase).
    rewrite HM in HM'. injection HM' as <-.
    rewrite HE in HE'. injection HE' as <-.
    destruct (marked_when_tagged bh service enum noMarks (start st) v _
                M tag tags HE Hmark HMin HL) as (manifest & HG & HMm & Hrefs).
    destruct Hcase as [(obj & _ & Heq)|(d & Heq & Hd)]; [discriminate|].
    injection Heq as _ <-. apply Hd.
    destruct HD as [->|(manifest' & desc & HG' & Hdesc & <-)]; [exact HMm|].
    simpl in HG. rewrite HG in HG'. injection HG' as <-. auto. }
  split.
  - intros [(name & tags' & Hin)|(name & Hin)].
    + destruct (removal_in_run bh st _ Hin eq_refl)
        as (service' & enum' & v & tmark & HM' & HE' & Hmark & Hcase).
      rewrite HM in HM'. injection HM' as <-.
      rewrite HE in HE'. injection HE' as <-.
      destruct Hcase as [(obj & Hobj & Heq)|(d & Heq & _)]; [|discriminate].
      destruct (pending_is_untagged bh service enum (start st) v _ obj
                  HE Hmark Hobj) as (HL' & _).
      injection Heq as _ -> _. simpl in HL'. rewrite HL in HL'. discriminate.
    + exact (Hblob M name (or_introl eq_refl) Hin).
  - intros D name HD. apply Hblob. right. exact HD.
Qed.

(** C3.  A mark phase that fails ends the run with that error, in the
    state it started from and without a deleting call; a failed tag
    lookup, tag listing or manifest fetch on an enumerated digest, a
    failure of the enumeration, and a service that cannot enumerate
    each make the mark phase fail; and the ingester, on a failed tag
    lookup, fails without recording the manifest for deletion. *)
Theorem mark_failure_aborts_run bh st service :
  Manifests (Repository_ bh) = Ok service →
  (∀ v e w1,
     markAllManifests bh service noMarks (start st) = ((v, Some e), w1) →
     runGCCycle bh (start st)
       = (Some ("failed to mark all manifests: " +:+ e), w1)
     ∧ storage w1 = st
     ∧ Forall (λ ev, is_removal ev = false) (trace w1))
  ∧ (∀ enum, AsEnumerator service = Some enum →
       (∃ D, D ∈ walked (enum st)
             ∧ ¬ readable (Repository_ bh) service st D)
       ∨ walkError (enum st) ≠ None →
       ∃ e, (markAllManifests bh service noMarks (start st)).1.2 = Some e)
  ∧ (AsEnumerator service = None →
       ∃ e, (markAllManifests bh service noMarks (start st)).1.2 = Some e)
  ∧ (∀ D v w err,
       Lookup (Tags (Repository_ bh)) (storage w) (digestOnly D) = Err err →
       (markIngester bh service D v w).1
         = (v, Some ("failed to retrieve tags for digest "
                     +:+ D +:+ ": " +:+ err))).
Proof.
  intros HM. split; [|split; [|split]].
  - intros v e w1 Hmark.
    split; [exact (runGCCycle_mark_error bh service _ _ _ _ HM Hmark)|].
    destruct (markAllManifests_frame bh service noMarks (start st))
      as (t & Hw & Ht).
    rewrite Hmark in Hw. simpl in Hw. subst w1. simpl.
    split; [reflexivity|]. apply mark_event_not_removal, Ht.
  - intros enum HE Hbad.
    destruct (markAllManifests_run bh service enum noMarks (start st) HE)
      as (t & _ & _ & Hok).
    destruct ((markAllManifests bh service noMarks (start st)).1.2)
      as [e|]; [eauto|].
    destruct (Hok eq_refl) as (Hall & _). simpl in Hall. exfalso.
    destruct Hbad as [(D & HD & Hnr)|Herr].
    + apply elem_walked in HD. rewrite Forall_forall in Hall.
      destruct (Hall _ HD) as (D' & Heq & Hr). injection Heq as <-. auto.
    + apply Herr. clear -Hall.
      induction Hall as [|item items (D & -> & _) _ IH]; [reflexivity|exact IH].
  - intros HE. unfold markAllManifests. rewrite HE. run_monad. eauto.
  - intros D v w err HL.
    rewrite (markIngester_lookup_error bh service D v w err HL). reflexivity.
Qed.

(** C4.  The trace of a run is a mark part followed by a sweep part:
    the mark part makes no deleting call, the sweep part no call of
    the mark phase; and a deleting call is made only after the mark
    phase has completed over the whole enumeration, with the persisted
    state still as the run found it. *)
Theorem sweep_strictly_after_mark bh st :
  ∃ tmark tsweep,
    trace (runGCCycle bh (start st)).2 = tmark ++ tsweep
    ∧ Forall (λ e, is_mark_event e = true ∧ is_removal e = false) tmark
    ∧ Forall (λ e, is_mark_event e = false) tsweep
    ∧ ∀ e, e ∈ tsweep → is_removal e = true →
        ∃ service enum v,
          Manifests (Repository_ bh) = Ok service
          ∧ AsEnumerator service = Some enum
          ∧ markAllManifests bh service noMarks (start st)
            = ((v, None), {| storage := st; trace := tmark |})
          ∧ Forall (λ item, ∃ D, item = Ok D) (enum st)
          ∧ lookedUp tmark = walked (enum st).
Proof.
  destruct (Manifests (Repository_ bh)) as [service|err] eqn:HM.
  - destruct (mark_result_eta bh service noMarks (start st))
      as (v & e1 & tmark & Hmark & Htm). simpl in Hmark.
    assert (Htm' : Forall (λ e, is_mark_event e = true
                                ∧ is_removal e = false) tmark).
    { eapply Forall_impl; [exact Htm|]. intros []; done. }
    destruct e1 as [e1|].
    + exists tmark, [].
      rewrite (runGCCycle_mark_error bh service _ _ _ _ HM Hmark).
      simpl. rewrite app_nil_r.
      split; [reflexivity|split; [exact Htm'|split; [constructor|]]].
      intros e He. inversion He.
    + destruct (run_after_mark bh service _ _ _ HM Hmark)
        as (k & tb & Htr & Htb).
      exists tmark, ((removalOf <$> take k (manifestArr v)) ++ tb).
      split; [exact Htr|split; [exact Htm'|split]].
      * apply Forall_app. split.
        -- apply Forall_fmap, Forall_forall. intros; reflexivity.
        -- eapply Forall_impl; [exact Htb|].
           intros e [->|(d & -> & _)]; reflexivity.
      * intros e _ _.
        destruct (mark_needs_enumerator _ _ _ _ _ _ Hmark) as [enum HE].
        exists service, enum, v. do 3 (split; [done|]).
        destruct (markAllManifests_run bh service enum noMarks (start st) HE)
          as (t & Hw & _ & Hok).
        rewrite Hmark in Hw, Hok. simpl in Hw, Hok.
        injection Hw as ->.
        destruct (Hok eq_refl) as (Hall & Hlook & _). split.
        -- eapply Forall_impl; [exact Hall|]. intros ? (D & -> & _). eauto.
        -- exact Hlook.
  - exists [], []. unfold runGCCycle. rewrite HM. run_monad.
    split; [reflexivity|split; [constructor|split; [constructor|]]].
    intros e He. inversion He.
Qed.

Lemma lookedUp_app (t1 t2 : list event) :
  lookedUp (t1 ++ t2) = lookedUp t1 ++ lookedUp t2.
Proof. apply omap_app. Qed.

Lemma lookedUp_none (t : list event) :
  Forall (λ e, is_mark_event e = false) t → lookedUp t = [].
Proof.
  induction 1 as [|e t He _ IH]; [reflexivity|].
  destruct e; try discriminate; exact IH.
Qed.

Lemma walked_all_ok (items : list (result Digest)) :
  Forall (λ item, ∃ D, item = Ok D) items → Ok <$> walked items = items.
Proof.
  induction 1 as [|item items [D ->] _ IH]; [reflexivity|].
  simpl. f_equal. exact IH.
Qed.

Lemma removeManifests_app (vacuum : Vacuum St) pre post w w' :
  removeManifests vacuum pre w = (None, w') →
  removeManifests vacuum (pre ++ post) w = removeManifests vacuum post w'.
Proof.
  revert w. induction pre as [|obj pre IH]; intros w Hpre.
  - simpl in Hpre. run_monad. injection Hpre as <-. reflexivity.
  - simpl in *. run_monad.
    destruct (RemoveManifest vacuum (Name_ obj) (Digest__ obj) (Tags_ obj)
                (storage w)) as [st' [e|]]; [discriminate|].
    apply IH. exact Hpre.
Qed.

(** A failed [RemoveManifest] ends the run with its error, wrapped:
    the pending deletions after it and the blob sweep are not
    attempted, and the persisted state is the one the failed call
    left, with the earlier removals in place. *)
Theorem manifest_removal_failure_stops_sweep
    bh st service v w1 pre obj post w2 st3 e :
  Manifests (Repository_ bh) = Ok service →
  markAllManifests bh service noMarks (start st) = ((v, None), w1) →
  manifestArr v = pre ++ obj :: post →
  removeManifests (NewVacuum (driver bh)) pre w1 = (None, w2) →
  RemoveManifest (NewVacuum (driver bh)) (Name_ obj) (Digest__ obj)
    (Tags_ obj) (storage w2) = (st3, Some e) →
  runGCCycle bh (start st)
    = (Some ("failed to delete manifest " +:+ Digest__ obj +:+ ": " +:+ e),
       {| storage := st3; trace := trace w2 ++ [removalOf obj] |}).
Proof.
  intros HM Hmark Harr Hpre Hfail.
  apply (runGCCycle_manifest_error bh service _ v w1 _ _ HM Hmark).
  rewrite Harr, (removeManifests_app _ pre (obj :: post) w1 w2 Hpre).
  simpl. run_monad. rewrite Hfail. reflexivity.
Qed.

(** C6, as the code has it.  After a completed mark phase and the
    removal of every pending manifest, the run enumerates blobs only
    when the repository has a blob enumerator that reports repository
    scope: then it calls [RemoveRepositoryBlob], under the
    repository's name, on exactly the enumerated digests that are not
    in the mark set, in order, and fails only by a failure of the
    enumeration.  With no such enumerator the run ends there: no blob
    is enumerated and none removed. *)
Theorem blob_sweep_only_when_scoped bh st service v w1 w2 :
  Manifests (Repository_ bh) = Ok service →
  markAllManifests bh service noMarks (start st) = ((v, None), w1) →
  removeManifests (NewVacuum (driver bh)) (manifestArr v) w1 = (None, w2) →
  trace w2 = trace w1 ++ (removalOf <$> manifestArr v)
  ∧ match RepositoryBlobsEnumerator (Repository_ bh) with
    | Some bs =>
        if IsScopped bs then
          trace (runGCCycle bh (start st)).2
            = trace w2 ++ CallEnumerateBlobs ::
                (CallRemoveRepositoryBlob (Name (Repository_ bh))
                   <$> filter (λ D, D ∉ markSet v)
                         (walked (Blobs bs (storage w2))))
          ∧ (runGCCycle bh (start st)).1
            = (λ e, "failed to delete blobs " +:+ e)
                <$> walkError (Blobs bs (storage w2))
        else runGCCycle bh (start st) = (None, w2)
    | None => runGCCycle bh (start st) = (None, w2)
    end.
Proof.
  intros HM Hmark Hrm. split.
  - destruct (removeManifests_run (NewVacuum (driver bh)) (manifestArr v) w1)
      as (k & Htr & Hk).
    rewrite Hrm in Htr, Hk. simpl in Htr, Hk.
    rewrite Htr, (Hk eq_refl), firstn_all. reflexivity.
  - rewrite (runGCCycle_sweep bh service _ v w1 w2 HM Hmark Hrm).
    destruct (RepositoryBlobsEnumerator (Repository_ bh)) as [bs|].
    + destruct (IsScopped bs) eqn:Hs.
      * destruct (removeBlobs_scoped bh (NewVacuum (driver bh)) (markSet v)
                    bs w2 Hs) as [Hres Htr]. auto.
      * apply removeBlobs_unscoped. exact Hs.
    + apply removeBlobs_unscoped. exact I.
Qed.

(** C7, as the code has it.  A run that succeeds has looked up the
    tags of exactly the digests that the manifest service of the
    handler's own repository enumerates, each once and in order. *)
Theorem mark_phase_enumerates_own_repository bh st service enum :
  Manifests (Repository_ bh) = Ok service →
  AsEnumerator service = Some enum →
  (runGCCycle bh (start st)).1 = None →
  Ok <$> lookedUp (trace (runGCCycle bh (start st)).2) = enum st.
Proof.
  intros HM HE Hrun.
  destruct (mark_result_eta bh service noMarks (start st))
    as (v & e1 & tmark & Hmark & Htm). simpl in Hmark.
  destruct e1 as [e1|].
  - rewrite (runGCCycle_mark_error bh service _ _ _ _ HM Hmark) in Hrun.
    discriminate.
  - destruct (run_after_mark bh service _ _ _ HM Hmark)
      as (k & tb & Htr & Htb).
    rewrite Htr. simpl. rewrite !lookedUp_app.
    rewrite (lookedUp_none (removalOf <$> _))
      by (apply Forall_fmap, Forall_forall; intros; reflexivity).
    rewrite (lookedUp_none tb)
      by (eapply Forall_impl; [exact Htb|];
          intros e [->|(d & -> & _)]; reflexivity).
    rewrite !app_nil_r.
    destruct (markAllManifests_run bh service enum noMarks (start st) HE)
      as (t & Hw & _ & Hok).
    rewrite Hmark in Hw, Hok. simpl in Hw, Hok. injection Hw as ->.
    destruct (Hok eq_refl) as (Hall & Hlook & _).
    change (lookedUp (CallEnumerateManifests :: t)) with (lookedUp t).
    rewrite Hlook. apply walked_all_ok.
    eapply Forall_impl; [exact Hall|]. intros ? (D & -> & _). eauto.
Qed.









End Claims.

(** *** The theorems at work on the in-memory registry *)

Import fixture.

Ltac in_list := repeat first [apply list_elem_of_here | apply list_elem_of_further].
Ltac not_in_list H :=
  apply list_elem_of_In in H; vm_compute in H;
  repeat (destruct H as [H|H]; [discriminate H|]); exact H.

(** C1 on the application repository: b2, referenced by the tagged
    manifest A, is marked; the untagged manifest B is recorded for
    deletion with the repository's tags. *)
Lemma mark_phase_by_manifest_witness :
  ∃ v' w',
    markAllManifests appCtx (memManifests appContent) noMarks (start appDisk)
      = ((v', None), w')
    ∧ "sha256:b2" ∈ markSet v'
    ∧ {| Name_ := "library/app"; Digest__ := "sha256:B";
         Tags_ := ["latest"] |} ∈ manifestArr v'.
Proof.
  set (r := markAllManifests appCtx (memManifests appContent) noMarks
              (start appDisk)).
  assert (Hrun : r = ((r.1.1, None), r.2)) by (vm_compute; reflexivity).
  exists r.1.1, r.2. split; [exact Hrun|].
  assert (HA : Ok "sha256:A" ∈ (Ok <$> revisions appDisk : list (result Digest)))
    by (simpl; in_list).
  assert (HB : Ok "sha256:B" ∈ (Ok <$> revisions appDisk : list (result Digest)))
    by (simpl; in_list).
  destruct (mark_phase_by_manifest appCtx (memManifests appContent)
              "sha256:A" noMarks (start appDisk)) as (_ & _ & HphaseA).
  destruct (HphaseA _ _ _ eq_refl Hrun HA) as (Htagged & _ & _).
  destruct (mark_phase_by_manifest appCtx (memManifests appContent)
              "sha256:B" noMarks (start appDisk)) as (_ & _ & HphaseB).
  destruct (HphaseB _ _ _ eq_refl Hrun HB) as (_ & Huntagged & _).
  split.
  - destruct Htagged as (_ & manifest & HG & Hrefs).
    { exists "latest", []. reflexivity. }
    injection HG as <-.
    apply (Hrefs (mkDescriptor "" 0 "sha256:b2")). simpl. in_list.
  - destruct Huntagged as (allTags & Hall & Hin); [reflexivity|].
    injection Hall as <-. exact Hin.
Defined.

(** C2 as stated fails.  The manifest list L is tagged and references
    the manifest M, which has no tag and references the layer c1; the
    run removes M as a manifest and c1 as a blob, both reachable from
    L. *)
Lemma reachability_not_transitive :
  tagged (Repository_ listCtx) listDisk "sha256:L"
  ∧ references (memManifests listContent) listDisk "sha256:L" "sha256:M"
  ∧ references (memManifests listContent) listDisk "sha256:M" "sha256:c1"
  ∧ CallRemoveManifest "library/multi" "sha256:M" ["latest"]
      ∈ trace (runGCCycle listCtx (start listDisk)).2
  ∧ CallRemoveRepositoryBlob "library/multi" "sha256:c1"
      ∈ trace (runGCCycle listCtx (start listDisk)).2
  ∧ ¬ reachability_sound listCtx listDisk.
Proof.
  assert (Hin : Ok "sha256:L" ∈ (Ok <$> revisions listDisk : list (result Digest)))
    by (simpl; in_list).
  assert (Htag : tagged (Repository_ listCtx) listDisk "sha256:L")
    by (exists "latest", []; reflexivity).
  assert (HLM : references (memManifests listContent) listDisk
                  "sha256:L" "sha256:M").
  { eexists _, (mkDescriptor "" 0 "sha256:M").
    split; [reflexivity|split; [simpl; in_list|reflexivity]]. }
  assert (HMc : references (memManifests listContent) listDisk
                  "sha256:M" "sha256:c1").
  { eexists _, (mkDescriptor "" 0 "sha256:c1").
    split; [reflexivity|split; [simpl; in_list|reflexivity]]. }
  assert (Hblob : CallRemoveRepositoryBlob "library/multi" "sha256:c1"
                    ∈ trace (runGCCycle listCtx (start listDisk)).2)
    by (vm_compute; in_list).
  split; [exact Htag|]. split; [exact HLM|]. split; [exact HMc|].
  split; [vm_compute; in_list|]. split; [exact Hblob|].
  intros Hsound.
  apply (Hsound (memManifests listContent) _ "sha256:L" "sha256:c1"
           eq_refl eq_refl Hin Htag).
  - eapply rtc_l; [exact HLM|]. eapply rtc_l; [exact HMc|]. apply rtc_refl.
  - right. exists "library/multi". exact Hblob.
Qed.

(** C2, as the code has it, on the application repository: the tagged
    manifest A is not deleted and its layer b1 is not removed. *)
Lemma tagged_manifest_direct_references_kept_witness :
  ¬ deleted "sha256:A" (trace (runGCCycle appCtx (start appDisk)).2)
  ∧ CallRemoveRepositoryBlob "library/app" "sha256:b1"
      ∉ trace (runGCCycle appCtx (start appDisk)).2.
Proof.
  assert (Hin : Ok "sha256:A" ∈ (Ok <$> revisions appDisk : list (result Digest)))
    by (simpl; in_list).
  assert (Htag : tagged (Repository_ appCtx) appDisk "sha256:A")
    by (exists "latest", []; reflexivity).
  destruct (tagged_manifest_direct_references_kept appCtx appDisk
              (memManifests appContent) _ "sha256:A" eq_refl eq_refl Hin Htag)
    as [Hkept Hrefs].
  split; [exact Hkept|]. apply Hrefs.
  eexists _, (mkDescriptor "" 0 "sha256:b1").
  split; [reflexivity|split; [simpl; in_list|reflexivity]].
Defined.

(** C3 on the repository whose tags cannot be read: the run stops at
    the first lookup, with the disk as it was. *)
Lemma mark_failure_aborts_run_witness :
  runGCCycle appNoTagsCtx (start appDisk)
    = (Some "failed to mark all manifests: failed to retrieve tags for digest sha256:A: connection reset",
       {| storage := appDisk;
          trace := [CallEnumerateManifests;
                    CallLookup (digestOnly "sha256:A")] |})
  ∧ ∃ e, (markAllManifests appNoTagsCtx (memManifests appContent) noMarks
            (start appDisk)).1.2 = Some e.
Proof.
  destruct (mark_failure_aborts_run appNoTagsCtx appDisk
              (memManifests appContent) eq_refl)
    as (Habort & Hfail & _ & _).
  split.
  - refine (proj1 (Habort noMarks _ _ _)). vm_compute. reflexivity.
  - apply (Hfail _ eq_refl). left. exists "sha256:A".
    split; [simpl; in_list|]. intros Hr. exact Hr.
Defined.

(** C4 on the application repository: the removal of b3 is in the
    sweep part, so the mark part is the completed mark phase over both
    manifests. *)
Lemma sweep_strictly_after_mark_witness :
  ∃ v tmark,
    markAllManifests appCtx (memManifests appContent) noMarks (start appDisk)
      = ((v, None), {| storage := appDisk; trace := tmark |})
    ∧ lookedUp tmark = ["sha256:A"; "sha256:B"].
Proof.
  destruct (sweep_strictly_after_mark appCtx appDisk)
    as (tmark & tsweep & Htr & Hmark & _ & Hdel).
  assert (Hin : CallRemoveRepositoryBlob "library/app" "sha256:b3" ∈ tsweep).
  { assert (H : CallRemoveRepositoryBlob "library/app" "sha256:b3"
                  ∈ tmark ++ tsweep)
      by (rewrite <- Htr; vm_compute; in_list).
    apply elem_of_app in H as [H|H]; [|exact H].
    rewrite Forall_forall in Hmark. destruct (Hmark _ H) as [Hm _].
    discriminate Hm. }
  destruct (Hdel _ Hin eq_refl)
    as (service & enum & v & HM & HE & Hrun & _ & Hlook).
  injection HM as <-. injection HE as <-.
  exists v, tmark. split; [exact Hrun|exact Hlook].
Defined.


(** C5 at the failing input.  The repository holds the unmarked blob
    b3 and the vacuum cannot remove blobs: [RemoveRepositoryBlob] is
    called on b3 and fails, b3 stays stored, and yet the run reports
    success and the trigger answers 200. *)
Lemma blob_removal_failure_is_dropped :
  (RemoveRepositoryBlob (NewVacuum (driver appStuckCtx))
     "library/app" "sha256:b3" appDisk).2 = Some "permission denied"
  ∧ CallRemoveRepositoryBlob "library/app" "sha256:b3"
      ∈ trace (runGCCycle appStuckCtx (start appDisk)).2
  ∧ "sha256:b3" ∈ layers (storage (runGCCycle appStuckCtx (start appDisk)).2)
  ∧ (runGCCycle appStuckCtx (start appDisk)).1 = None
  ∧ http.status (Recycle appStuckCtx http.NewRecorder (start appDisk)).1
      = Some http.StatusOK.
Proof.
  split; [reflexivity|]. split; [vm_compute; in_list|].
  split; [vm_compute; in_list|]. split; vm_compute; reflexivity.
Qed.

(** On storage that cannot be written the run ends at the first
    [RemoveManifest], before any blob is enumerated. *)
Lemma manifest_removal_failure_stops_sweep_witness :
  runGCCycle appReadOnlyCtx (start appDisk)
    = (Some "failed to delete manifest sha256:B: permission denied",
       {| storage := appDisk;
          trace :=
            [CallEnumerateManifests;
             CallLookup (digestOnly "sha256:A");
             Stdout ("library/app: marking manifest sha256:A " +:+ LF);
             CallGet "sha256:A";
             Stdout ("library/app: marking blob sha256:b1" +:+ LF);
             Stdout ("library/app: marking blob sha256:b2" +:+ LF);
             CallLookup (digestOnly "sha256:B");
             Stdout ("manifest eligible for deletion: sha256:B" +:+ LF);
             CallAll;
             CallRemoveManifest "library/app" "sha256:B" ["latest"]] |}).
Proof.
  set (r := markAllManifests appReadOnlyCtx (memManifests appContent) noMarks
              (start appDisk)).
  assert (Hmark : r = ((r.1.1, None), r.2)) by (vm_compute; reflexivity).
  rewrite (manifest_removal_failure_stops_sweep appReadOnlyCtx appDisk
             (memManifests appContent) _ _ []
             {| Name_ := "library/app"; Digest__ := "sha256:B";
                Tags_ := ["latest"] |} [] r.2 appDisk "permission denied"
             eq_refl Hmark);
    [vm_compute; reflexivity|vm_compute; reflexivity|reflexivity|reflexivity].
Defined.

(** C6 as stated fails.  On global blob storage the enumerator lists
    the unmarked blob b3; the run succeeds, removes the pending manifest
    B and stops: no blob is enumerated, none removed, b3 stays. *)
Lemma global_blobs_are_not_swept :
  IsScopped (memBlobs false) = false
  ∧ runGCCycle appGlobalCtx (start appDisk)
    = (None,
       {| storage :=
            {| revisions := ["sha256:A"];
               layers := ["sha256:A"; "sha256:B"; "sha256:b1"; "sha256:b2";
                          "sha256:b3"] |};
          trace :=
            [CallEnumerateManifests;
             CallLookup (digestOnly "sha256:A");
             Stdout ("library/app: marking manifest sha256:A " +:+ LF);
             CallGet "sha256:A";
             Stdout ("library/app: marking blob sha256:b1" +:+ LF);
             Stdout ("library/app: marking blob sha256:b2" +:+ LF);
             CallLookup (digestOnly "sha256:B");
             Stdout ("manifest eligible for deletion: sha256:B" +:+ LF);
             CallAll;
             CallRemoveManifest "library/app" "sha256:B" ["latest"]] |})
  ∧ ¬ sweeps_all_blobs_in_scope appGlobalCtx appDisk.
Proof.
  split; [reflexivity|]. split; [vm_compute; reflexivity|].
  intros Hsweep.
  set (r := markAllManifests appGlobalCtx (memManifests appContent) noMarks
              (start appDisk)).
  assert (Hmark : r = ((r.1.1, None), r.2)) by (vm_compute; reflexivity).
  set (r' := removeManifests (NewVacuum (driver appGlobalCtx))
               (manifestArr r.1.1) r.2).
  assert (Hrm : r' = (None, r'.2)) by (vm_compute; reflexivity).
  assert (Hin : CallRemoveRepositoryBlob "library/app" "sha256:b3"
                  ∈ trace (runGCCycle appGlobalCtx (start appDisk)).2).
  { apply (Hsweep (memManifests appContent) _ _ _ (memBlobs false)
             "sha256:b3" eq_refl Hmark Hrm eq_refl).
    - vm_compute. in_list.
    - apply (bool_decide_unpack _). vm_compute. exact I. }
  not_in_list Hin.
Qed.

(** C6, as the code has it, on the application repository with scoped
    blobs: the whole trace of the run. *)
Lemma blob_sweep_only_when_scoped_witness :
  trace (runGCCycle appCtx (start appDisk)).2
    = [CallEnumerateManifests;
       CallLookup (digestOnly "sha256:A");
       Stdout ("library/app: marking manifest sha256:A " +:+ LF);
       CallGet "sha256:A";
       Stdout ("library/app: marking blob sha256:b1" +:+ LF);
       Stdout ("library/app: marking blob sha256:b2" +:+ LF);
       CallLookup (digestOnly "sha256:B");
       Stdout ("manifest eligible for deletion: sha256:B" +:+ LF);
       CallAll;
       CallRemoveManifest "library/app" "sha256:B" ["latest"];
       CallEnumerateBlobs;
       CallRemoveRepositoryBlob "library/app" "sha256:B";
       CallRemoveRepositoryBlob "library/app" "sha256:b3"]
  ∧ (runGCCycle appCtx (start appDisk)).1 = None.
Proof.
  set (r := markAllManifests appCtx (memManifests appContent) noMarks
              (start appDisk)).
  assert (Hmark : r = ((r.1.1, None), r.2)) by (vm_compute; reflexivity).
  set (r' := removeManifests (NewVacuum (driver appCtx))
               (manifestArr r.1.1) r.2).
  assert (Hrm : r' = (None, r'.2)) by (vm_compute; reflexivity).
  destruct (blob_sweep_only_when_scoped appCtx appDisk
              (memManifests appContent) _ _ _ eq_refl Hmark Hrm)
    as [_ [Htrace Hres]].
  split.
  - rewrite Htrace. vm_compute. reflexivity.
  - rewrite Hres. vm_compute. reflexivity.
Defined.

(** C7 as stated fails.  The namespace holds a second repository whose
    manifest service enumerates the manifest O; the run on the first
    repository succeeds having looked up A and B only. *)
Lemma other_repositories_are_not_marked :
  (runGCCycle appCtx (start appDisk)).1 = None
  ∧ lookedUp (trace (runGCCycle appCtx (start appDisk)).2)
    = ["sha256:A"; "sha256:B"]
  ∧ ¬ marks_whole_namespace [appRepo true; otherRepo] appCtx appDisk.
Proof.
  split; [vm_compute; reflexivity|]. split; [vm_compute; reflexivity|].
  intros Hall.
  assert (Hin : "sha256:O"
                  ∈ lookedUp (trace (runGCCycle appCtx (start appDisk)).2)).
  { eapply (Hall otherRepo _ _ "sha256:O").
    - in_list.
    - reflexivity.
    - reflexivity.
    - simpl. in_list.
    - vm_compute. reflexivity. }
  not_in_list Hin.
Qed.

(** C7, as the code has it: the run on the application repository
    looks up its two manifests and nothing else. *)
Lemma mark_phase_enumerates_own_repository_witness :
  Ok <$> lookedUp (trace (runGCCycle appCtx (start appDisk)).2)
    = [Ok "sha256:A"; Ok "sha256:B"].
Proof.
  apply (mark_phase_enumerates_own_repository appCtx appDisk
           (memManifests appContent) _ eq_refl eq_refl).
  vm_compute. reflexivity.
Defined.
End housekeeping_facts.

(** * Properties of registry construction and scoping *)

Module registry_facts.
Import storage registry_spec.

Ltac run_heap :=
  unfold mbind, H_bind, mret, H_ret, new in *; simpl in *.

Lemma getRegistry_run h l r :
  h !! l = Some (ORegistry r) → getRegistry l h = Some (r, h).
Proof. intros Hl. unfold getRegistry, load. run_heap. rewrite Hl. done. Qed.

Lemma getOptions_run h l o :
  h !! l = Some (ORegistryOptions o) → getOptions l h = Some (o, h).
Proof. intros Hl. unfold getOptions, load. run_heap. rewrite Hl. done. Qed.

Lemma getBlobStore_run h l s :
  h !! l = Some (OBlobStore s) → getBlobStore l h = Some (s, h).
Proof. intros Hl. unfold getBlobStore, load. run_heap. rewrite Hl. done. Qed.

Lemma newRegistryObjects_run drv h :
  newRegistryObjects drv h =
    Some (4 + length h,
          h ++ [ ORegistryOptions
                   {| repositoryBlobStoreEnabled := false;
                      globalBlobStoreEnabled := true;
                      redirect := false |};
                 OBlobStatter {| st_driver := drv;
                                 st_options := length h;
                                 st_repositoryScope := "" |};
                 OBlobStore {| bs_driver := drv;
                               bs_statter := 1 + length h;
                               bs_options := length h;
                               bs_repositoryScope := "" |};
                 OBlobServer {| srv_driver := drv;
                                srv_statter := 1 + length h;
                                srv_pathFn := 2 + length h;
                                srv_options := length h |};
                 ORegistry
                   {| globalBlobStore := 2 + length h;
                      globalBlobServer := 3 + length h;
                      globalStatter := 1 + length h;
                      globalBlobDescriptorCacheProvider := None;
                      options := length h;
                      deleteEnabled := false;
                      schema1Enabled := false;
                      resumableDigestEnabled := true;
                      schema1SigningKey := None;
                      blobDescriptorServiceFactory := None;
                      manifestURLs_ := {| allow := None; deny := None |};
                      driver := drv |} ]).
Proof.
  unfold newRegistryObjects. run_heap.
  rewrite !length_app. simpl.
  replace (length h + 1) with (1 + length h) by lia.
  replace (1 + length h + 1) with (2 + length h) by lia.
  replace (2 + length h + 1) with (3 + length h) by lia.
  replace (3 + length h + 1) with (4 + length h) by lia.
  rewrite <- !app_assoc. reflexivity.
Qed.

Lemma applyOptions_app_ok pre post reg h0 h1 r :
  applyOptions pre reg h0 = Some (Ok r, h1) →
  r = reg ∧ applyOptions (pre ++ post) reg h0 = applyOptions post reg h1.
Proof.
  revert h0. induction pre as [|opt pre IH]; intros h0 Hpre; simpl in *.
  - run_heap. injection Hpre as -> ->. done.
  - run_heap. destruct (opt reg h0) as [[[e|] h']|]; try discriminate.
    apply IH. exact Hpre.
Qed.

Lemma applyOptions_cons_ok opt rest reg h0 h1 :
  opt reg h0 = Some (None, h1) →
  applyOptions (opt :: rest) reg h0 = applyOptions rest reg h1.
Proof. intros Hopt. simpl. unfold mbind, H_bind. rewrite Hopt. done. Qed.

Lemma applyOptions_cons_err opt rest reg h0 h1 e :
  opt reg h0 = Some (Some e, h1) →
  applyOptions (opt :: rest) reg h0 = Some (Err e, h1).
Proof. intros Hopt. simpl. unfold mbind, H_bind. rewrite Hopt. done. Qed.

(** C9.  With no option, [NewRegistry] returns a registry whose blob
    storage is global and not repository-scoped, with redirect, delete
    and schema1 off and digest resumption on.  Options run in the order
    given, each on the registry as the one before left it, and the
    first option that returns an error ends [NewRegistry] with that
    error and no registry; later options do not run. *)
Theorem NewRegistry_defaults_and_options c drv h :
  ∃ reg h' r o,
    NewRegistry c drv [] h = Some (Ok reg, h')
    ∧ h' !! reg = Some (ORegistry r)
    ∧ h' !! options r = Some (ORegistryOptions o)
    ∧ globalBlobStoreEnabled o = true
    ∧ repositoryBlobStoreEnabled o = false
    ∧ redirect o = false
    ∧ deleteEnabled r = false
    ∧ schema1Enabled r = false
    ∧ resumableDigestEnabled r = true
    ∧ (∀ opts, NewRegistry c drv opts h = applyOptions opts reg h')
    ∧ (∀ pre opt h1 h2,
         NewRegistry c drv pre h = Some (Ok reg, h1) →
         opt reg h1 = Some (None, h2) →
         NewRegistry c drv (pre ++ [opt]) h = Some (Ok reg, h2))
    ∧ (∀ pre opt post h1 h2 e,
         NewRegistry c drv pre h = Some (Ok reg, h1) →
         opt reg h1 = Some (Some e, h2) →
         NewRegistry c drv (pre ++ opt :: post) h = Some (Err e, h2)).
Proof.
  pose proof (newRegistryObjects_run drv h) as Hnew.
  assert (HNR : ∀ opts, NewRegistry c drv opts h
                        = applyOptions opts (4 + length h)
                            (h ++ [ ORegistryOptions
                   {| repositoryBlobStoreEnabled := false;
                      globalBlobStoreEnabled := true;
                      redirect := false |};
                 OBlobStatter {| st_driver := drv;
                                 st_options := length h;
                                 st_repositoryScope := "" |};
                 OBlobStore {| bs_driver := drv;
                               bs_statter := 1 + length h;
                               bs_options := length h;
                               bs_repositoryScope := "" |};
                 OBlobServer {| srv_driver := drv;
                                srv_statter := 1 + length h;
                                srv_pathFn := 2 + length h;
                                srv_options := length h |};
                 ORegistry
                   {| globalBlobStore := 2 + length h;
                      globalBlobServer := 3 + length h;
                      globalStatter := 1 + length h;
                      globalBlobDescriptorCacheProvider := None;
                      options := length h;
                      deleteEnabled := false;
                      schema1Enabled := false;
                      resumableDigestEnabled := true;
                      schema1SigningKey := None;
                      blobDescriptorServiceFactory := None;
                      manifestURLs_ := {| allow := None; deny := None |};
                      driver := drv |} ])).
  { intros opts. unfold NewRegistry. unfold mbind, H_bind. rewrite Hnew.
    reflexivity. }
  eexists (4 + length h), _, _, _.
  split; [rewrite HNR; reflexivity|].
  split.
  { rewrite lookup_app_r by lia.
    replace (4 + length h - length h) with 4 by lia. reflexivity. }
  split.
  { simpl. rewrite lookup_app_r by lia.
    replace (length h - length h) with 0 by lia. reflexivity. }
  do 6 (split; [reflexivity|]).
  split; [exact HNR|]. split.
  - intros pre opt h1 h2 Hpre Hopt. rewrite HNR in *.
    destruct (applyOptions_app_ok pre [opt] _ _ _ _ Hpre) as [_ ->].
    rewrite (applyOptions_cons_ok _ _ _ _ _ Hopt). reflexivity.
  - intros pre opt post h1 h2 e Hpre Hopt. rewrite HNR in *.
    destruct (applyOptions_app_ok pre (opt :: post) _ _ _ _ Hpre) as [_ ->].
    exact (applyOptions_cons_err _ _ _ _ _ _ Hopt).
Qed.

(** C9 with three options, the second failing: delete is enabled,
    schema1 is not, and the error is the result. *)
Lemma NewRegistry_defaults_and_options_witness :
  NewRegistry "ctx" "inmemory"
    [EnableDelete; (λ _, mret (Some "unsupported option")); EnableSchema1] []
  = Some (Err "unsupported option",
          [ ORegistryOptions
              {| repositoryBlobStoreEnabled := false;
                 globalBlobStoreEnabled := true;
                 redirect := false |};
            OBlobStatter {| st_driver := "inmemory"; st_options := 0;
                            st_repositoryScope := "" |};
            OBlobStore {| bs_driver := "inmemory"; bs_statter := 1;
                          bs_options := 0; bs_repositoryScope := "" |};
            OBlobServer {| srv_driver := "inmemory"; srv_statter := 1;
                           srv_pathFn := 2; srv_options := 0 |};
            ORegistry
              {| globalBlobStore := 2;
                 globalBlobServer := 3;
                 globalStatter := 1;
                 globalBlobDescriptorCacheProvider := None;
                 options := 0;
                 deleteEnabled := true;
                 schema1Enabled := false;
                 resumableDigestEnabled := true;
                 schema1SigningKey := None;
                 blobDescriptorServiceFactory := None;
                 manifestURLs_ := {| allow := None; deny := None |};
                 driver := "inmemory" |} ]).
Proof.
  destruct (NewRegistry_defaults_and_options "ctx" "inmemory" [])
    as (reg & h' & r & o & Hnew & _ & _ & _ & _ & _ & _ & _ & _ & _ & _ & Herr).
  vm_compute in Hnew. injection Hnew as <- <-.
  eapply (Herr [EnableDelete] _ [EnableSchema1]);
    [vm_compute; reflexivity|reflexivity].
Defined.

(** *** Scoped and global stores of a repository *)

Section Scoping.
Variable repo : repository.
Variable h : heap.
Variable r : registry.
Variable o : registryOptions.
Hypothesis Hreg : h !! registry_ repo = Some (ORegistry r).
Hypothesis Hopt : h !! options r = Some (ORegistryOptions o).

Lemma registry_kept ext : (h ++ ext) !! registry_ repo = Some (ORegistry r).
Proof. apply lookup_app_l_Some. exact Hreg. Qed.

Lemma options_kept ext : (h ++ ext) !! options r = Some (ORegistryOptions o).
Proof. apply lookup_app_l_Some. exact Hopt. Qed.

Lemma scopedBlobStatter_global :
  repositoryBlobStoreEnabled o = false →
  scopedBlobStatter repo h = Some (globalStatter r, h).
Proof.
  intros Hoff. unfold scopedBlobStatter, mbind, H_bind.
  rewrite (getRegistry_run _ _ _ Hreg), (getOptions_run _ _ _ Hopt), Hoff.
  reflexivity.
Qed.

Lemma scopedBlobStore_global :
  repositoryBlobStoreEnabled o = false →
  scopedBlobStore repo h = Some (globalBlobStore r, h).
Proof.
  intros Hoff. unfold scopedBlobStore, mbind, H_bind.
  rewrite (getRegistry_run _ _ _ Hreg), (getOptions_run _ _ _ Hopt), Hoff.
  reflexivity.
Qed.

Lemma scopedBlobServer_global :
  repositoryBlobStoreEnabled o = false →
  scopedBlobServer repo h = Some (globalBlobServer r, h).
Proof.
  intros Hoff. unfold scopedBlobServer, mbind, H_bind.
  rewrite (getRegistry_run _ _ _ Hreg), (getOptions_run _ _ _ Hopt), Hoff.
  reflexivity.
Qed.

Lemma scopedBlobStatter_scoped ext :
  repositoryBlobStoreEnabled o = true →
  scopedBlobStatter repo (h ++ ext) =
    Some (length (h ++ ext),
          (h ++ ext) ++
            [OBlobStatter {| st_driver := driver r;
                             st_options := options r;
                             st_repositoryScope := name repo |}]).
Proof.
  intros Hon. unfold scopedBlobStatter, mbind, H_bind.
  rewrite (getRegistry_run _ _ _ (registry_kept ext)),
    (getOptions_run _ _ _ (options_kept ext)), Hon.
  reflexivity.
Qed.

Lemma scopedBlobStore_scoped ext :
  repositoryBlobStoreEnabled o = true →
  scopedBlobStore repo (h ++ ext) =
    Some (1 + length (h ++ ext),
          (h ++ ext) ++
            [OBlobStatter {| st_driver := driver r;
                             st_options := options r;
                             st_repositoryScope := name repo |};
             OBlobStore {| bs_driver := driver r;
                           bs_statter := length (h ++ ext);
                           bs_options := options r;
                           bs_repositoryScope := name repo |}]).
Proof.
  intros Hon. unfold scopedBlobStore, mbind, H_bind.
  rewrite (getRegistry_run _ _ _ (registry_kept ext)),
    (getOptions_run _ _ _ (options_kept ext)), Hon.
  rewrite (scopedBlobStatter_scoped ext Hon). unfold new.
  rewrite length_app. simpl. rewrite <- app_assoc. simpl.
  do 2 f_equal. lia.
Qed.

Lemma scopedBlobServer_scoped ext :
  repositoryBlobStoreEnabled o = true →
  scopedBlobServer repo (h ++ ext) =
    Some (2 + length (h ++ ext),
          (h ++ ext) ++
            [OBlobStatter {| st_driver := driver r;
                             st_options := options r;
                             st_repositoryScope := name repo |};
             OBlobStore {| bs_driver := driver r;
                           bs_statter := length (h ++ ext);
                           bs_options := options r;
                           bs_repositoryScope := name repo |};
             OBlobServer {| srv_driver := driver r;
                            srv_statter := length (h ++ ext);
                            srv_pathFn := 1 + length (h ++ ext);
                            srv_options := options r |}]).
Proof.
  intros Hon. unfold scopedBlobServer, mbind, H_bind.
  rewrite (getRegistry_run _ _ _ (registry_kept ext)),
    (getOptions_run _ _ _ (options_kept ext)), Hon.
  rewrite (scopedBlobStore_scoped ext Hon).
  erewrite getBlobStore_run; last first.
  { rewrite lookup_app_r by lia.
    replace (1 + length (h ++ ext) - length (h ++ ext)) with 1 by lia.
    reflexivity. }
  unfold new. rewrite length_app. simpl. rewrite <- app_assoc. simpl.
  do 2 f_equal. lia.
Qed.
End Scoping.

Lemma lookup_second (pre post : heap) a b :
  (pre ++ a :: b :: post) !! (1 + length pre) = Some b.
Proof.
  change (pre ++ a :: b :: post) with (pre ++ [a] ++ b :: post).
  rewrite app_assoc.
  replace (1 + length pre) with (length (pre ++ [a]))
    by (rewrite length_app; simpl; lia).
  apply list_lookup_middle. reflexivity.
Qed.

(** A statter and a store on it, allocated one after the other beyond
    a heap that extends [h], make a fresh scoped store. *)
Lemma fresh_store_at (h pre post : heap) drv opts scope :
  h `prefix_of` pre →
  fresh_scoped_store h
    (pre ++
       OBlobStatter {| st_driver := drv; st_options := opts;
                       st_repositoryScope := scope |}
       :: OBlobStore {| bs_driver := drv; bs_statter := length pre;
                        bs_options := opts; bs_repositoryScope := scope |}
       :: post)
    (1 + length pre) scope.
Proof.
  intros Hpre. pose proof (prefix_length _ _ Hpre) as Hlen.
  split; [apply lookup_ge_None; lia|].
  split; [etrans; [exact Hpre|apply prefix_app_r; done]|].
  exists {| bs_driver := drv; bs_statter := length pre;
            bs_options := opts; bs_repositoryScope := scope |},
         {| st_driver := drv; st_options := opts;
            st_repositoryScope := scope |}.
  split; [apply lookup_second|]. split; [reflexivity|].
  split; [apply lookup_ge_None; simpl; lia|].
  split; [apply list_lookup_middle; reflexivity|reflexivity].
Qed.

(** The services of a repository, by the storage flag of its
    registry. *)
Lemma services_by_scope (repo : repository) c h r o :
  h !! registry_ repo = Some (ORegistry r) →
  h !! options r = Some (ORegistryOptions o) →
  (repositoryBlobStoreEnabled o = false →
     scopedBlobStatter repo h = Some (globalStatter r, h)
     ∧ Tags repo c h
         = Some ({| ts_repository := repo;
                    ts_blobStore := globalBlobStore r |}, h)
     ∧ (∃ ms, Manifests repo c [] h = Some (Ok ms, h)
              ∧ Forall (works_on repo (globalBlobStore r)
                          [manifestRevisionLinkPath; blobLinkPath])
                  (storesOf ms))
     ∧ (∃ bs, Blobs repo c h = Some (bs, h)
              ∧ works_on repo (globalBlobStore r) [blobLinkPath] bs
              ∧ lbs_blobServer bs = Some (globalBlobServer r)))
  ∧ (repositoryBlobStoreEnabled o = true →
       (∃ ts h', Tags repo c h = Some (ts, h')
                 ∧ ts_repository ts = repo
                 ∧ fresh_scoped_store h h' (ts_blobStore ts) (name repo))
       ∧ (∃ ms h', Manifests repo c [] h = Some (Ok ms, h')
                   ∧ fresh_scoped_store h h'
                       (lbs_blobStore (ms_blobStore ms)) (name repo)
                   ∧ Forall (works_on repo (lbs_blobStore (ms_blobStore ms))
                               [manifestRevisionLinkPath; blobLinkPath])
                       (storesOf ms))
       ∧ (∃ bs srv h', Blobs repo c h = Some (bs, h')
                       ∧ lbs_blobServer bs = Some srv
                       ∧ fresh_scoped_store h h' (lbs_blobStore bs) (name repo)
                       ∧ fresh_scoped_server h h' srv (name repo)
                       ∧ works_on repo (lbs_blobStore bs) [blobLinkPath] bs)
       ∧ (∀ repo' bs1 h1 bs2 h2,
            registry_ repo' = registry_ repo →
            scopedBlobStore repo h = Some (bs1, h1) →
            scopedBlobStore repo' h1 = Some (bs2, h2) →
            bs1 ≠ bs2
            ∧ fresh_scoped_store h h2 bs1 (name repo)
            ∧ fresh_scoped_store h1 h2 bs2 (name repo'))).
Proof.
  intros Hreg Hopt. split.
  - intros Hoff.
    pose proof (scopedBlobStore_global repo h r o Hreg Hopt Hoff) as Hbs.
    pose proof (scopedBlobServer_global repo h r o Hreg Hopt Hoff) as Hsrv.
    split; [exact (scopedBlobStatter_global repo h r o Hreg Hopt Hoff)|].
    split; [|split].
    + unfold Tags, mbind, H_bind. rewrite Hbs. reflexivity.
    + eexists. unfold Manifests, mbind, H_bind.
      rewrite Hbs, (getRegistry_run _ _ _ Hreg). split; [reflexivity|].
      unfold storesOf, works_on. simpl.
      destruct (blobDescriptorServiceFactory r), (schema1Enabled r);
        repeat constructor.
    + eexists. unfold Blobs, mbind, H_bind.
      rewrite Hbs, Hsrv, (getRegistry_run _ _ _ Hreg).
      split; [reflexivity|]. split; [|reflexivity].
      unfold works_on. simpl.
      destruct (blobDescriptorServiceFactory r), (descriptorCache repo);
        repeat constructor.
  - intros Hon.
    pose proof (scopedBlobStore_scoped repo h r o Hreg Hopt [] Hon) as Hbs.
    rewrite app_nil_r in Hbs.
    pose proof (fresh_store_at h h [] (driver r) (options r) (name repo)
                  (reflexivity h)) as Hfresh.
    split; [|split; [|split]].
    + eexists _, _. unfold Tags, mbind, H_bind. rewrite Hbs.
      split; [reflexivity|]. split; [reflexivity|exact Hfresh].
    + eexists _, _. unfold Manifests, mbind, H_bind. rewrite Hbs.
      rewrite (getRegistry_run _ _ _ (registry_kept repo h r Hreg _)).
      split; [reflexivity|]. split; [exact Hfresh|].
      unfold storesOf, works_on. simpl.
      destruct (blobDescriptorServiceFactory r), (schema1Enabled r);
        repeat constructor.
    + match type of Hbs with _ = Some (_, h ++ ?e) =>
        pose proof (scopedBlobServer_scoped repo h r o Hreg Hopt e Hon) as Hsrv
      end.
      eexists _, _, _. unfold Blobs, mbind, H_bind. rewrite Hbs, Hsrv.
      erewrite getRegistry_run;
        [|apply lookup_app_l_Some, registry_kept; exact Hreg].
      split; [reflexivity|]. split; [reflexivity|]. simpl.
      rewrite <- app_assoc. simpl.
      split; [exact (fresh_store_at h h _ _ _ _ (reflexivity h))|].
      split; [|unfold works_on; simpl;
               destruct (blobDescriptorServiceFactory r),
                 (descriptorCache repo); repeat constructor].
      pose proof (fresh_store_at h
                    (h ++ [OBlobStatter {| st_driver := driver r;
                                           st_options := options r;
                                           st_repositoryScope := name repo |};
                           OBlobStore {| bs_driver := driver r;
                                         bs_statter := length h;
                                         bs_options := options r;
                                         bs_repositoryScope := name repo |}])
                    [OBlobServer
                       {| srv_driver := driver r;
                          srv_statter := length (h ++
                            [OBlobStatter {| st_driver := driver r;
                                             st_options := options r;
                                             st_repositoryScope := name repo |};
                             OBlobStore {| bs_driver := driver r;
                                           bs_statter := length h;
                                           bs_options := options r;
                                           bs_repositoryScope := name repo |}]);
                          srv_pathFn := 1 + length (h ++
                            [OBlobStatter {| st_driver := driver r;
                                             st_options := options r;
                                             st_repositoryScope := name repo |};
                             OBlobStore {| bs_driver := driver r;
                                           bs_statter := length h;
                                           bs_options := options r;
                                           bs_repositoryScope := name repo |}]);
                          srv_options := options r |}]
                    (driver r) (options r) (name repo)
                    (prefix_app_r _ _ _ (reflexivity h))) as Hfresh2.
      rewrite <- app_assoc in Hfresh2. simpl in Hfresh2.
      rewrite !length_app in *. simpl in *.
      split; [apply lookup_ge_None; lia|].
      eexists. split.
      { replace (S (S (length h + 2))) with (length h + 4) by lia.
        rewrite lookup_app_r by lia.
        replace (length h + 4 - length h) with 4 by lia. reflexivity. }
      simpl. split; [exact Hfresh2|].
      eexists. split.
      { replace (S (length h + 2)) with (length h + 3) by lia.
        rewrite lookup_app_r by lia.
        replace (length h + 3 - length h) with 3 by lia. reflexivity. }
      reflexivity.
    + intros repo' bs1 h1 bs2 h2 Hsame Hfirst Hsecond.
      rewrite Hbs in Hfirst. injection Hfirst as <- <-.
      rewrite <- Hsame in Hreg.
      match type of Hsecond with scopedBlobStore _ (h ++ ?e) = _ =>
        pose proof (scopedBlobStore_scoped repo' h r o Hreg Hopt e Hon) as Hbs'
      end.
      rewrite Hbs' in Hsecond. injection Hsecond as <- <-.
      split; [rewrite length_app; simpl; lia|]. split.
      * rewrite <- app_assoc. simpl.
        exact (fresh_store_at h h _ _ _ _ (reflexivity h)).
      * exact (fresh_store_at _ _ [] _ _ _ (reflexivity _)).
Qed.
End registry_facts.

(** * More properties of the housekeeping handler *)

Module housekeeping_more.
Import distribution handlers gc gc_calls housekeeping_facts.

Section More.
Context {St : Type}.
Implicit Types (bh : Context St) (w : World St) (v : MarkVars).
Implicit Types (st : St) (dgst D M : Digest).

(** The loop over the references prints one line per descriptor and
    does nothing else to the world. *)
Lemma markDescriptors_prints bh descriptors v w :
  markDescriptors bh descriptors v w =
    ({| manifestArr := manifestArr v;
        markSet := list_to_set (Digest_ <$> descriptors) ∪ markSet v |},
     {| storage := storage w;
        trace := trace w ++
          ((λ d, Stdout ((Name (Repository_ bh) +:+ ": marking blob "
                          +:+ Digest_ d) +:+ LF)) <$> descriptors) |}).
Proof.
  revert v w. induction descriptors as [|d ds IH]; intros v w.
  - destruct v, w; run_monad. rewrite app_nil_r. do 2 f_equal. set_solver.
  - simpl. run_monad. rewrite IH. simpl. rewrite <- app_assoc. simpl.
    do 2 f_equal. set_solver.
Qed.

(** The calls of one run of the ingester, by the tags of the digest. *)
Lemma markIngester_calls bh service D v w :
  ∃ t, (markIngester bh service D v w).2 =
         {| storage := storage w; trace := trace w ++ t |}
    ∧ lookedUp t = [D]
    ∧ fetched t = (if hasTags (Repository_ bh) (storage w) D then [D] else [])
    ∧ listings t = (if hasNoTags (Repository_ bh) (storage w) D then 1 else 0)
    ∧ manifestRemovals t = [].
Proof.
  unfold hasTags, hasNoTags.
  destruct (Lookup (Tags (Repository_ bh)) (storage w) (digestOnly D))
    as [[|tag tags]|err] eqn:HL.
  - destruct (All (Tags (Repository_ bh)) (storage w)) as [allTags|err] eqn:HA.
    + rewrite (markIngester_untagged bh service D v w allTags HL HA).
      eexists. split; [reflexivity|]. repeat split.
    + rewrite (markIngester_all_error bh service D v w err HL HA).
      eexists. split; [reflexivity|]. repeat split.
  - destruct (Get service (storage w) D) as [manifest|err] eqn:HG.
    + unfold markIngester, markManifest. simpl. run_monad.
      rewrite HL. simpl. rewrite HG. rewrite markDescriptors_prints. simpl.
      rewrite <- !app_assoc. simpl.
      eexists. split; [reflexivity|].
      assert (Hnone : ∀ (f : event → option Digest) ds,
                 (∀ line, f (Stdout line) = None) →
                 omap f ((λ d, Stdout ((Name (Repository_ bh)
                           +:+ ": marking blob " +:+ Digest_ d) +:+ LF))
                         <$> ds) = []).
      { intros f ds Hf. induction ds as [|d ds IH]; [reflexivity|].
        simpl. rewrite Hf. exact IH. }
      unfold lookedUp, fetched, listings, manifestRemovals. simpl.
      rewrite !Hnone by reflexivity.
      repeat split.
      * clear. induction (References manifest); [reflexivity|]. simpl. assumption.
      * clear. induction (References manifest); [reflexivity|]. simpl. assumption.
    + rewrite (markIngester_get_error bh service D v w tag tags err HL HG).
      eexists. split; [reflexivity|]. repeat split.
  - rewrite (markIngester_lookup_error bh service D v w err HL).
    eexists. split; [reflexivity|]. repeat split.
Qed.

Lemma mark_enumerate_calls bh service items v w :
  ∃ t, (Enumerate items (markIngester bh service) v w).2 =
         {| storage := storage w; trace := trace w ++ t |}
    ∧ lookedUp t `prefix_of` walked items
    ∧ fetched t
      = filter (λ D, hasTags (Repository_ bh) (storage w) D = true) (lookedUp t)
    ∧ listings t
      = length (filter (λ D, hasNoTags (Repository_ bh) (storage w) D = true)
                  (lookedUp t))
    ∧ manifestRemovals t = [].
Proof.
  revert v w. induction items as [|[D|err] items IH]; intros v w.
  - exists []. simpl. run_monad. rewrite app_nil_r. destruct w. done.
  - simpl. unfold mbind, M_bind.
    destruct (markIngester_calls bh service D v w)
      as (t1 & Hw & Hl1 & Hf1 & Hn1 & Hr1).
    destruct (markIngester bh service D v w) as [[v1 e1] w1].
    simpl in Hw. subst w1.
    assert (Hhead :
      fetched t1
        = filter (λ D, hasTags (Repository_ bh) (storage w) D = true) (lookedUp t1)
      ∧ listings t1
        = length (filter (λ D, hasNoTags (Repository_ bh) (storage w) D = true)
                    (lookedUp t1))).
    { rewrite Hl1, Hf1, Hn1. split.
      - destruct (hasTags _ _ D) eqn:E.
        + rewrite filter_cons_True by exact E. reflexivity.
        + rewrite filter_cons_False by congruence. reflexivity.
      - destruct (hasNoTags _ _ D) eqn:E.
        + rewrite filter_cons_True by exact E. reflexivity.
        + rewrite filter_cons_False by congruence. reflexivity. }
    destruct Hhead as [Hf1' Hn1'].
    destruct e1 as [e|].
    + exists t1. unfold mret, M_ret. simpl.
      split; [reflexivity|]. split; [|done].
      rewrite Hl1. apply prefix_cons, prefix_nil.
    + match goal with |- context [Enumerate items _ ?v' ?w'] =>
        destruct (IH v' w') as (t2 & Hw2 & Hp2 & Hf2 & Hn2 & Hr2) end.
      simpl in *. exists (t1 ++ t2). rewrite Hw2, <- app_assoc.
      split; [reflexivity|].
      unfold lookedUp, fetched, listings, manifestRemovals in *.
      rewrite !omap_app, !filter_app, !length_app.
      rewrite Hf1', Hf2, Hn1', Hn2, Hr1, Hr2.
      repeat split. rewrite Hl1. simpl. apply prefix_cons. exact Hp2.
  - exists []. simpl. run_monad. rewrite app_nil_r. destruct w. done.
Qed.

Lemma sweep_calls (t : list event) :
  Forall (λ e, is_mark_event e = false) t →
  lookedUp t = [] ∧ fetched t = [] ∧ listings t = 0.
Proof.
  induction 1 as [|e t He _ (IH1 & IH2 & IH3)]; [done|].
  destruct e; try discriminate; done.
Qed.

(** X2.  The reads of a run.  Whatever its outcome, a run looks up the tags
    of the digests its repository's manifest service enumerates, in
    order, up to the one at which it stops; it fetches exactly those of
    them that have a tag and lists all tags once for each that has
    none.  An untagged manifest is never fetched. *)
Theorem reads_follow_the_tags bh st service enum :
  Manifests (Repository_ bh) = Ok service →
  AsEnumerator service = Some enum →
  lookedUp (trace (runGCCycle bh (start st)).2) `prefix_of` walked (enum st)
  ∧ fetched (trace (runGCCycle bh (start st)).2)
    = filter (λ D, hasTags (Repository_ bh) st D = true)
        (lookedUp (trace (runGCCycle bh (start st)).2))
  ∧ listings (trace (runGCCycle bh (start st)).2)
    = length (filter (λ D, hasNoTags (Repository_ bh) st D = true)
                (lookedUp (trace (runGCCycle bh (start st)).2))).
Proof.
  intros HM HE.
  assert (Hmark : ∃ v e t,
            markAllManifests bh service noMarks (start st)
              = ((v, e), {| storage := st; trace := CallEnumerateManifests :: t |})
            ∧ lookedUp t `prefix_of` walked (enum st)
            ∧ fetched t
              = filter (λ D, hasTags (Repository_ bh) st D = true) (lookedUp t)
            ∧ listings t
              = length (filter (λ D, hasNoTags (Repository_ bh) st D = true)
                          (lookedUp t))).
  { unfold markAllManifests. rewrite HE. run_monad.
    match goal with |- context [Enumerate ?items _ ?v ?w'] =>
      destruct (mark_enumerate_calls bh service items v w')
        as (t & Hw & Hp & Hf & Hn & _);
      destruct (Enumerate items (markIngester bh service) v w')
        as [[v' e'] w''] end.
    simpl in *. subst. eauto 10. }
  destruct Hmark as (v & e & t & Hmark & Hp & Hf & Hn).
  destruct e as [e|].
  - rewrite (runGCCycle_mark_error bh service _ _ _ _ HM Hmark). simpl.
    auto.
  - destruct (run_after_mark bh service _ _ _ HM Hmark)
      as (k & tb & Htr & Htb).
    rewrite Htr. simpl trace.
    destruct (sweep_calls ((removalOf <$> take k (manifestArr v)) ++ tb))
      as (Hs1 & Hs2 & Hs3).
    { apply Forall_app. split.
      - apply Forall_fmap, Forall_forall. intros; reflexivity.
      - eapply Forall_impl; [exact Htb|].
        intros e [->|(d & -> & _)]; reflexivity. }
    remember ((removalOf <$> take k (manifestArr v)) ++ tb) as s eqn:Es.
    clear Es Htr Htb.
    unfold lookedUp, fetched, listings in *.
    rewrite !omap_app, !length_app, Hs1, Hs2. simpl.
    rewrite !app_nil_r. simpl in Hs3. rewrite Hs3, Nat.add_0_r. auto.
Qed.

Lemma manifestRemovals_app (t1 t2 : list event) :
  manifestRemovals (t1 ++ t2) = manifestRemovals t1 ++ manifestRemovals t2.
Proof. apply omap_app. Qed.

Lemma manifestRemovals_mark (t : list event) :
  Forall (λ e, is_mark_event e = true) t → manifestRemovals t = [].
Proof.
  induction 1 as [|e t He _ IH]; [reflexivity|].
  destruct e; try discriminate; exact IH.
Qed.

Lemma manifestRemovals_removalOf (arr : list ManifestDel) :
  manifestRemovals (removalOf <$> arr) = arr.
Proof.
  induction arr as [|[name dgst tags] arr IH]; [reflexivity|].
  simpl. unfold manifestRemovals in *. simpl. f_equal. exact IH.
Qed.

Lemma manifestRemovals_blobs (name : string) (tb : list event) (P : Digest → Prop) :
  Forall (λ e, e = CallEnumerateBlobs
               ∨ ∃ d, e = CallRemoveRepositoryBlob name d ∧ P d) tb →
  manifestRemovals tb = [].
Proof.
  induction 1 as [|e t [->|(d & -> & _)] _ IH]; [reflexivity|exact IH|exact IH].
Qed.

(** The pending deletions of a completed mark phase started on the
    empty list. *)
Lemma pending_of_completed_mark bh service enum st v w1 :
  AsEnumerator service = Some enum →
  markAllManifests bh service noMarks (start st) = ((v, None), w1) →
  manifestArr v = walked (enum st) ≫= pendingOf (Repository_ bh) st.
Proof.
  intros HE Hmark.
  destruct (markAllManifests_run bh service enum noMarks (start st) HE)
    as (t & _ & _ & Hok).
  rewrite Hmark in Hok. simpl in Hok.
  destruct (Hok eq_refl) as (_ & _ & ->). reflexivity.
Qed.

(** X3.  The manifests a run removes.  [RemoveManifest] is called on the
    manifests that the repository's manifest service enumerates and
    that have no tag, in enumeration order, each with the repository's
    name and the list of all its tags, and on nothing else; a run that
    succeeds has called it on every one of them. *)
Theorem untagged_manifests_are_removed bh st service enum :
  Manifests (Repository_ bh) = Ok service →
  AsEnumerator service = Some enum →
  manifestRemovals (trace (runGCCycle bh (start st)).2)
    `prefix_of` (walked (enum st) ≫= pendingOf (Repository_ bh) st)
  ∧ ((runGCCycle bh (start st)).1 = None →
       manifestRemovals (trace (runGCCycle bh (start st)).2)
         = walked (enum st) ≫= pendingOf (Repository_ bh) st
       ∧ ∀ D, Ok D ∈ enum st →
           Lookup (Tags (Repository_ bh)) st (digestOnly D) = Ok [] →
           ∃ allTags, All (Tags (Repository_ bh)) st = Ok allTags
             ∧ CallRemoveManifest (Name (Repository_ bh)) D allTags
                 ∈ trace (runGCCycle bh (start st)).2).
Proof.
  intros HM HE.
  destruct (mark_result_eta bh service noMarks (start st))
    as (v & e1 & tmark & Hmark & Htm). simpl in Hmark.
  destruct e1 as [e1|].
  { rewrite (runGCCycle_mark_error bh service _ _ _ _ HM Hmark). simpl.
    rewrite (manifestRemovals_mark _ Htm).
    split; [apply prefix_nil|discriminate]. }
  pose proof (pending_of_completed_mark bh service enum st v _ HE Hmark) as Harr.
  destruct (removeManifests_run (NewVacuum (driver bh)) (manifestArr v)
              {| storage := st; trace := tmark |}) as (k & Hk & Hall).
  destruct (removeManifests (NewVacuum (driver bh)) (manifestArr v)
              {| storage := st; trace := tmark |}) as [[e|] w2] eqn:Hrm;
    simpl in Hk, Hall.
  - rewrite (runGCCycle_manifest_error bh service _ v _ e w2 HM Hmark Hrm).
    simpl. rewrite Hk, manifestRemovals_app, (manifestRemovals_mark _ Htm),
      manifestRemovals_removalOf. simpl.
    split; [|discriminate]. rewrite <- Harr. apply prefix_take.
  - specialize (Hall eq_refl). subst k. rewrite firstn_all in Hk.
    destruct (run_after_mark bh service _ _ _ HM Hmark)
      as (k' & tb & Htr & Htb).
    assert (Hrem : manifestRemovals (trace (runGCCycle bh (start st)).2)
                   = manifestArr v).
    { rewrite (runGCCycle_sweep bh service _ v _ w2 HM Hmark Hrm).
      destruct (RepositoryBlobsEnumerator (Repository_ bh)) as [bs|].
      - destruct (IsScopped bs) eqn:Hs.
        + destruct (removeBlobs_scoped bh (NewVacuum (driver bh)) (markSet v)
                      bs w2 Hs) as [_ Hb].
          rewrite Hb, Hk.
          change (?a ++ CallEnumerateBlobs :: ?b)
            with (a ++ [CallEnumerateBlobs] ++ b).
          rewrite !manifestRemovals_app, (manifestRemovals_mark _ Htm),
            manifestRemovals_removalOf. simpl.
          assert (∀ l : list Digest,
                    manifestRemovals
                      (CallRemoveRepositoryBlob (Name (Repository_ bh)) <$> l)
                    = []) as ->.
          { induction l; [reflexivity|assumption]. }
          rewrite app_nil_r. reflexivity.
        + rewrite removeBlobs_unscoped by exact Hs. simpl. rewrite Hk.
          rewrite manifestRemovals_app, (manifestRemovals_mark _ Htm),
            manifestRemovals_removalOf. reflexivity.
      - rewrite removeBlobs_unscoped by exact I. simpl. rewrite Hk.
        rewrite manifestRemovals_app, (manifestRemovals_mark _ Htm),
          manifestRemovals_removalOf. reflexivity. }
    rewrite Hrem, Harr. split; [reflexivity|]. intros _.
    split; [reflexivity|]. intros D HD HL.
    destruct (markAllManifests_run bh service enum noMarks (start st) HE)
      as (t & _ & _ & Hok).
    rewrite Hmark in Hok. simpl in Hok.
    destruct (Hok eq_refl) as (Hread & _ & _).
    rewrite Forall_forall in Hread.
    destruct (Hread _ HD) as (D' & Heq & Hr). injection Heq as <-.
    unfold readable in Hr. rewrite HL in Hr. destruct Hr as [allTags HA].
    exists allTags. split; [exact HA|].
    assert (Hobj : {| Name_ := Name (Repository_ bh); Digest__ := D;
                      Tags_ := allTags |}
                     ∈ manifestRemovals (trace (runGCCycle bh (start st)).2)).
    { rewrite Hrem, Harr. apply list_elem_of_bind. exists D.
      split; [unfold pendingOf; rewrite HL, HA; left|].
      apply walked_elem; [|exact HD].
      apply Forall_forall. intros item Hitem.
      destruct (Hread _ Hitem) as (D' & -> & _). eauto. }
    unfold manifestRemovals in Hobj.
    apply list_elem_of_omap in Hobj as (e & He & Heq).
    destruct e; try discriminate. injection Heq as -> -> ->. exact He.
Qed.

Lemma blob_removal_needs_scope bh st name d :
  CallRemoveRepositoryBlob name d ∈ trace (runGCCycle bh (start st)).2 →
  ∃ bs, RepositoryBlobsEnumerator (Repository_ bh) = Some bs
        ∧ IsScopped bs = true.
Proof.
  intros Hin.
  destruct (Manifests (Repository_ bh)) as [service|err] eqn:HM;
    [|unfold runGCCycle in Hin; rewrite HM in Hin; inversion Hin].
  destruct (mark_result_eta bh service noMarks (start st))
    as (v & e1 & tmark & Hmark & Htm). simpl in Hmark.
  assert (Hnot : ∀ arr : list ManifestDel,
            CallRemoveRepositoryBlob name d ∉ tmark ++ (removalOf <$> arr)).
  { intros arr Hc. apply elem_of_app in Hc as [Hc|Hc].
    - rewrite Forall_forall in Htm. specialize (Htm _ Hc). discriminate.
    - apply list_elem_of_fmap in Hc as (obj & Hc & _). discriminate. }
  destruct e1 as [e1|].
  { rewrite (runGCCycle_mark_error bh service _ _ _ _ HM Hmark) in Hin.
    simpl in Hin. exfalso. apply (Hnot []). simpl. rewrite app_nil_r. exact Hin. }
  destruct (removeManifests_run (NewVacuum (driver bh)) (manifestArr v)
              {| storage := st; trace := tmark |}) as (k & Hk & _).
  destruct (removeManifests (NewVacuum (driver bh)) (manifestArr v)
              {| storage := st; trace := tmark |}) as [[e|] w2] eqn:Hrm;
    simpl in Hk.
  - rewrite (runGCCycle_manifest_error bh service _ v _ e w2 HM Hmark Hrm) in Hin.
    simpl in Hin. rewrite Hk in Hin. exfalso. exact (Hnot _ Hin).
  - rewrite (runGCCycle_sweep bh service _ v _ w2 HM Hmark Hrm) in Hin.
    destruct (RepositoryBlobsEnumerator (Repository_ bh)) as [bs|].
    + destruct (IsScopped bs) eqn:Hs; [eauto|].
      rewrite removeBlobs_unscoped in Hin by exact Hs. simpl in Hin.
      rewrite Hk in Hin. exfalso. exact (Hnot _ Hin).
    + rewrite removeBlobs_unscoped in Hin by exact I. simpl in Hin.
      rewrite Hk in Hin. exfalso. exact (Hnot _ Hin).
Qed.

(** X4.  Every deleting call of a run stays in the handler's repository.  A
    [RemoveManifest] is made under the repository's own name, on a
    digest its manifest service enumerated and its tag service found
    without a tag, with the list of all its tags; a
    [RemoveRepositoryBlob] is made under the repository's own name, and
    only when its blob enumerator reports repository scope. *)
Theorem deleting_calls_stay_in_repository bh st e :
  e ∈ trace (runGCCycle bh (start st)).2 →
  is_removal e = true →
  (∃ D allTags service enum,
     e = CallRemoveManifest (Name (Repository_ bh)) D allTags
     ∧ Manifests (Repository_ bh) = Ok service
     ∧ AsEnumerator service = Some enum
     ∧ Ok D ∈ enum st
     ∧ Lookup (Tags (Repository_ bh)) st (digestOnly D) = Ok []
     ∧ All (Tags (Repository_ bh)) st = Ok allTags)
  ∨ (∃ D bs,
       e = CallRemoveRepositoryBlob (Name (Repository_ bh)) D
       ∧ RepositoryBlobsEnumerator (Repository_ bh) = Some bs
       ∧ IsScopped bs = true).
Proof.
  intros Hin Hrem.
  destruct (removal_in_run bh st e Hin Hrem)
    as (service & enum & v & tmark & HM & HE & Hmark & Hcase).
  destruct Hcase as [(obj & Hobj & ->)|(d & -> & _)].
  - left.
    destruct (pending_is_untagged bh service enum (start st) v _ obj
                HE Hmark Hobj) as (HL & Hname & HA & Henum).
    exists (Digest__ obj), (Tags_ obj), service, enum.
    unfold removalOf. rewrite Hname. auto 10.
  - right. destruct (blob_removal_needs_scope bh st _ _ Hin) as (bs & HB & Hs).
    eauto.
Qed.

(** X5.  A run that cannot start makes no call.  When the repository cannot
    construct its manifest service, or the service cannot enumerate,
    the run fails with the matching error in the world it found: no
    tag, manifest or blob is read and nothing is removed.  These are the
    only runs that leave no trace. *)
Theorem run_without_calls bh st :
  (∀ err, Manifests (Repository_ bh) = Err err →
     runGCCycle bh (start st)
       = (Some ("failed to construct manifest service: " +:+ err), start st))
  ∧ (∀ service, Manifests (Repository_ bh) = Ok service →
       AsEnumerator service = None →
       runGCCycle bh (start st)
         = (Some "failed to mark all manifests: unable to convert ManifestService into ManifestEnumerator",
            start st))
  ∧ (trace (runGCCycle bh (start st)).2 = [] →
       (∃ err, Manifests (Repository_ bh) = Err err)
       ∨ ∃ service, Manifests (Repository_ bh) = Ok service
                    ∧ AsEnumerator service = None).
Proof.
  split; [|split].
  - intros err HM. unfold runGCCycle. rewrite HM. reflexivity.
  - intros service HM HE.
    apply (runGCCycle_mark_error bh service _ noMarks).
    + exact HM.
    + unfold markAllManifests. rewrite HE. reflexivity.
  - intros Hempty.
    destruct (Manifests (Repository_ bh)) as [service|err] eqn:HM; [|eauto].
    right. exists service. split; [reflexivity|].
    destruct (AsEnumerator service) as [enum|] eqn:HE; [|reflexivity].
    exfalso.
    destruct (markAllManifests_run bh service enum noMarks (start st) HE)
      as (t & Hw & _ & _).
    destruct (markAllManifests bh service noMarks (start st))
      as [[v [e|]] w1] eqn:Hmark; simpl in Hw; subst w1.
    + rewrite (runGCCycle_mark_error bh service _ _ _ _ HM Hmark) in Hempty.
      discriminate.
    + destruct (run_after_mark bh service _ _ _ HM Hmark)
        as (k & tb & Htr & _).
      rewrite Htr in Hempty. discriminate.
Qed.

Lemma mark_enumerate_ok bh service items v w :
  Forall (λ item, ∃ D, item = Ok D
                       ∧ readable (Repository_ bh) service (storage w) D) items →
  (Enumerate items (markIngester bh service) v w).1.2 = None.
Proof.
  intros Hall. revert v w Hall.
  induction items as [|item items IH]; intros v w Hall; [reflexivity|].
  apply Forall_cons in Hall as [(D & -> & Hr) Hall].
  simpl. unfold mbind, M_bind.
  destruct (markIngester_run bh service D v w) as (t & _ & Hw & Hok & _).
  specialize (Hok Hr).
  destruct (markIngester bh service D v w) as [[v1 e1] w1].
  simpl in Hw, Hok. injection Hok as -> ->. subst w1.
  apply IH. exact Hall.
Qed.

Lemma walked_Permutation (items items' : list (result Digest)) :
  items ≡ₚ items' →
  Forall (λ item, ∃ D, item = Ok D) items →
  walked items ≡ₚ walked items'.
Proof.
  induction 1 as [|x l l' Hperm IH|x y l|l l' l'' Hperm1 IH1 Hperm2 IH2];
    intros Hall.
  - reflexivity.
  - apply Forall_cons in Hall as [[D ->] Hall]. simpl.
    constructor. apply IH. exact Hall.
  - apply Forall_cons in Hall as [[Dy ->] Hall].
    apply Forall_cons in Hall as [[Dx ->] Hall]. simpl. constructor.
  - etrans; [apply IH1; exact Hall|]. apply IH2.
    rewrite <- Hperm1. exact Hall.
Qed.

(** X6.  The order of the enumeration does not matter to the mark phase.
    When a manifest service hands out the same digests in another
    order, a mark phase that completes on the one completes on the
    other, with the same mark set and the same manifests recorded for
    deletion, these in the other order. *)
Theorem mark_phase_order_independent
    bh service service' enum enum' v w v1 w1 :
  AsEnumerator service = Some enum →
  AsEnumerator service' = Some enum' →
  Get service' = Get service →
  enum' (storage w) ≡ₚ enum (storage w) →
  markAllManifests bh service v w = ((v1, None), w1) →
  ∃ v2 w2,
    markAllManifests bh service' v w = ((v2, None), w2)
    ∧ markSet v2 = markSet v1
    ∧ manifestArr v2 ≡ₚ manifestArr v1.
Proof.
  intros HE HE' HG Hperm Hmark.
  destruct (markAllManifests_run bh service enum v w HE) as (t & _ & _ & Hok).
  rewrite Hmark in Hok. simpl in Hok.
  destruct (Hok eq_refl) as (Hall & _ & ->). clear Hok.
  assert (Hread : ∀ D, readable (Repository_ bh) service' (storage w) D
                       ↔ readable (Repository_ bh) service (storage w) D).
  { intros D. unfold readable. rewrite HG. reflexivity. }
  assert (Hall' : Forall (λ item, ∃ D, item = Ok D
                    ∧ readable (Repository_ bh) service' (storage w) D)
                    (enum' (storage w))).
  { rewrite Hperm. eapply Forall_impl; [exact Hall|].
    intros item (D & -> & Hr). exists D. split; [reflexivity|].
    apply Hread. exact Hr. }
  destruct (markAllManifests_run bh service' enum' v w HE')
    as (t' & _ & _ & Hok').
  assert (Hnone : (markAllManifests bh service' v w).1.2 = None).
  { unfold markAllManifests. rewrite HE'. unfold mbind, M_bind, query.
    apply mark_enumerate_ok. exact Hall'. }
  destruct (Hok' Hnone) as (_ & _ & Hv2).
  destruct (markAllManifests bh service' v w) as [[v2 e2] w2].
  simpl in Hnone, Hv2. subst e2 v2.
  eexists _, _. split; [reflexivity|]. simpl.
  assert (Hwalk : walked (enum' (storage w)) ≡ₚ walked (enum (storage w))).
  { apply walked_Permutation; [exact Hperm|].
    eapply Forall_impl; [exact Hall'|]. intros ? (D & -> & _). eauto. }
  split.
  - f_equal. unfold marksOf. rewrite HG. rewrite Hwalk. reflexivity.
  - rewrite Hwalk. reflexivity.
Qed.

Lemma sweep_enumerate_marked bh (vacuum : Vacuum St) (marks : gset Digest)
    items w :
  (∀ d, d ∈ walked items → d ∈ marks) →
  Enumerate items (sweepIngester bh vacuum marks) tt w
    = ((tt, walkError items), w).
Proof.
  revert w. induction items as [|[d|err] items IH]; intros w Hin.
  - reflexivity.
  - simpl. unfold mbind, M_bind. rewrite sweepIngester_run.
    rewrite decide_True by (apply Hin; left).
    apply IH. intros d' Hd'. apply Hin. right. exact Hd'.
  - reflexivity.
Qed.

(** X7.  A run on a repository with nothing to collect changes nothing.
    When every enumerated manifest has a tag and can be fetched, and
    every blob a scoped enumerator lists is such a manifest or
    referenced by one, the run removes nothing: no deleting call is
    made and the persisted state is as it was.  It fails only if the
    blob enumeration itself fails. *)
Theorem clean_repository_is_left_alone bh st service enum :
  Manifests (Repository_ bh) = Ok service →
  AsEnumerator service = Some enum →
  Forall (λ item, ∃ D, item = Ok D
            ∧ tagged (Repository_ bh) st D
            ∧ ∃ manifest, Get service st D = Ok manifest) (enum st) →
  (∀ bs D, RepositoryBlobsEnumerator (Repository_ bh) = Some bs →
     IsScopped bs = true →
     D ∈ walked (Blobs bs st) →
     ∃ M, Ok M ∈ enum st ∧ (D = M ∨ references service st M D)) →
  storage (runGCCycle bh (start st)).2 = st
  ∧ Forall (λ e, is_removal e = false) (trace (runGCCycle bh (start st)).2)
  ∧ (runGCCycle bh (start st)).1
    = match RepositoryBlobsEnumerator (Repository_ bh) with
      | Some bs =>
          if IsScopped bs
          then (λ e, "failed to delete blobs " +:+ e)
                 <$> walkError (Blobs bs st)
          else None
      | None => None
      end.
Proof.
  intros HM HE Hall Hblobs.
  assert (Hread : Forall (λ item, ∃ D, item = Ok D
                    ∧ readable (Repository_ bh) service st D) (enum st)).
  { eapply Forall_impl; [exact Hall|].
    intros item (D & -> & (tag & tags & HL) & HG). exists D.
    split; [reflexivity|]. unfold readable. rewrite HL. exact HG. }
  destruct (mark_result_eta bh service noMarks (start st))
    as (v & e1 & tmark & Hmark & Htm). simpl in Hmark.
  assert (He1 : e1 = None).
  { change e1 with (((v, e1), {| storage := st; trace := tmark |}).1.2).
    rewrite <- Hmark. unfold markAllManifests. rewrite HE.
    unfold mbind, M_bind, query. apply mark_enumerate_ok. exact Hread. }
  subst e1.
  assert (Harr : manifestArr v = []).
  { rewrite (pending_of_completed_mark bh service enum st v _ HE Hmark).
    assert (Hw : Forall (λ D, tagged (Repository_ bh) st D) (walked (enum st))).
    { apply Forall_forall. intros D HD. apply elem_walked in HD.
      rewrite Forall_forall in Hall.
      destruct (Hall _ HD) as (D' & Heq & Ht & _). injection Heq as <-.
      exact Ht. }
    induction Hw as [|D l (tag & tags & HL) _ IH]; [reflexivity|].
    simpl. unfold pendingOf at 1. rewrite HL. exact IH. }
  assert (Hrm : removeManifests (NewVacuum (driver bh)) (manifestArr v)
                  {| storage := st; trace := tmark |}
                = (None, {| storage := st; trace := tmark |}))
    by (rewrite Harr; reflexivity).
  rewrite (runGCCycle_sweep bh service _ v _ _ HM Hmark Hrm).
  pose proof (mark_event_not_removal _ Htm) as Hnorem.
  destruct (RepositoryBlobsEnumerator (Repository_ bh)) as [bs|] eqn:HB.
  - destruct (IsScopped bs) eqn:Hs.
    + unfold removeBlobs. rewrite Hs. unfold mbind, M_bind, query. simpl.
      rewrite sweep_enumerate_marked.
      * destruct (walkError (Blobs bs st)); simpl;
          (split; [reflexivity|split; [|reflexivity]]);
          (apply Forall_app; split; [exact Hnorem|repeat constructor]).
      * intros D HD.
        destruct (Hblobs bs D eq_refl Hs HD) as (M & HMin & HDM).
        apply (mark_set_by_tagged bh service enum noMarks (start st) v _
                 HE Hmark D).
        right. exists M. split; [exact HMin|]. split; [|exact HDM].
        rewrite Forall_forall in Hall.
        destruct (Hall _ HMin) as (D' & Heq & Ht & _). injection Heq as <-.
        exact Ht.
    + rewrite removeBlobs_unscoped by exact Hs. simpl. auto.
  - rewrite removeBlobs_unscoped by exact I. simpl. auto.
Qed.

(** One call of the ingester keeps what was marked and recorded. *)
Lemma markIngester_only_adds bh service D v w :
  markSet v ⊆ markSet (markIngester bh service D v w).1.1
  ∧ manifestArr v `prefix_of` manifestArr (markIngester bh service D v w).1.1.
Proof.
  destruct (Lookup (Tags (Repository_ bh)) (storage w) (digestOnly D))
    as [[|tag tags]|err] eqn:HL.
  - destruct (All (Tags (Repository_ bh)) (storage w)) as [allTags|err] eqn:HA.
    + rewrite (markIngester_untagged bh service D v w allTags HL HA). simpl.
      split; [done|apply prefix_app_r; done].
    + rewrite (markIngester_all_error bh service D v w err HL HA). done.
  - destruct (Get service (storage w) D) as [manifest|err] eqn:HG.
    + destruct (markIngester_tagged bh service D v w tag tags manifest HL HG)
        as (t & _ & ->). simpl. split; [set_solver|done].
    + rewrite (markIngester_get_error bh service D v w tag tags err HL HG).
      simpl. split; [set_solver|done].
  - rewrite (markIngester_lookup_error bh service D v w err HL). done.
Qed.

(** X8.  The mark phase only adds.  Whatever the mark set and the
    list of pending deletions hold when [markAllManifests] is called,
    they still hold it when the call returns, with or without an
    error: a digest once marked stays marked, and the deletions
    already recorded stay recorded, first and in their order. *)
Theorem mark_phase_only_adds bh service v w :
  markSet v ⊆ markSet (markAllManifests bh service v w).1.1
  ∧ manifestArr v
      `prefix_of` manifestArr (markAllManifests bh service v w).1.1.
Proof.
  unfold markAllManifests.
  destruct (AsEnumerator service) as [enum|]; [|done].
  run_monad.
  generalize (enum (storage w)). intros items.
  generalize {| storage := storage w;
                trace := trace w ++ [CallEnumerateManifests] |}.
  clear w. revert v.
  induction items as [|[D|err] items IH]; intros v w; [done| |done].
  simpl. unfold mbind, M_bind.
  destruct (markIngester_only_adds bh service D v w) as (Hset & Harr).
  destruct (markIngester bh service D v w) as [[v1 [e|]] w1];
    simpl in Hset, Harr; [done|].
  destruct (IH v1 w1) as (Hset1 & Harr1).
  split; [set_solver|etrans; eassumption].
Qed.

End More.

Import fixture fixture_gc.

(** X2 on the application repository: both manifests are looked up,
    only the tagged A is fetched, and the tags are listed once, for
    the untagged B. *)
Lemma reads_follow_the_tags_witness :
  lookedUp (trace (runGCCycle appCtx (start appDisk)).2)
    = ["sha256:A"; "sha256:B"]
  ∧ fetched (trace (runGCCycle appCtx (start appDisk)).2) = ["sha256:A"]
  ∧ listings (trace (runGCCycle appCtx (start appDisk)).2) = 1.
Proof.
  destruct (reads_follow_the_tags appCtx appDisk (memManifests appContent) _
              eq_refl eq_refl) as (_ & Hfetched & Hlistings).
  split; [vm_compute; reflexivity|].
  split.
  - rewrite Hfetched. vm_compute. reflexivity.
  - rewrite Hlistings. vm_compute. reflexivity.
Defined.

(** X3 on the application repository: the run succeeds and removes the
    untagged manifest B, with the repository's tags, and no other
    manifest. *)
Lemma untagged_manifests_are_removed_witness :
  manifestRemovals (trace (runGCCycle appCtx (start appDisk)).2)
    = [ {| Name_ := "library/app"; Digest__ := "sha256:B";
           Tags_ := ["latest"] |} ].
Proof.
  destruct (untagged_manifests_are_removed appCtx appDisk
              (memManifests appContent) _ eq_refl eq_refl) as (_ & Hdone).
  destruct (Hdone eq_refl) as (Hremoved & _).
  rewrite Hremoved. vm_compute. reflexivity.
Defined.

(** X4 on the application repository, for the removal of B. *)
Lemma deleting_calls_stay_in_repository_witness :
  CallRemoveManifest "library/app" "sha256:B" ["latest"]
    ∈ trace (runGCCycle appCtx (start appDisk)).2
  ∧ ((∃ D allTags service enum,
        CallRemoveManifest "library/app" "sha256:B" ["latest"]
          = CallRemoveManifest (Name (Repository_ appCtx)) D allTags
        ∧ Manifests (Repository_ appCtx) = Ok service
        ∧ AsEnumerator service = Some enum
        ∧ Ok D ∈ enum appDisk
        ∧ Lookup (Tags (Repository_ appCtx)) appDisk (digestOnly D) = Ok []
        ∧ All (Tags (Repository_ appCtx)) appDisk = Ok allTags)
     ∨ (∃ D bs,
          CallRemoveManifest "library/app" "sha256:B" ["latest"]
            = CallRemoveRepositoryBlob (Name (Repository_ appCtx)) D
          ∧ RepositoryBlobsEnumerator (Repository_ appCtx) = Some bs
          ∧ IsScopped bs = true)).
Proof.
  assert (Hin : CallRemoveManifest "library/app" "sha256:B" ["latest"]
                  ∈ trace (runGCCycle appCtx (start appDisk)).2)
    by (vm_compute; in_list).
  split; [exact Hin|].
  exact (deleting_calls_stay_in_repository appCtx appDisk _ Hin eq_refl).
Defined.

(** X6 on the application repository, enumerated from B to A instead of
    from A to B. *)
Lemma mark_phase_order_independent_witness :
  ∃ v1 v2 w2,
    markAllManifests appCtx (reversedManifests appContent) noMarks
      (start appDisk) = ((v2, None), w2)
    ∧ markSet v2 = markSet v1
    ∧ manifestArr v2 ≡ₚ manifestArr v1
    ∧ "sha256:b1" ∈ markSet v1.
Proof.
  set (r := markAllManifests appCtx (memManifests appContent) noMarks
              (start appDisk)).
  assert (Hrun : r = ((r.1.1, None), r.2)) by (vm_compute; reflexivity).
  destruct (mark_phase_order_independent appCtx (memManifests appContent)
              (reversedManifests appContent) _ _ noMarks (start appDisk)
              r.1.1 r.2 eq_refl eq_refl eq_refl)
    as (v2 & w2 & Hrun' & Hset & Harr).
  - simpl. apply perm_swap.
  - exact Hrun.
  - exists r.1.1, v2, w2. repeat (split; [assumption|]).
    vm_compute. reflexivity.
Defined.

(** X7 on the collected application repository: a second run removes
    nothing and succeeds. *)
Lemma clean_repository_is_left_alone_witness :
  storage (runGCCycle (memContext (appRepo true) memVacuum)
             (start cleanDisk)).2 = cleanDisk
  ∧ Forall (λ e, is_removal e = false)
      (trace (runGCCycle appCtx (start cleanDisk)).2)
  ∧ (runGCCycle appCtx (start cleanDisk)).1 = None.
Proof.
  apply (clean_repository_is_left_alone appCtx cleanDisk
           (memManifests appContent) _ eq_refl eq_refl).
  - repeat constructor. exists "sha256:A". split; [reflexivity|].
    split; [exists "latest", []; reflexivity|eexists; reflexivity].
  - intros bs D Hbs _ HD. injection Hbs as <-. exists "sha256:A".
    split; [simpl; in_list|].
    simpl in HD. apply list_elem_of_In in HD. simpl in HD.
    destruct HD as [<-|[<-|[<-|[]]]].
    + left. reflexivity.
    + right. eexists _, (mkDescriptor "" 0 "sha256:b1").
      split; [reflexivity|]. split; [simpl; in_list|reflexivity].
    + right. eexists _, (mkDescriptor "" 0 "sha256:b2").
      split; [reflexivity|]. split; [simpl; in_list|reflexivity].
Defined.
End housekeeping_more.

(** * More properties of registry construction *)

Module registry_more.
Import storage registry_spec registry_conf registry_facts.

Lemma store_run (h : heap) l o0 o :
  h !! l = Some o0 → store l o h = Some (tt, <[l := o]> h).
Proof. intros Hl. unfold store. rewrite Hl. reflexivity. Qed.

Lemma getBlobServer_run (h : heap) l s :
  h !! l = Some (OBlobServer s) → getBlobServer l h = Some (s, h).
Proof. intros Hl. unfold getBlobServer, load. run_heap. rewrite Hl. done. Qed.

Lemma configFor_snoc done opt :
  configFor (done ++ [opt]) = setOption opt (configFor done).
Proof.
  assert (Hmem : ∀ x, bool_decide (x ∈ done ++ [opt])
                      = bool_decide (x ∈ done) || bool_decide (x = opt)).
  { intros x. rewrite <- bool_decide_or. apply bool_decide_ext.
    rewrite elem_of_app, list_elem_of_singleton. done. }
  unfold configFor, lastOf. rewrite !Hmem, !omap_app.
  destruct opt as [| | | | | |re|re|key|f|[p|]]; simpl;
    rewrite ?app_nil_r, ?last_snoc, ?orb_false_r, ?orb_true_r;
    reflexivity.
Qed.

Lemma configOf_layout h reg r o bs srv :
  registry_layout h reg r o bs srv → configOf h reg = Some (readConfig r o).
Proof.
  intros (Hreg & Hopt & _). unfold configOf. rewrite Hreg, Hopt. reflexivity.
Qed.

(** Lookups in a heap after stores and allocations. *)
Ltac heap_lookup :=
  repeat (rewrite list_lookup_insert_ne by (first [congruence | lia]));
  first
    [ assumption
    | rewrite list_lookup_insert_eq
        by (rewrite ?length_insert, ?length_app; simpl; lia);
      reflexivity
    | apply lookup_app_l_Some; assumption
    | apply list_lookup_middle; reflexivity ].

Ltac layout_facts H :=
  let Hreg := fresh "Hreg" in let Hopt := fresh "Hopt" in
  let s := fresh "s" in let Hst := fresh "Hst" in let Eso := fresh "Eso" in
  let Hbs := fresh "Hbs" in let Hsrv := fresh "Hsrv" in
  let Ebo := fresh "Ebo" in let Esr := fresh "Esr" in
  let Epf := fresh "Epf" in let Est := fresh "Est" in
  let Hcache := fresh "Hcache" in
  destruct H as (Hreg & Hopt & (s & Hst & Eso) & Hbs & Hsrv & Ebo & Esr
                 & Epf & Est & Hcache);
  pose proof (lookup_lt_Some _ _ _ Hreg);
  pose proof (lookup_lt_Some _ _ _ Hopt);
  pose proof (lookup_lt_Some _ _ _ Hst);
  pose proof (lookup_lt_Some _ _ _ Hbs);
  pose proof (lookup_lt_Some _ _ _ Hsrv).

(** Writing the options object keeps the layout. *)
Lemma layout_store_options h reg r o bs srv o' :
  registry_layout h reg r o bs srv →
  registry_layout (<[options r := ORegistryOptions o']> h) reg r o' bs srv.
Proof.
  intros L. layout_facts L.
  assert (reg ≠ options r) by congruence.
  assert (globalBlobStore r ≠ options r) by congruence.
  assert (globalBlobServer r ≠ options r) by congruence.
  assert (globalStatter r ≠ options r) by congruence.
  unfold registry_layout. repeat split; try heap_lookup.
  - exists s. split; [heap_lookup|assumption].
  - destruct (globalBlobDescriptorCacheProvider r); [|assumption].
    assert (bs_statter bs ≠ options r) by congruence. heap_lookup.
Qed.

(** Writing the registry struct with the same pointers and cache
    provider keeps the layout. *)
Lemma layout_store_registry h reg r o bs srv r' :
  registry_layout h reg r o bs srv →
  options r' = options r → globalStatter r' = globalStatter r →
  globalBlobStore r' = globalBlobStore r →
  globalBlobServer r' = globalBlobServer r →
  globalBlobDescriptorCacheProvider r'
    = globalBlobDescriptorCacheProvider r →
  registry_layout (<[reg := ORegistry r']> h) reg r' o bs srv.
Proof.
  intros L E1 E2 E3 E4 E5. layout_facts L.
  assert (options r ≠ reg) by congruence.
  assert (globalBlobStore r ≠ reg) by congruence.
  assert (globalBlobServer r ≠ reg) by congruence.
  assert (globalStatter r ≠ reg) by congruence.
  unfold registry_layout. rewrite E1, E2, E3, E4, E5.
  repeat split; try heap_lookup.
  - exists s. split; [heap_lookup|assumption].
  - destruct (globalBlobDescriptorCacheProvider r); [|assumption].
    assert (bs_statter bs ≠ reg) by congruence. heap_lookup.
Qed.

(** Setting a cache provider: one cached statter on the raw global
    statter, shared by the global store and server. *)
Lemma layout_cache_provider h reg r o bs srv p r' :
  registry_layout h reg r o bs srv →
  options r' = options r → globalStatter r' = globalStatter r →
  globalBlobStore r' = globalBlobStore r →
  globalBlobServer r' = globalBlobServer r →
  globalBlobDescriptorCacheProvider r' = Some p →
  registry_layout
    (<[reg := ORegistry r']>
       (<[globalBlobServer r :=
            OBlobServer {| srv_driver := srv_driver srv;
                           srv_statter := length h;
                           srv_pathFn := srv_pathFn srv;
                           srv_options := srv_options srv |}]>
          (<[globalBlobStore r :=
               OBlobStore {| bs_driver := bs_driver bs;
                             bs_statter := length h;
                             bs_options := bs_options bs;
                             bs_repositoryScope := bs_repositoryScope bs |}]>
             (h ++ [OCachedBlobStatter {| cbs_cache := p;
                                          cbs_backend := globalStatter r |}]))))
    reg r' o
    {| bs_driver := bs_driver bs; bs_statter := length h;
       bs_options := bs_options bs;
       bs_repositoryScope := bs_repositoryScope bs |}
    {| srv_driver := srv_driver srv; srv_statter := length h;
       srv_pathFn := srv_pathFn srv; srv_options := srv_options srv |}.
Proof.
  intros L E1 E2 E3 E4 E5. layout_facts L.
  assert (options r ≠ reg) by congruence.
  assert (globalBlobStore r ≠ reg) by congruence.
  assert (globalBlobServer r ≠ reg) by congruence.
  assert (globalStatter r ≠ reg) by congruence.
  assert (globalBlobStore r ≠ globalBlobServer r) by congruence.
  assert (globalBlobStore r ≠ options r) by congruence.
  assert (globalBlobServer r ≠ options r) by congruence.
  assert (globalStatter r ≠ options r) by congruence.
  assert (globalStatter r ≠ globalBlobStore r) by congruence.
  assert (globalStatter r ≠ globalBlobServer r) by congruence.
  unfold registry_layout. rewrite E1, E2, E3, E4, E5. simpl.
  repeat split; try heap_lookup; try assumption.
  exists s. split; [heap_lookup|assumption].
Qed.

(** One option of the file, run on a registry laid out as
    [NewRegistry] builds it: it returns nil, keeps the layout, changes
    the configuration as [setOption] says, and touches no object but the
    registry, its options, and the global store and server. *)
Lemma named_option_step opt h reg r o bs srv :
  registry_layout h reg r o bs srv →
  ∃ h' r' o' bs' srv',
    optionOf opt reg h = Some (None, h')
    ∧ registry_layout h' reg r' o' bs' srv'
    ∧ readConfig r' o' = setOption opt (readConfig r o)
    ∧ options r' = options r
    ∧ globalStatter r' = globalStatter r
    ∧ globalBlobStore r' = globalBlobStore r
    ∧ globalBlobServer r' = globalBlobServer r
    ∧ driver r' = driver r
    ∧ length h' = length h + length (omap pickCacheProvider [opt])
    ∧ (∀ l x, h !! l = Some x → l ≠ reg → l ≠ options r →
         l ≠ globalBlobStore r → l ≠ globalBlobServer r →
         h' !! l = Some x).
Proof.
  intros L. pose proof L as L0. layout_facts L0.
  destruct opt as [| | | | | |re|re|key|f|[p|]]; simpl optionOf.
  11: { unfold BlobDescriptorCacheProvider, new, mbind, H_bind.
    rewrite (getRegistry_run _ _ _ Hreg).
    erewrite getBlobStore_run by (apply lookup_app_l_Some; exact Hbs).
    erewrite store_run by (apply lookup_app_l_Some; exact Hbs).
    assert (globalBlobStore r ≠ globalBlobServer r) by congruence.
    assert (globalBlobStore r ≠ reg) by congruence.
    assert (globalBlobServer r ≠ reg) by congruence.
    erewrite getBlobServer_run
      by (rewrite list_lookup_insert_ne by assumption;
          apply lookup_app_l_Some; exact Hsrv).
    erewrite store_run
      by (rewrite list_lookup_insert_ne by assumption;
          apply lookup_app_l_Some; exact Hsrv).
    erewrite store_run
      by (rewrite !list_lookup_insert_ne by assumption;
          apply lookup_app_l_Some; exact Hreg).
    eexists _, _, o, _, _. split; [reflexivity|].
    split; [apply (layout_cache_provider _ _ _ _ _ _ p _ L); reflexivity|].
    repeat (split; [reflexivity|]).
    split; [rewrite !length_insert, length_app; reflexivity|].
    intros l x Hl ? ? ? ?. heap_lookup. }
  11: { exists h, r, o, bs, srv. unfold BlobDescriptorCacheProvider.
        do 8 (split; [done|]). split; [simpl; lia|auto]. }
  1,3,4: unfold EnableRedirect, EnableRepositoryBlobsStorage,
       DisableGlobalBlobsStorage, mbind, H_bind;
     rewrite (getRegistry_run _ _ _ Hreg), (getOptions_run _ _ _ Hopt);
     erewrite store_run by exact Hopt;
     eexists _, r, _, bs, srv; (split; [reflexivity|]);
     (split; [apply (layout_store_options _ _ _ _ _ _ _ L)|]);
     repeat (split; [reflexivity|]);
     (split; [rewrite length_insert; simpl; lia|]); intros; heap_lookup.
  all: unfold EnableDelete, EnableSchema1, DisableDigestResumption,
       ManifestURLsAllowRegexp, ManifestURLsDenyRegexp, Schema1SigningKey,
       BlobDescriptorServiceFactory, mbind, H_bind;
     rewrite (getRegistry_run _ _ _ Hreg);
     erewrite store_run by exact Hreg;
     eexists _, _, o, bs, srv; (split; [reflexivity|]);
     (split; [apply (layout_store_registry _ _ _ _ _ _ _ L); reflexivity|]);
     repeat (split; [reflexivity|]);
     (split; [rewrite length_insert; simpl; lia|]); intros; heap_lookup.
Qed.

(** The options of a list, one after the other. *)
Lemma named_options_run opts : ∀ h reg r o bs srv,
  registry_layout h reg r o bs srv →
  ∃ h' r' o' bs' srv',
    applyOptions (optionOf <$> opts) reg h = Some (Ok reg, h')
    ∧ registry_layout h' reg r' o' bs' srv'
    ∧ readConfig r' o' = foldl (flip setOption) (readConfig r o) opts
    ∧ options r' = options r
    ∧ globalStatter r' = globalStatter r
    ∧ globalBlobStore r' = globalBlobStore r
    ∧ globalBlobServer r' = globalBlobServer r
    ∧ driver r' = driver r
    ∧ length h' = length h + length (omap pickCacheProvider opts)
    ∧ (∀ l x, h !! l = Some x → l ≠ reg → l ≠ options r →
         l ≠ globalBlobStore r → l ≠ globalBlobServer r →
         h' !! l = Some x).
Proof.
  induction opts as [|opt opts IH]; intros h reg r o bs srv L.
  - exists h, r, o, bs, srv. simpl. do 8 (split; [done|]).
    split; [lia|auto].
  - destruct (named_option_step opt _ _ _ _ _ _ L)
      as (h1 & r1 & o1 & bs1 & srv1 & Hrun & L1 & Hcf & E1 & E2 & E3 & E4
          & E5 & Hlen & Hframe).
    destruct (IH _ _ _ _ _ _ L1)
      as (h2 & r2 & o2 & bs2 & srv2 & Hrun2 & L2 & Hcf2 & F1 & F2 & F3 & F4
          & F5 & Hlen2 & Hframe2).
    exists h2, r2, o2, bs2, srv2.
    split; [rewrite fmap_cons, (applyOptions_cons_ok _ _ _ _ _ Hrun);
            exact Hrun2|].
    split; [exact L2|].
    split; [rewrite Hcf2, Hcf; reflexivity|].
    do 5 (split; [congruence|]).
    split.
    + rewrite Hlen2, Hlen.
      change (opt :: opts) with ([opt] ++ opts).
      rewrite omap_app, length_app. lia.
    + intros l x Hl ? ? ? ?. apply Hframe2; try congruence.
      apply Hframe; assumption.
Qed.

Lemma configFor_foldl opts :
  configFor opts = foldl (flip setOption) (configFor []) opts.
Proof.
  induction opts as [|opt opts IH] using rev_ind; [reflexivity|].
  rewrite configFor_snoc, foldl_app, IH. reflexivity.
Qed.

Lemma prefix_of_lookup {A} (l k : list A) :
  (∀ i x, l !! i = Some x → k !! i = Some x) → l `prefix_of` k.
Proof.
  revert k. induction l as [|a l IH]; intros k Hlk.
  - apply prefix_nil.
  - destruct k as [|b k]; [specialize (Hlk 0 a eq_refl); discriminate|].
    pose proof (Hlk 0 a eq_refl) as Hhd. injection Hhd as ->.
    apply prefix_cons, IH. intros i x Hi. exact (Hlk (S i) x Hi).
Qed.

(** The registry as [NewRegistry] first builds it. *)
Lemma layout_new drv (h : heap) :
  ∃ r o bs srv,
    newRegistryObjects drv h
      = Some (4 + length h,
              h ++ [ORegistryOptions o;
                    OBlobStatter {| st_driver := drv;
                                    st_options := length h;
                                    st_repositoryScope := "" |};
                    OBlobStore bs; OBlobServer srv; ORegistry r])
    ∧ registry_layout
        (h ++ [ORegistryOptions o;
               OBlobStatter {| st_driver := drv; st_options := length h;
                               st_repositoryScope := "" |};
               OBlobStore bs; OBlobServer srv; ORegistry r])
        (4 + length h) r o bs srv
    ∧ readConfig r o = configFor []
    ∧ options r = length h ∧ globalStatter r = 1 + length h
    ∧ globalBlobStore r = 2 + length h ∧ globalBlobServer r = 3 + length h
    ∧ driver r = drv.
Proof.
  eexists _, _, _, _. split; [apply newRegistryObjects_run|].
  assert (Hat : ∀ (n : nat) (pre post : heap) x,
            length pre = n →
            (h ++ pre ++ x :: post) !! (n + length h) = Some x).
  { intros n pre post x <-. rewrite app_assoc.
    replace (length pre + length h) with (length (h ++ pre))
      by (rewrite length_app; lia).
    apply list_lookup_middle. reflexivity. }
  split; [|repeat split].
  unfold registry_layout. simpl.
  split; [exact (Hat 4 [_; _; _; _] [] _ eq_refl)|].
  split; [exact (Hat 0 [] _ _ eq_refl)|].
  split; [eexists; split; [exact (Hat 1 [_] _ _ eq_refl)|reflexivity]|].
  split; [exact (Hat 2 [_; _] _ _ eq_refl)|].
  split; [exact (Hat 3 [_; _; _] _ _ eq_refl)|].
  repeat split.
Qed.

(** [NewRegistry] with options of this file, in full. *)
Lemma NewRegistry_run c drv opts (h : heap) :
  ∃ h' r o bs srv,
    NewRegistry c drv (optionOf <$> opts) h = Some (Ok (4 + length h), h')
    ∧ registry_layout h' (4 + length h) r o bs srv
    ∧ readConfig r o = configFor opts
    ∧ options r = length h ∧ globalStatter r = 1 + length h
    ∧ globalBlobStore r = 2 + length h ∧ globalBlobServer r = 3 + length h
    ∧ driver r = drv
    ∧ length h' = length h + 5 + length (omap pickCacheProvider opts)
    ∧ h `prefix_of` h'
    ∧ h' !! (1 + length h)
        = Some (OBlobStatter {| st_driver := drv; st_options := length h;
                                st_repositoryScope := "" |}).
Proof.
  destruct (layout_new drv h)
    as (r0 & o0 & bs0 & srv0 & Hnew & L0 & Hcf0 & E1 & E2 & E3 & E4 & E5).
  destruct (named_options_run opts _ _ _ _ _ _ L0)
    as (h' & r & o & bs & srv & Hrun & L & Hcf & F1 & F2 & F3 & F4 & F5
        & Hlen & Hframe).
  exists h', r, o, bs, srv.
  split; [unfold NewRegistry, mbind, H_bind; rewrite Hnew; exact Hrun|].
  split; [exact L|].
  split; [rewrite Hcf, Hcf0; symmetry; apply configFor_foldl|].
  do 5 (split; [congruence|]).
  split; [rewrite Hlen, length_app; simpl; lia|].
  split.
  - apply prefix_of_lookup. intros i x Hi.
    pose proof (lookup_lt_Some _ _ _ Hi).
    apply Hframe; [apply lookup_app_l_Some; exact Hi|lia..].
  - apply Hframe; [|lia..].
    change (h ++ ?a :: ?b :: ?rest) with (h ++ [a] ++ b :: rest).
    rewrite app_assoc.
    replace (1 + length h) with (length (h ++ [ORegistryOptions o0]))
      by (rewrite length_app; simpl; lia).
    apply list_lookup_middle. reflexivity.
Qed.


(** The settings of a registry built with [opts], field by field. *)
Lemma readConfig_fields r o opts :
  readConfig r o = configFor opts →
  redirect o = c_redirect (configFor opts)
  ∧ repositoryBlobStoreEnabled o = c_repositoryBlobStore (configFor opts)
  ∧ globalBlobStoreEnabled o = c_globalBlobStore (configFor opts)
  ∧ deleteEnabled r = c_delete (configFor opts)
  ∧ schema1Enabled r = c_schema1 (configFor opts)
  ∧ resumableDigestEnabled r = c_resumableDigest (configFor opts)
  ∧ manifestURLs_ r = {| allow := c_allow (configFor opts);
                         deny := c_deny (configFor opts) |}
  ∧ schema1SigningKey r = c_signingKey (configFor opts)
  ∧ blobDescriptorServiceFactory r = c_factory (configFor opts)
  ∧ globalBlobDescriptorCacheProvider r = c_cacheProvider (configFor opts).
Proof.
  intros E. rewrite <- E. destruct r as [? ? ? ? ? ? ? ? ? ? [? ?] ?].
  simpl. repeat split.
Qed.

(** X9.  Whatever options of this file [NewRegistry] is given, in any
    number and order, it returns a registry and neither fails nor
    dereferences nil.  Each setting of the registry is decided by its
    own options alone: a flag is on (off, for the two [Disable...]
    options) exactly when its option occurs, however often and
    wherever; a regexp, key, factory or cache provider is the one of
    the latest option that sets it, where a nil cache provider is
    passed over; what no option mentions keeps its default.  The
    objects that were on the heap before are left as they were. *)
Theorem NewRegistry_named_options c drv opts (h : heap) :
  ∃ h',
    NewRegistry c drv (optionOf <$> opts) h = Some (Ok (4 + length h), h')
    ∧ configOf h' (4 + length h) = Some (configFor opts)
    ∧ h `prefix_of` h'.
Proof.
  destruct (NewRegistry_run c drv opts h)
    as (h' & r & o & bs & srv & Hrun & L & Hcf & _ & _ & _ & _ & _ & _
        & Hpre & _).
  exists h'. split; [exact Hrun|]. split; [|exact Hpre].
  rewrite (configOf_layout _ _ _ _ _ _ L), Hcf. reflexivity.
Qed.

(** X10.  In the registry [NewRegistry] returns, the registry, the
    global statter, the global blob store and the global blob server
    all point to one options object, so the storage flags the options
    set, also after those services were built, are the flags every one
    of them reads; the server is bound to the path function of the
    global store and serves through the statter the store uses. *)
Theorem global_services_share_options c drv opts (h : heap) :
  ∃ h' r o st bs srv,
    NewRegistry c drv (optionOf <$> opts) h = Some (Ok (4 + length h), h')
    ∧ h' !! (4 + length h) = Some (ORegistry r)
    ∧ h' !! options r = Some (ORegistryOptions o)
    ∧ h' !! globalStatter r = Some (OBlobStatter st)
    ∧ h' !! globalBlobStore r = Some (OBlobStore bs)
    ∧ h' !! globalBlobServer r = Some (OBlobServer srv)
    ∧ st_options st = options r
    ∧ bs_options bs = options r
    ∧ srv_options srv = options r
    ∧ srv_pathFn srv = globalBlobStore r
    ∧ srv_statter srv = bs_statter bs
    ∧ redirect o = bool_decide (OptEnableRedirect ∈ opts)
    ∧ repositoryBlobStoreEnabled o
        = bool_decide (OptEnableRepositoryBlobsStorage ∈ opts)
    ∧ globalBlobStoreEnabled o
        = negb (bool_decide (OptDisableGlobalBlobsStorage ∈ opts)).
Proof.
  destruct (NewRegistry_run c drv opts h)
    as (h' & r & o & bs & srv & Hrun & L & Hcf & _).
  destruct (readConfig_fields _ _ _ Hcf) as (F1 & F2 & F3 & _).
  destruct L as (Hreg & Hopt & (st & Hst & Eso) & Hbs & Hsrv & Ebo & Esr
                 & Epf & Est & _).
  exists h', r, o, st, bs, srv. repeat (split; [assumption|]).
  exact F3.
Qed.

(** X11.  Cache providers do not stack.  Every option with a non-nil
    provider builds one cached statter, and the global blob store and
    server end up sharing the one of the latest such option; its
    backend is always the statter [NewRegistry] built first, never an
    earlier cache.  [GlobalBlobStatter] keeps returning that first
    statter, without any cache, and [GlobalBlobs] the global store. *)
Theorem cache_providers_do_not_stack c drv opts (h : heap) :
  ∃ h' r bs srv,
    NewRegistry c drv (optionOf <$> opts) h = Some (Ok (4 + length h), h')
    ∧ h' !! (4 + length h) = Some (ORegistry r)
    ∧ globalBlobDescriptorCacheProvider r = lastOf pickCacheProvider opts
    ∧ h' !! globalBlobStore r = Some (OBlobStore bs)
    ∧ h' !! globalBlobServer r = Some (OBlobServer srv)
    ∧ srv_statter srv = bs_statter bs
    ∧ match lastOf pickCacheProvider opts with
      | None => bs_statter bs = globalStatter r
      | Some provider =>
          h' !! bs_statter bs
            = Some (OCachedBlobStatter
                      {| cbs_cache := provider;
                         cbs_backend := globalStatter r |})
      end
    ∧ GlobalBlobStatter (4 + length h) h' = Some (globalStatter r, h')
    ∧ GlobalBlobs (4 + length h) h' = Some (globalBlobStore r, h')
    ∧ h' !! globalStatter r
        = Some (OBlobStatter {| st_driver := drv; st_options := options r;
                                st_repositoryScope := "" |})
    ∧ length h'
        = length h + 5 + length (omap pickCacheProvider opts).
Proof.
  destruct (NewRegistry_run c drv opts h)
    as (h' & r & o & bs & srv & Hrun & L & Hcf & E1 & E2 & E3 & E4 & E5
        & Hlen & Hpre & Hraw).
  destruct (readConfig_fields _ _ _ Hcf) as (_ & _ & _ & _ & _ & _ & _ & _
                                             & _ & Fp).
  simpl in Fp.
  destruct L as (Hreg & Hopt & _ & Hbs & Hsrv & _ & _ & _ & Est & Hcache).
  exists h', r, bs, srv. do 6 (split; [assumption|]).
  split; [rewrite <- Fp; exact Hcache|].
  split; [unfold GlobalBlobStatter, mbind, H_bind;
          rewrite (getRegistry_run _ _ _ Hreg); reflexivity|].
  split; [unfold GlobalBlobs, mbind, H_bind;
          rewrite (getRegistry_run _ _ _ Hreg); reflexivity|].
  split; [rewrite E1, E2; exact Hraw|exact Hlen].
Qed.

Lemma configOf_prefix (h h' : heap) reg cf :
  h `prefix_of` h' → configOf h reg = Some cf → configOf h' reg = Some cf.
Proof.
  intros Hpre. unfold configOf.
  destruct (h !! reg) as [[| | | | |r]|] eqn:Hreg; try discriminate.
  destruct (h !! options r) as [[o| | | | |]|] eqn:Hopt; try discriminate.
  intros E.
  assert (Hreg' : h' !! reg = Some (ORegistry r))
    by exact (prefix_lookup_Some _ _ _ _ Hreg Hpre).
  assert (Hopt' : h' !! options r = Some (ORegistryOptions o))
    by exact (prefix_lookup_Some _ _ _ _ Hopt Hpre).
  rewrite Hreg', Hopt'. exact E.
Qed.

(** X12.  Registries do not share settings: building a second
    registry, with whatever options, leaves the configuration of the
    first as it was, and each has exactly the configuration of its own
    options. *)
Theorem registries_are_independent c1 drv1 opts1 c2 drv2 opts2 (h : heap) :
  ∃ reg1 h1 reg2 h2,
    NewRegistry c1 drv1 (optionOf <$> opts1) h = Some (Ok reg1, h1)
    ∧ NewRegistry c2 drv2 (optionOf <$> opts2) h1 = Some (Ok reg2, h2)
    ∧ reg1 ≠ reg2
    ∧ h1 `prefix_of` h2
    ∧ configOf h2 reg1 = Some (configFor opts1)
    ∧ configOf h2 reg2 = Some (configFor opts2).
Proof.
  destruct (NewRegistry_run c1 drv1 opts1 h)
    as (h1 & r1 & o1 & bs1 & srv1 & Hrun1 & L1 & Hcf1 & _ & _ & _ & _ & _
        & Hlen1 & _).
  destruct (NewRegistry_run c2 drv2 opts2 h1)
    as (h2 & r2 & o2 & bs2 & srv2 & Hrun2 & L2 & Hcf2 & _ & _ & _ & _ & _
        & _ & Hpre & _).
  exists (4 + length h), h1, (4 + length h1), h2.
  split; [exact Hrun1|]. split; [exact Hrun2|].
  split; [lia|]. split; [exact Hpre|].
  split.
  - apply (configOf_prefix h1); [exact Hpre|].
    rewrite (configOf_layout _ _ _ _ _ _ L1), Hcf1. reflexivity.
  - rewrite (configOf_layout _ _ _ _ _ _ L2), Hcf2. reflexivity.
Qed.

(** X13.  [Repository] on a registry built by [NewRegistry] builds
    nothing on the heap.  Without a (non-nil) cache provider among the
    options it cannot fail and the repository has no descriptor cache;
    with one, it asks the latest provider for a cache scoped to the
    name, and fails with the provider's error exactly when that fails.
    The repository it returns is named as asked. *)
Theorem Repository_of_new_registry RepositoryScoped c drv opts (h : heap)
    c' canonicalName :
  ∃ h' res,
    NewRegistry c drv (optionOf <$> opts) h = Some (Ok (4 + length h), h')
    ∧ Repository RepositoryScoped (4 + length h) c' canonicalName h'
        = Some (res, h')
    ∧ res = match lastOf pickCacheProvider opts with
            | None => Ok {| registry_ := 4 + length h; ctx := c';
                            name := canonicalName;
                            descriptorCache := None |}
            | Some provider =>
                match RepositoryScoped provider canonicalName with
                | Ok cache =>
                    Ok {| registry_ := 4 + length h; ctx := c';
                          name := canonicalName;
                          descriptorCache := Some cache |}
                | Err err => Err err
                end
            end
    ∧ ∀ repo, res = Ok repo → Named repo = canonicalName.
Proof.
  destruct (NewRegistry_run c drv opts h)
    as (h' & r & o & bs & srv & Hrun & L & Hcf & _).
  destruct (readConfig_fields _ _ _ Hcf) as (_ & _ & _ & _ & _ & _ & _ & _
                                             & _ & Fp).
  simpl in Fp. destruct L as (Hreg & _).
  exists h'.
  exists (match lastOf pickCacheProvider opts with
          | None => Ok {| registry_ := 4 + length h; ctx := c';
                          name := canonicalName; descriptorCache := None |}
          | Some provider =>
              match RepositoryScoped provider canonicalName with
              | Ok cache =>
                  Ok {| registry_ := 4 + length h; ctx := c';
                        name := canonicalName;
                        descriptorCache := Some cache |}
              | Err err => Err err
              end
          end).
  split; [exact Hrun|].
  split.
  { unfold Repository, mbind, H_bind. rewrite (getRegistry_run _ _ _ Hreg).
    rewrite Fp.
    destruct (lastOf pickCacheProvider opts) as [p|]; [|reflexivity].
    destruct (RepositoryScoped p canonicalName); reflexivity. }
  split; [reflexivity|].
  intros repo.
  destruct (lastOf pickCacheProvider opts) as [p|];
    [destruct (RepositoryScoped p canonicalName)|];
    intros E; try discriminate; injection E as <-; reflexivity.
Qed.

(** A registry built with [opts] on the heap [h], and the repository
    [canonicalName] of it. *)
Section Services.
Variables (c drv : handle) (opts : list namedOption) (h : heap).
Variables (c' : handle) (canonicalName : string) (cache : option handle).

Let reg : loc := 4 + length h.
Let repo : repository :=
  {| registry_ := reg; ctx := c'; name := canonicalName;
     descriptorCache := cache |}.
Let cf : Config := configFor opts.

(** X14.  The options given to [NewRegistry] reach the manifest
    service of every repository of the registry.  [Manifests] without
    service options cannot fail; the schema1 handler signs only when
    [EnableSchema1] was given, and else is the unsupported handler,
    with the latest signing key either way; the schema2 and OCI
    handlers carry the latest allow and deny regexps; deletion is
    enabled by [EnableDelete]; digest resumption is off whatever the
    options say; the statter is the linked statter over the manifest
    revision and blob links, under the access controller of the latest
    factory if there is one, and never behind the repository's
    descriptor cache; the blob store is the global one unless
    [EnableRepositoryBlobsStorage] was given. *)
Theorem Manifests_follow_options :
  ∃ h' h'' ms signed,
    NewRegistry c drv (optionOf <$> opts) h = Some (Ok reg, h')
    ∧ Manifests repo c' [] h' = Some (Ok ms, h'')
    ∧ h' `prefix_of` h''
    ∧ lbs_blobStore (ms_blobStore ms)
        = (if c_repositoryBlobStore cf then 1 + length h'
           else 2 + length h)
    ∧ lbs_blobAccessController (ms_blobStore ms)
        = (let linked :=
             LinkedBlobStatter
               {| lst_blobStore := lbs_blobStore (ms_blobStore ms);
                  lst_repository := repo;
                  lst_linkPathFns :=
                    [manifestRevisionLinkPath; blobLinkPath] |} in
           match c_factory cf with
           | Some factory => BlobAccessController factory linked
           | None => linked
           end)
    ∧ lbs_deleteEnabled (ms_blobStore ms) = c_delete cf
    ∧ lbs_resumableDigestEnabled (ms_blobStore ms) = false
    ∧ lbs_blobServer (ms_blobStore ms) = None
    ∧ ms_schema1Handler ms
        = (if c_schema1 cf then SignedManifestHandler signed
           else V1UnsupportedHandler signed)
    ∧ smh_schema1SigningKey signed = c_signingKey cf
    ∧ smh_blobStore signed = ms_blobStore ms
    ∧ ms_schema2Handler ms
        = Schema2ManifestHandler c' repo (ms_blobStore ms)
            {| allow := c_allow cf; deny := c_deny cf |}
    ∧ ms_manifestListHandler ms
        = ManifestListHandler c' repo (ms_blobStore ms)
    ∧ ms_ocischemaHandler ms
        = OcischemaManifestHandler c' repo (ms_blobStore ms)
            {| allow := c_allow cf; deny := c_deny cf |}.
Proof.
  destruct (NewRegistry_run c drv opts h)
    as (h' & r & o & bs & srv & Hrun & L & Hcf & E1 & E2 & E3 & E4 & E5 & _).
  destruct (readConfig_fields _ _ _ Hcf)
    as (_ & F2 & _ & F4 & F5 & _ & F7 & F8 & F9 & _).
  fold cf in F2, F4, F5, F7, F8, F9.
  destruct L as (Hreg & Hopt & _).
  exists h'. unfold Manifests, mbind, H_bind.
  destruct (c_repositoryBlobStore cf) eqn:Hscoped.
  - pose proof (scopedBlobStore_scoped repo h' r o Hreg Hopt [] F2) as Hs.
    rewrite app_nil_r in Hs. rewrite Hs.
    erewrite getRegistry_run by (apply lookup_app_l_Some; exact Hreg).
    simpl. rewrite F4, F5, F7, F8, F9.
    eexists _, _, _. split; [exact Hrun|]. split; [reflexivity|].
    split; [apply prefix_app_r; done|]. simpl. repeat split.
  - rewrite (scopedBlobStore_global repo h' r o Hreg Hopt F2).
    erewrite getRegistry_run by exact Hreg.
    simpl. rewrite F4, F5, F7, F8, F9, E3.
    eexists _, _, _. split; [exact Hrun|]. split; [reflexivity|].
    split; [done|]. simpl. repeat split.
Qed.

(** X15.  The options reach [Blobs] as well.  The blob service points
    back to its registry; deletion is enabled by [EnableDelete] and
    digest resumption is on unless [DisableDigestResumption] was given;
    the statter is the linked statter over the blob links, behind the
    repository's descriptor cache if it has one, and the access
    controller of the latest factory, if any, goes around the cache,
    never inside it.  With repository-scoped storage off the store and
    server are the global ones and nothing is built; with it on, five
    objects are built, and the server does not serve through the
    service's own store. *)
Theorem Blobs_follow_options :
  ∃ h' h'' svc,
    NewRegistry c drv (optionOf <$> opts) h = Some (Ok reg, h')
    ∧ Blobs repo c' h' = Some (svc, h'')
    ∧ h' `prefix_of` h''
    ∧ length h''
        = length h' + (if c_repositoryBlobStore cf then 5 else 0)
    ∧ lbs_registry svc = Some reg
    ∧ lbs_blobStore svc
        = (if c_repositoryBlobStore cf then 1 + length h'
           else 2 + length h)
    ∧ lbs_blobServer svc
        = Some (if c_repositoryBlobStore cf then 4 + length h'
                else 3 + length h)
    ∧ (∃ server,
         h'' !! (if c_repositoryBlobStore cf then 4 + length h'
                 else 3 + length h) = Some (OBlobServer server)
         ∧ srv_pathFn server
             = (if c_repositoryBlobStore cf then 3 + length h'
                else 2 + length h))
    ∧ lbs_blobAccessController svc
        = (let linked :=
             LinkedBlobStatter
               {| lst_blobStore := lbs_blobStore svc;
                  lst_repository := repo;
                  lst_linkPathFns := [blobLinkPath] |} in
           let cached :=
             match cache with
             | Some cache => CachedBlobStatter cache linked
             | None => linked
             end in
           match c_factory cf with
           | Some factory => BlobAccessController factory cached
           | None => cached
           end)
    ∧ lbs_deleteEnabled svc = c_delete cf
    ∧ lbs_resumableDigestEnabled svc = c_resumableDigest cf
    ∧ lbs_linkPathFns svc = [blobLinkPath].
Proof.
  destruct (NewRegistry_run c drv opts h)
    as (h' & r & o & bs & srv & Hrun & L & Hcf & E1 & E2 & E3 & E4 & E5 & _).
  destruct (readConfig_fields _ _ _ Hcf)
    as (_ & F2 & _ & F4 & _ & F6 & _ & _ & F9 & _).
  fold cf in F2, F4, F6, F9.
  destruct L as (Hreg & Hopt & _ & _ & Hsrv & _ & _ & Epf & _).
  exists h'. unfold Blobs, mbind, H_bind.
  destruct (c_repositoryBlobStore cf) eqn:Hscoped.
  - pose proof (scopedBlobStore_scoped repo h' r o Hreg Hopt [] F2) as Hs.
    rewrite app_nil_r in Hs. rewrite Hs.
    rewrite (scopedBlobServer_scoped repo h' r o Hreg Hopt _ F2).
    erewrite getRegistry_run
      by (do 2 apply lookup_app_l_Some; exact Hreg).
    simpl. rewrite F4, F6, F9.
    eexists _, _. split; [exact Hrun|]. split; [reflexivity|].
    split; [rewrite <- app_assoc; apply prefix_app_r; done|].
    split; [rewrite !length_app; simpl; lia|].
    simpl. rewrite length_app. simpl.
    split; [reflexivity|]. split; [reflexivity|].
    split; [f_equal; lia|].
    split; [|repeat split].
    eexists. split.
    + rewrite lookup_app_r by (rewrite length_app; simpl; lia).
      rewrite length_app. simpl.
      replace (S (S (S (S (length h')))) - (length h' + 2)) with 2 by lia.
      reflexivity.
    + simpl. lia.
  - rewrite (scopedBlobStore_global repo h' r o Hreg Hopt F2).
    rewrite (scopedBlobServer_global repo h' r o Hreg Hopt F2).
    erewrite getRegistry_run by exact Hreg.
    simpl. rewrite F4, F6, F9, E3, E4.
    eexists _, _. split; [exact Hrun|]. split; [reflexivity|].
    split; [done|]. split; [lia|]. simpl.
    do 3 (split; [reflexivity|]).
    split; [|repeat split].
    exists srv. split.
    + replace (S (S (S (length h)))) with (globalBlobServer r)
        by (rewrite E4; reflexivity).
      exact Hsrv.
    + rewrite Epf, E3. reflexivity.
Qed.

End Services.



Lemma layout_prefix (h h' : heap) reg r o bs srv :
  h `prefix_of` h' →
  registry_layout h reg r o bs srv → registry_layout h' reg r o bs srv.
Proof.
  intros Hpre (Hreg & Hopt & (s & Hst & Eso) & Hbs & Hsrv & Ebo & Esr & Epf
               & Est & Hcache).
  assert (Hup : ∀ l x, h !! l = Some x → h' !! l = Some x)
    by (intros l x Hl; exact (prefix_lookup_Some _ _ _ _ Hl Hpre)).
  unfold registry_layout.
  split; [apply Hup; exact Hreg|]. split; [apply Hup; exact Hopt|].
  split; [exists s; split; [apply Hup; exact Hst|exact Eso]|].
  split; [apply Hup; exact Hbs|]. split; [apply Hup; exact Hsrv|].
  do 4 (split; [assumption|]).
  destruct (globalBlobDescriptorCacheProvider r); [apply Hup|]; exact Hcache.
Qed.

(** C10.  For a repository of a registry that [NewRegistry] built with
    options of this file, on that heap or a later one.  The statter,
    blob store and blob server [NewRegistry] built are still there;
    the server is bound to that store and uses the statter the store
    uses, which is the statter [NewRegistry] built or, once a cache
    provider is set, the cache in front of it.  With repository-scoped
    storage off, [Tags], [Manifests] and [Blobs] build nothing: the tag
    store, the linked blob stores of the manifest service and of all
    its handlers, and the blob service work on that one blob store, as
    do their linked statters, and [Blobs] serves through that one blob
    server.  With it on, each of them builds a blob store of its own,
    with a statter of its own, both scoped to the repository's name,
    and works on it, [Blobs] also a blob server on a further such
    store, and the objects already on the heap stay as they were; so
    the scoped stores of two calls, for the same or for different
    repositories, are different objects. *)
Theorem repository_services_scoping c0 drv opts (h0 h1 h : heap)
    (repo : repository) c :
  NewRegistry c0 drv (optionOf <$> opts) h0 = Some (Ok (registry_ repo), h1) →
  h1 `prefix_of` h →
  (∃ store server,
     h !! (1 + length h0)
       = Some (OBlobStatter {| st_driver := drv; st_options := length h0;
                               st_repositoryScope := "" |})
     ∧ h !! (2 + length h0) = Some (OBlobStore store)
     ∧ h !! (3 + length h0) = Some (OBlobServer server)
     ∧ srv_pathFn server = 2 + length h0
     ∧ srv_statter server = bs_statter store
     ∧ match lastOf pickCacheProvider opts with
       | None => bs_statter store = 1 + length h0
       | Some provider =>
           h !! bs_statter store
             = Some (OCachedBlobStatter
                       {| cbs_cache := provider;
                          cbs_backend := 1 + length h0 |})
       end)
  ∧ (OptEnableRepositoryBlobsStorage ∉ opts →
       scopedBlobStatter repo h = Some (1 + length h0, h)
       ∧ Tags repo c h
           = Some ({| ts_repository := repo;
                      ts_blobStore := 2 + length h0 |}, h)
       ∧ (∃ ms, Manifests repo c [] h = Some (Ok ms, h)
                ∧ Forall (works_on repo (2 + length h0)
                            [manifestRevisionLinkPath; blobLinkPath])
                    (storesOf ms))
       ∧ (∃ bs, Blobs repo c h = Some (bs, h)
                ∧ works_on repo (2 + length h0) [blobLinkPath] bs
                ∧ lbs_blobServer bs = Some (3 + length h0)))
  ∧ (OptEnableRepositoryBlobsStorage ∈ opts →
       (∃ ts h', Tags repo c h = Some (ts, h')
                 ∧ ts_repository ts = repo
                 ∧ fresh_scoped_store h h' (ts_blobStore ts) (name repo))
       ∧ (∃ ms h', Manifests repo c [] h = Some (Ok ms, h')
                   ∧ fresh_scoped_store h h'
                       (lbs_blobStore (ms_blobStore ms)) (name repo)
                   ∧ Forall (works_on repo (lbs_blobStore (ms_blobStore ms))
                               [manifestRevisionLinkPath; blobLinkPath])
                       (storesOf ms))
       ∧ (∃ bs srv h', Blobs repo c h = Some (bs, h')
                       ∧ lbs_blobServer bs = Some srv
                       ∧ fresh_scoped_store h h' (lbs_blobStore bs) (name repo)
                       ∧ fresh_scoped_server h h' srv (name repo)
                       ∧ works_on repo (lbs_blobStore bs) [blobLinkPath] bs)
       ∧ (∀ repo' bs1 h2 bs2 h3,
            registry_ repo' = registry_ repo →
            scopedBlobStore repo h = Some (bs1, h2) →
            scopedBlobStore repo' h2 = Some (bs2, h3) →
            bs1 ≠ bs2
            ∧ fresh_scoped_store h h3 bs1 (name repo)
            ∧ fresh_scoped_store h2 h3 bs2 (name repo'))).
Proof.
  intros Hnew Hext.
  destruct (NewRegistry_run c0 drv opts h0)
    as (h' & r & o & store & server & Hrun & L & Hcf & E1 & E2 & E3 & E4 & _
        & _ & _ & Hraw).
  rewrite Hrun in Hnew. injection Hnew as Ereg <-.
  assert (Ereg' : registry_ repo = 4 + length h0) by (symmetry; exact Ereg).
  clear Ereg.
  destruct (readConfig_fields _ _ _ Hcf)
    as (_ & F2 & _ & _ & _ & _ & _ & _ & _ & Fp).
  simpl in F2, Fp.
  apply (layout_prefix _ h) in L; [|exact Hext].
  destruct L as (Hreg & Hopt & _ & Hbs & Hsrv & _ & _ & Epf & Est & Hcache).
  rewrite <- Ereg' in Hreg. rewrite E3 in Hbs. rewrite E4 in Hsrv.
  rewrite E3 in Epf. rewrite Fp, E2 in Hcache.
  destruct (services_by_scope repo c h r o Hreg Hopt) as [Hoff Hon].
  rewrite E2, E3, E4 in Hoff.
  split; [|split].
  - exists store, server.
    split; [exact (prefix_lookup_Some _ _ _ _ Hraw Hext)|].
    do 4 (split; [assumption|]). exact Hcache.
  - intros Hnot. apply Hoff. rewrite F2. apply bool_decide_eq_false. exact Hnot.
  - intros Hin. apply Hon. rewrite F2. apply bool_decide_eq_true. exact Hin.
Qed.

(** C10 on the registries [NewRegistry] builds.  With a cache provider
    and global storage, the tag store is on the global blob store at
    address 2, whose statter is the cache at address 5 in front of the
    statter at address 1, and the blob service is on the same store and
    the global server; with repository-scoped storage each call has a
    store of its own. *)
Lemma repository_services_scoping_witness :
  (∃ store,
     heapOfNamed [OptBlobDescriptorCacheProvider (Some "redis")] !! 2
       = Some (OBlobStore store)
     ∧ bs_statter store = 5
     ∧ heapOfNamed [OptBlobDescriptorCacheProvider (Some "redis")] !! 5
         = Some (OCachedBlobStatter
                   {| cbs_cache := "redis"; cbs_backend := 1 |}))
  ∧ Tags repoApp "ctx"
      (heapOfNamed [OptBlobDescriptorCacheProvider (Some "redis")])
      = Some ({| ts_repository := repoApp; ts_blobStore := 2 |},
              heapOfNamed [OptBlobDescriptorCacheProvider (Some "redis")])
  ∧ (∃ bs, Blobs repoApp "ctx"
             (heapOfNamed [OptBlobDescriptorCacheProvider (Some "redis")])
           = Some (bs, heapOfNamed
                         [OptBlobDescriptorCacheProvider (Some "redis")])
           ∧ works_on repoApp 2 [blobLinkPath] bs
           ∧ lbs_blobServer bs = Some 3)
  ∧ (∃ ts h',
       Tags repoApp "ctx" (heapOfNamed [OptEnableRepositoryBlobsStorage])
         = Some (ts, h')
       ∧ ts_repository ts = repoApp
       ∧ fresh_scoped_store (heapOfNamed [OptEnableRepositoryBlobsStorage]) h'
           (ts_blobStore ts) "library/app")
  ∧ ∃ bs1 h1 bs2 h2,
      scopedBlobStore repoApp (heapOfNamed [OptEnableRepositoryBlobsStorage])
        = Some (bs1, h1)
      ∧ scopedBlobStore repoOther h1 = Some (bs2, h2)
      ∧ bs1 ≠ bs2.
Proof.
  destruct (repository_services_scoping "ctx" "inmemory"
              [OptBlobDescriptorCacheProvider (Some "redis")] []
              (heapOfNamed [OptBlobDescriptorCacheProvider (Some "redis")])
              (heapOfNamed [OptBlobDescriptorCacheProvider (Some "redis")])
              repoApp "ctx" eq_refl (reflexivity _))
    as ((store & server & _ & Hstore & _ & _ & _ & Hcache) & Hglobal & _).
  destruct (repository_services_scoping "ctx" "inmemory"
              [OptEnableRepositoryBlobsStorage] []
              (heapOfNamed [OptEnableRepositoryBlobsStorage])
              (heapOfNamed [OptEnableRepositoryBlobsStorage])
              repoApp "ctx" eq_refl (reflexivity _))
    as (_ & _ & Hscoped).
  destruct Hglobal as (_ & Htags & _ & Hblobs).
  { intros Hin. apply list_elem_of_singleton in Hin. discriminate. }
  destruct Hscoped as (Htags' & _ & _ & Hdistinct).
  { apply list_elem_of_singleton. reflexivity. }
  split.
  { exists store. split; [exact Hstore|].
    simpl in Hcache.
    assert (Es : bs_statter store = 5).
    { vm_compute in Hstore. injection Hstore as <-. reflexivity. }
    split; [exact Es|]. rewrite <- Es. exact Hcache. }
  split; [exact Htags|]. split; [exact Hblobs|]. split; [exact Htags'|].
  eexists _, _, _, _.
  split; [vm_compute; reflexivity|].
  split; [vm_compute; reflexivity|].
  refine (proj1 (Hdistinct repoOther _ _ _ _ eq_refl _ _));
    vm_compute; reflexivity.
Defined.
End registry_more.
